(** * SM2 selective-disclosure cryptosuite: proof-value codec, discloser
      and verifier

    A shallow embedding of [lib/proofValue.js], [lib/verify.js] and
    [lib/disclose.js] of [@instun/sm2-sd-2023-cryptosuite], and of the parts
    of [lib/sign.js] and [lib/confirm.js] that feed them, followed by the
    properties of the proof-value protocol.

    Third-party libraries ([cborg], [base64url-universal],
    [base58-universal], [@instun/sm2-multikey], [di-sd-primitives]) are
    collaborators: they enter as [Section] variables, and a small reference
    instance of each is given at the end of the definitions so that the
    model can be run on concrete inputs. *)

From Stdlib Require Import ZArith NArith List String Ascii Strings.Byte Bool Lia.
From Stdlib Require Import Decimal DecimalString DecimalN DecimalPos Sorted.
From stdpp Require Import base option list gmap strings.

Set Warnings "-register-all".

Open Scope string_scope.
Open Scope Z_scope.
Open Scope list_scope.

(** ** JavaScript values *)

Module Js.

(** Heap addresses of plain objects. *)
Definition loc := positive.

(** A JavaScript number.  [NInt z] is an integral finite number,
    [NFloat m e] the non-integral dyadic [(2m+1) / 2^e]. *)
Inductive number :=
| NInt (z : Z)
| NNaN
| NInf (negative : bool)
| NFloat (m : Z) (e : positive).

(** The values the three modules handle.  Arrays, typed arrays and [Map]s
    are carried by value (the code never mutates one that is shared);
    plain objects live in the heap and are referred to by address. *)
Inductive value :=
| VUndefined
| VNull
| VBool (b : bool)
| VNumber (n : number)
| VString (s : string)
| VBytes (b : list byte)                  (* Uint8Array *)
| VArray (l : list value)                 (* Array *)
| VMap (m : list (value * value))         (* Map, in insertion order *)
| VRef (l : loc).                         (* plain object *)

Abbreviation object := (gmap string value).
Abbreviation heap := (gmap loc (gmap string value)).

(** Thrown values. *)
Inductive error :=
| TypeError (msg : string) (cause : option error)
| Error (msg : string)
| Foreign (origin : string).              (* thrown inside a collaborator *)

Inductive outcome (A : Type) :=
| Return (a : A)
| Throw (e : error).
Arguments Return {A} a.
Arguments Throw {A} e.

#[global] Instance outcome_ret : MRet outcome := @Return.
#[global] Instance outcome_bind : MBind outcome := λ A B k m,
  match m with
  | Return a => k a
  | Throw e => Throw e
  end.

(** [try { body } catch(e) { throw handler(e) }] *)
Definition try_catch {A} (body : outcome A) (handler : error → error)
  : outcome A :=
  match body with
  | Return a => Return a
  | Throw e => Throw (handler e)
  end.

Definition throw_unless (c : bool) (e : error) : outcome unit :=
  if c then Return tt else Throw e.

(** The double-quote character, for messages that quote a field name. *)
Definition dq : string := String (ascii_of_nat 34) EmptyString.
Definition quoted (s : string) : string := dq +:+ s +:+ dq.

(** *** Numbers and strings *)

(** Round a non-negative integer to the nearest IEEE-754 double (ties to
    even), as [parseInt] does with the mathematical value of the digits. *)
Definition round_double (n : Z) : number :=
  if n <? 2 ^ 53 then NInt n
  else
    let e := Z.log2 n - 52 in
    let q := n / 2 ^ e in
    let r := n mod 2 ^ e in
    let half := 2 ^ (e - 1) in
    let q' := if r <? half then q
              else if half <? r then q + 1
              else if Z.even q then q else q + 1 in
    let v := q' * 2 ^ e in
    if v <? 2 ^ 1024 then NInt v else NInf false.

Definition digit_of_ascii (c : ascii) : option (uint → uint) :=
  match c with
  | "0"%char => Some D0 | "1"%char => Some D1 | "2"%char => Some D2
  | "3"%char => Some D3 | "4"%char => Some D4 | "5"%char => Some D5
  | "6"%char => Some D6 | "7"%char => Some D7 | "8"%char => Some D8
  | "9"%char => Some D9
  | _ => None
  end.

(** The longest prefix of decimal digits. *)
Fixpoint digits_prefix (s : string) : uint :=
  match s with
  | EmptyString => Nil
  | String c s' =>
      match digit_of_ascii c with
      | Some d => d (digits_prefix s')
      | None => Nil
      end
  end.

Definition is_white_space (c : ascii) : bool :=
  let n := nat_of_ascii c in
  ((9 <=? n) && (n <=? 13) || (n =? 32) || (n =? 160))%nat.

Fixpoint trim_start (s : string) : string :=
  match s with
  | String c s' => if is_white_space c then trim_start s' else s
  | EmptyString => s
  end.

Definition negate (n : number) : number :=
  match n with
  | NInt z => NInt (- z)
  | NNaN => NNaN
  | NInf b => NInf (negb b)
  | NFloat m e => NFloat (- m - 1) e
  end.

(** [parseInt(s, 10)] *)
Definition parseInt10 (s : string) : number :=
  let s := trim_start s in
  let '(neg, s) :=
    match s with
    | String "-"%char s' => (true, s')
    | String "+"%char s' => (false, s')
    | _ => (false, s)
    end in
  match digits_prefix s with
  | Nil => NNaN
  | d => let n := round_double (Z.of_N (N.of_uint d)) in
         if neg then negate n else n
  end.

Definition decimal (n : N) : string := NilEmpty.string_of_uint (N.to_uint n).

Definition decimal_nat (n : nat) : string := decimal (N.of_nat n).

Definition decimal_Z (z : Z) : string :=
  if z <? 0 then "-" +:+ decimal (Z.to_N (- z)) else decimal (Z.to_N z).

Section ToString.
(** [Number::toString] of an integer up to 2^53 in absolute value writes
    its digits; past that the engine writes the shortest digits that read
    back as the same number, and that, like fractions and exponent
    notation, is left to the engine. *)
Variable Number_toString_ext : number → string.

Definition Number_toString (n : number) : string :=
  match n with
  | NInt z => if Z.abs z <=? 2 ^ 53 then decimal_Z z
              else Number_toString_ext n
  | NNaN => "NaN"
  | NInf false => "Infinity"
  | NInf true => "-Infinity"
  | NFloat _ _ => Number_toString_ext n
  end.

Definition join (sep : string) (l : list string) : string :=
  match l with
  | [] => EmptyString
  | x :: r => fold_left (λ acc y, acc +:+ sep +:+ y) r x
  end.

(** [ToString], as a template literal applies it. *)
Fixpoint ToString (v : value) : string :=
  match v with
  | VUndefined => "undefined"
  | VNull => "null"
  | VBool true => "true"
  | VBool false => "false"
  | VNumber n => Number_toString n
  | VString s => s
  | VBytes b => join "," (List.map (λ x, decimal (Byte.to_N x)) b)
  | VArray l =>
      join "," (List.map (λ x, match x with
                               | VUndefined | VNull => EmptyString
                               | _ => ToString x
                               end) l)
  | VMap _ => "[object Map]"
  | VRef _ => "[object Object]"
  end.
End ToString.

(** *** Property access and built-in methods *)

Definition not_an_object (what : string) : error :=
  TypeError ("Cannot read properties of undefined or null (reading '"
             +:+ what +:+ "')") None.

Definition not_a_function (what : string) : error :=
  TypeError (what +:+ " is not a function") None.

(** [v.k] for a data property [k] that no built-in prototype defines. *)
Definition property (h : heap) (v : value) (k : string) : outcome value :=
  match v with
  | VUndefined | VNull => Throw (not_an_object k)
  | VRef l => Return (default VUndefined (h !! l ≫= (.!! k)))
  | _ => Return VUndefined
  end.

(** [v?.k] *)
Definition property_opt (h : heap) (v : value) (k : string) : value :=
  match v with
  | VRef l => default VUndefined (h !! l ≫= (.!! k))
  | _ => VUndefined
  end.

Definition string_drop (n : nat) (s : string) : string :=
  String.substring n (String.length s - n) s.

(** [v.slice(start)] for a non-negative [start]. *)
Definition slice (v : value) (start : nat) : outcome value :=
  match v with
  | VString s => Return (VString (string_drop start s))
  | VArray l => Return (VArray (drop start l))
  | VBytes b => Return (VBytes (drop start b))
  | VUndefined | VNull => Throw (not_an_object "slice")
  | _ => Throw (not_a_function "slice")
  end.

Definition index_entries {A} (f : A → value) (l : list A)
  : list (value * value) :=
  imap (λ i x, (VNumber (NInt (Z.of_nat i)), f x)) l.

Definition byte_value (b : byte) : value :=
  VNumber (NInt (Z.of_N (Byte.to_N b))).

(** [v.entries()], drained. *)
Definition entries (v : value) : outcome (list (value * value)) :=
  match v with
  | VMap m => Return m
  | VArray l => Return (index_entries id l)
  | VBytes b => Return (index_entries byte_value b)
  | VUndefined | VNull => Throw (not_an_object "entries")
  | _ => Throw (not_a_function "entries")
  end.

Fixpoint code_units (s : string) : list value :=
  match s with
  | EmptyString => []
  | String c s' => VString (String c EmptyString) :: code_units s'
  end.

(** The elements an array-destructuring pattern draws from [v]. *)
Definition iterate (v : value) : outcome (list value) :=
  match v with
  | VArray l => Return l
  | VString s => Return (code_units s)
  | VBytes b => Return (byte_value <$> b)
  | VMap m => Return ((λ kv, VArray [kv.1; kv.2]) <$> m)
  | _ => Throw (TypeError "value is not iterable" None)
  end.

Definition element (l : list value) (i : nat) : value :=
  default VUndefined (l !! i).

(** [Map.prototype.set] on the entries in insertion order: an existing key
    keeps its place. *)
Fixpoint Map_set {K V} `{EqDecision K} (k : K) (v : V) (m : list (K * V))
  : list (K * V) :=
  match m with
  | [] => [(k, v)]
  | (k', v') :: m' =>
      if decide (k' = k) then (k, v) :: m' else (k', v') :: Map_set k v m'
  end.

Fixpoint Map_get {K V} `{EqDecision K} (k : K) (m : list (K * V)) : option V :=
  match m with
  | [] => None
  | (k', v') :: m' => if decide (k' = k) then Some v' else Map_get k m'
  end.

Definition Map_has {K V} `{EqDecision K} (k : K) (m : list (K * V)) : bool :=
  bool_decide (is_Some (Map_get k m)).

Definition Map_keys {K V} (m : list (K * V)) : list K := m.*1.

#[global] Instance number_eq_dec : EqDecision number.
Proof. solve_decision. Defined.

Definition is_string (v : value) : bool :=
  match v with VString _ => true | _ => false end.

Definition is_Uint8Array (v : value) : bool :=
  match v with VBytes _ => true | _ => false end.

Definition is_Uint8Array_of_length (n : nat) (v : value) : bool :=
  match v with VBytes b => bool_decide (length b = n) | _ => false end.

(** [Number.isInteger] *)
Definition Number_isInteger (v : value) : bool :=
  match v with VNumber (NInt _) => true | _ => false end.

(** [Array.isArray(v) && v.every(p)] *)
Definition is_array_every (p : value → bool) (v : value) : bool :=
  match v with VArray l => forallb p l | _ => false end.

(** *** Effects: a heap of objects and a trace of collaborator calls *)

Inductive event :=
| EvImportKey
| EvVerifyStatement (index : nat)
| EvVerifyBase
| EvCreateHmac
| EvCanonicalizeAndGroup
| EvSelectJsonLd
| EvCanonicalize
| EvMatchProof (p : loc).

Record state := State { st_heap : heap; st_trace : list event }.

Definition M (A : Type) : Type := state → outcome A * state.

#[global] Instance M_ret : MRet M := λ A a s, (Return a, s).
#[global] Instance M_bind : MBind M := λ A B k m s,
  match m s with
  | (Return a, s') => k a s'
  | (Throw e, s') => (Throw e, s')
  end.
Definition throw {A} (e : error) : M A := λ s, (Throw e, s).
Definition lift {A} (o : outcome A) : M A := λ s, (o, s).
Definition emit (ev : event) : M unit :=
  λ s, (Return tt, State (st_heap s) (st_trace s ++ [ev])).
Definition get_heap : M heap := λ s, (Return (st_heap s), s).
Definition put_heap (h : heap) : M unit :=
  λ s, (Return tt, State h (st_trace s)).

End Js.

(** ** lib/proofValue.js *)

Module ProofValue.
Import Js.

Definition CBOR_PREFIX_BASE : list byte := [xd9; x5d; x00].
Definition CBOR_PREFIX_DERIVED : list byte := [xd9; x5d; x01].

Module Base.
Record params := Params {
  baseSignature : value;
  publicKey : value;
  hmacKey : value;
  signatures : value;
  mandatoryPointers : value
}.
End Base.

Module Derived.
Record params := Params {
  baseSignature : value;
  publicKey : value;
  signatures : value;
  labelMap : value;
  mandatoryIndexes : value
}.
End Derived.

Record verifyDataParams := VerifyDataParams {
  vd_proofHash : value;
  vd_publicKey : value;
  vd_mandatoryHash : value
}.

Definition invalid_proofValue : string :=
  "The proof does not include a valid " +:+ quoted "proofValue" +:+ " property".

(** The message of the error both parsers raise. *)
Definition parse_error_message : string := invalid_proofValue +:+ ".".

Definition must_be (field what : string) : error :=
  TypeError (quoted field +:+ " must be " +:+ what +:+ ".") None.

(** [_startsWithBytes]: an index past the end of [buffer] reads [undefined],
    which differs from every prefix byte. *)
Definition _startsWithBytes (buffer prefix : list byte) : bool :=
  forallb (λ i, match buffer !! i, prefix !! i with
                | Some a, Some b => Byte.eqb a b
                | _, _ => false
                end) (seq 0 (length prefix)).

Definition _concatBuffers (buffers : list (list byte)) : list byte :=
  concat buffers.

(** The bytes of a field that validation has shown to be a [Uint8Array]. *)
Definition bytes_of (v : value) : list byte :=
  match v with VBytes b => b | _ => [] end.

Definition _assertProofValue (h : heap) (proof : value) : outcome unit :=
  match property_opt h proof "proofValue" with
  | VString s =>
      match s with
      | String "u"%char _ => Return tt
      | _ => Throw (TypeError
               (invalid_proofValue +:+
                "; only base64url multibase encoding is supported.") None)
      end
  | _ => Throw (TypeError
           (invalid_proofValue +:+ "; " +:+ quoted "proofValue" +:+
            " must be a string.") None)
  end.

Definition _validateBaseProofParams (p : Base.params) : outcome unit :=
  throw_unless (is_Uint8Array_of_length 64 (Base.baseSignature p))
    (must_be "baseSignature" "a Uint8Array of length 64");;
  throw_unless (is_Uint8Array_of_length 35 (Base.publicKey p))
    (must_be "publicKey" "a Uint8Array of length 35");;
  throw_unless (is_Uint8Array_of_length 32 (Base.hmacKey p))
    (must_be "hmacKey" "a Uint8Array of length 32");;
  throw_unless
    (is_array_every (is_Uint8Array_of_length 64) (Base.signatures p))
    (must_be "signatures" "an array of Uint8Arrays, each of length 64");;
  throw_unless (is_array_every is_string (Base.mandatoryPointers p))
    (must_be "mandatoryPointers" "an array of strings").

Definition _validateBaseVerifyDataParams (p : verifyDataParams)
  : outcome unit :=
  throw_unless (is_Uint8Array_of_length 32 (vd_proofHash p))
    (must_be "proofHash" "a Uint8Array of length 32");;
  throw_unless (is_Uint8Array_of_length 35 (vd_publicKey p))
    (must_be "publicKey" "a Uint8Array of length 35");;
  throw_unless (is_Uint8Array_of_length 32 (vd_mandatoryHash p))
    (must_be "mandatoryHash" "a Uint8Array of length 32").

(** [labelMap instanceof Map] and every entry is a pair of strings. *)
Definition is_string_Map (v : value) : bool :=
  match v with
  | VMap m => forallb (λ kv, is_string kv.1 && is_string kv.2) m
  | _ => false
  end.

Definition _validateDerivedProofParams (p : Derived.params) : outcome unit :=
  throw_unless (is_Uint8Array_of_length 64 (Derived.baseSignature p))
    (must_be "baseSignature" "a Uint8Array of length 64");;
  throw_unless (is_Uint8Array_of_length 35 (Derived.publicKey p))
    (must_be "publicKey" "a Uint8Array of length 35");;
  throw_unless (is_array_every is_Uint8Array (Derived.signatures p))
    (must_be "signatures" "an array of Uint8Arrays");;
  throw_unless (is_string_Map (Derived.labelMap p))
    (must_be "labelMap" "a Map of strings to strings");;
  throw_unless (is_array_every Number_isInteger (Derived.mandatoryIndexes p))
    (must_be "mandatoryIndexes" "an array of integers").

(** [serializeBaseVerifyData] *)
Definition serializeBaseVerifyData (p : verifyDataParams)
  : outcome (list byte) :=
  _validateBaseVerifyDataParams p;;
  mret (_concatBuffers [bytes_of (vd_proofHash p); bytes_of (vd_publicKey p);
                        bytes_of (vd_mandatoryHash p)]).

Section Codec.
(** [base64url.decode] / [base64url.encode] of base64url-universal and
    [cborg.decode(_, {useMaps: true, tags: TAGS})] /
    [cborg.encode(_, {useMaps: true})]. *)
Variable base64url_decode : value → outcome (list byte).
Variable base64url_encode : value → outcome string.
Variable cborg_decode : list byte → outcome value.
Variable cborg_encode : value → outcome (list byte).
Variable Number_toString_ext : number → string.

Definition compress_entries (es : list (value * value))
  : outcome (list (number * list byte)) :=
  foldl (λ acc kv,
           map ← acc;
           k4 ← slice kv.1 4;
           v1 ← slice kv.2 1;
           bytes ← base64url_decode v1;
           mret (Map_set
                   (parseInt10 (ToString Number_toString_ext k4)) bytes map))
        (mret []) es.

(** [_compressLabelMap] *)
Definition _compressLabelMap (labelMap : value) : outcome value :=
  es ← entries labelMap;
  map ← compress_entries es;
  mret (VMap ((λ kv, (VNumber kv.1, VBytes kv.2)) <$> map)).

Definition decompress_entries (es : list (value * value))
  : outcome (list (string * string)) :=
  foldl (λ acc kv,
           map ← acc;
           enc ← base64url_encode kv.2;
           mret (Map_set ("c14n" +:+ ToString Number_toString_ext kv.1)
                         ("u" +:+ enc) map))
        (mret []) es.

(** [_decompressLabelMap] *)
Definition _decompressLabelMap (compressedLabelMap : value)
  : outcome value :=
  es ← entries compressedLabelMap;
  map ← decompress_entries es;
  mret (VMap ((λ kv, (VString kv.1, VString kv.2)) <$> map)).

(** [base64url.decode(proof.proofValue.slice(1))] *)
Definition decode_proofValue (h : heap) (proof : value)
  : outcome (list byte) :=
  pv ← property h proof "proofValue";
  tail ← slice pv 1;
  base64url_decode tail.

Definition _isBaseProofValue (h : heap) (proof : value) : outcome bool :=
  _assertProofValue h proof;;
  proofValue ← decode_proofValue h proof;
  mret (_startsWithBytes proofValue CBOR_PREFIX_BASE).

Definition _isDerivedProofValue (h : heap) (proof : value) : outcome bool :=
  _assertProofValue h proof;;
  proofValue ← decode_proofValue h proof;
  mret (_startsWithBytes proofValue CBOR_PREFIX_DERIVED).

Definition wrap_parse_error (e : error) : error :=
  TypeError parse_error_message (Some e).

(** The [try] block of [parseBaseProofValue]. *)
Definition parseBaseProofValue_try (h : heap) (proof : value)
  : outcome Base.params :=
  proofValue ← decode_proofValue h proof;
  isBase ← _isBaseProofValue h proof;
  throw_unless isBase (must_be "proof.proofValue" "a base proof");;
  let payload := drop (length CBOR_PREFIX_BASE) proofValue in
  decoded ← cborg_decode payload;
  items ← iterate decoded;
  let params := Base.Params (element items 0) (element items 1)
                  (element items 2) (element items 3) (element items 4) in
  _validateBaseProofParams params;;
  mret params.

(** [parseBaseProofValue] *)
Definition parseBaseProofValue (h : heap) (proof : value)
  : outcome Base.params :=
  try_catch (parseBaseProofValue_try h proof) wrap_parse_error.

(** The [try] block of [parseDisclosureProofValue]. *)
Definition parseDisclosureProofValue_try (h : heap) (proof : value)
  : outcome Derived.params :=
  proofValue ← decode_proofValue h proof;
  isDerived ← _isDerivedProofValue h proof;
  throw_unless isDerived (must_be "proof.proofValue" "a derived proof");;
  let payload := drop (length CBOR_PREFIX_DERIVED) proofValue in
  decoded ← cborg_decode payload;
  items ← iterate decoded;
  labelMap ← _decompressLabelMap (element items 3);
  let params := Derived.Params (element items 0) (element items 1)
                  (element items 2) labelMap (element items 4) in
  _validateDerivedProofParams params;;
  mret params.

(** [parseDisclosureProofValue] *)
Definition parseDisclosureProofValue (h : heap) (proof : value)
  : outcome Derived.params :=
  try_catch (parseDisclosureProofValue_try h proof) wrap_parse_error.

Definition base_payload (p : Base.params) : value :=
  VArray [Base.baseSignature p; Base.publicKey p; Base.hmacKey p;
          Base.signatures p; Base.mandatoryPointers p].

(** [serializeBaseProofValue] *)
Definition serializeBaseProofValue (p : Base.params) : outcome string :=
  _validateBaseProofParams p;;
  body ← cborg_encode (base_payload p);
  let cbor := _concatBuffers [CBOR_PREFIX_BASE; body] in
  enc ← base64url_encode (VBytes cbor);
  mret ("u" +:+ enc).

Definition derived_payload (p : Derived.params) (compressed : value)
  : value :=
  VArray [Derived.baseSignature p; Derived.publicKey p;
          Derived.signatures p; compressed; Derived.mandatoryIndexes p].

(** [serializeDisclosureProofValue] *)
Definition serializeDisclosureProofValue (p : Derived.params)
  : outcome string :=
  _validateDerivedProofParams p;;
  compressed ← _compressLabelMap (Derived.labelMap p);
  body ← cborg_encode (derived_payload p compressed);
  let cbor := _concatBuffers [CBOR_PREFIX_DERIVED; body] in
  enc ← base64url_encode (VBytes cbor);
  mret ("u" +:+ enc).
End Codec.

End ProofValue.

(** ** lib/verify.js *)

Module Verify.
Import Js ProofValue.

(** The [data] that [_createVerifyData] hands to the verifier. *)
Record verifyData := VerifyData {
  baseSignature : list byte;
  proofHash : list byte;
  publicKey : list byte;
  signatures : list (list byte);
  nonMandatory : list string;
  mandatoryHash : list byte
}.

Definition count_mismatch (nsig nmsg : nat) : error :=
  Error ("Signature count (" +:+ decimal_nat nsig +:+
         ") does not match non-mandatory message count (" +:+
         decimal_nat nmsg +:+ ").").

Section Multiverify.
(** The statement key pair imported by [SM2Multikey.from]. *)
Variable keyPair : Type.
Variable base58_encode : list byte → string.
Variable SM2Multikey_from : string → outcome keyPair.
(** [keyPair.verifier().verify({data, signature})] *)
Variable keyPair_verify : keyPair → list byte → list byte → bool.
(** [stringToUtf8Bytes]; it receives [undefined] for an index past the
    end of the array. *)
Variable stringToUtf8Bytes : value → list byte.
(** [verifier.verify({data, signature})] under the key of the proof's
    verification method. *)
Variable verifier_verify : list byte → list byte → bool.

Definition nth_statement (nonMandatory : list string) (index : nat)
  : value :=
  match nonMandatory !! index with
  | Some nq => VString nq
  | None => VUndefined
  end.

(** [signatures.map((signature, index) => verify(...))], every call
    issued in index order. *)
Fixpoint verify_statements (k : keyPair) (nonMandatory : list string)
    (index : nat) (signatures : list (list byte)) : M (list bool) :=
  match signatures with
  | [] => mret []
  | signature :: rest =>
      emit (EvVerifyStatement index);;
      let r := keyPair_verify k
                 (stringToUtf8Bytes (nth_statement nonMandatory index))
                 signature in
      rs ← verify_statements k nonMandatory (S index) rest;
      mret (r :: rs)
  end.

(** [_multiverify] *)
Definition _multiverify (data : verifyData) : M bool :=
  let publicKeyMultibase := "z" +:+ base58_encode (publicKey data) in
  emit EvImportKey;;
  localKeyPair ← lift (SM2Multikey_from publicKeyMultibase);
  if negb (length (signatures data) =? length (nonMandatory data))%nat
  then throw (count_mismatch (length (signatures data))
                             (length (nonMandatory data)))
  else
    results ← verify_statements localKeyPair (nonMandatory data) 0
                (signatures data);
    if existsb negb results then mret false
    else
      toVerify ← lift (serializeBaseVerifyData
                         (VerifyDataParams (VBytes (proofHash data))
                            (VBytes (publicKey data))
                            (VBytes (mandatoryHash data))));
      emit EvVerifyBase;;
      mret (verifier_verify toVerify (baseSignature data)).
End Multiverify.

End Verify.

(** ** lib/disclose.js *)

Module Disclose.
Import Js ProofValue.

(** One group of [canonicalizeAndGroup]: [matching] is the [Map] from
    absolute statement index to N-Quad, in the collaborator's insertion
    order. *)
Record group := Group {
  matching : list (nat * string);
  deskolemizedNQuads : list string
}.

Record grouping := Grouping {
  mandatoryGroup : group;
  selectiveGroup : group;
  combinedGroup : group;
  labelMap : list (string * string)
}.

Record disclosureData := DisclosureData {
  dd_baseSignature : value;
  dd_publicKey : value;
  dd_signatures : list value;
  dd_labelMap : list (string * option string);
  dd_mandatoryIndexes : list nat;
  dd_revealDoc : value
}.

(** *** The two index walks of [_createDisclosureData] *)

(** One turn of the [for ... of combinedGroup.matching.keys()] loop, on the
    pair [(relativeIndex, mandatoryIndexes)]. *)
Definition mandatoryIndexes_step (mandatory : list (nat * string))
    (st : nat * list nat) (absoluteIndex : nat) : nat * list nat :=
  let '(relativeIndex, mandatoryIndexes) := st in
  (S relativeIndex,
   if Map_has absoluteIndex mandatory
   then mandatoryIndexes ++ [relativeIndex]
   else mandatoryIndexes).

Definition compute_mandatoryIndexes (combined mandatory : list (nat * string))
  : list nat :=
  (foldl (mandatoryIndexes_step mandatory) (0%nat, []) (Map_keys combined)).2.

(** [while(mandatoryGroup.matching.has(index)) index++], with one unit of
    fuel per entry of the map. *)
Fixpoint skip_mandatory (fuel : nat) (mandatory : list (nat * string))
    (index : nat) : nat :=
  match fuel with
  | O => index
  | S fuel' =>
      if Map_has index mandatory
      then skip_mandatory fuel' mandatory (S index)
      else index
  end.

(** The predicate handed to [signatures.filter]: it reads and advances the
    shared cursor [index]. *)
Definition filter_predicate (mandatory selective : list (nat * string))
    (index : nat) : bool * nat :=
  let index := skip_mandatory (length mandatory) mandatory index in
  (Map_has index selective, S index).

Fixpoint filter_from {A} (mandatory selective : list (nat * string))
    (index : nat) (signatures : list A) : list A :=
  match signatures with
  | [] => []
  | signature :: rest =>
      let '(keep, index') := filter_predicate mandatory selective index in
      if keep then signature :: filter_from mandatory selective index' rest
      else filter_from mandatory selective index' rest
  end.

Definition filteredSignatures {A} (mandatory selective : list (nat * string))
    (signatures : list A) : list A :=
  filter_from mandatory selective 0 signatures.

(** *** Helpers on values *)

Definition truthy (v : value) : bool :=
  match v with
  | VUndefined | VNull | VBool false | VNumber NNaN => false
  | VNumber (NInt z) => negb (z =? 0)
  | VString s => negb (String.eqb s EmptyString)
  | _ => true
  end.

(** [a === b]; arrays, typed arrays and maps are compared by identity, which
    two values obtained separately never share. *)
Definition strict_eq (a b : value) : bool :=
  match a, b with
  | VUndefined, VUndefined | VNull, VNull => true
  | VBool x, VBool y => Bool.eqb x y
  | VNumber NNaN, VNumber NNaN => false
  | VNumber x, VNumber y => bool_decide (x = y)
  | VString x, VString y => String.eqb x y
  | VRef x, VRef y => bool_decide (x = y)
  | _, _ => false
  end.

Definition typeof_object (v : value) : bool :=
  match v with
  | VNull | VBytes _ | VArray _ | VMap _ | VRef _ => true
  | _ => false
  end.

(** [v?.length]: the built-in [length] of an array, a typed array or a
    string (counted in the characters of the model), the own property of a
    plain object, [undefined] for every other value. *)
Definition optional_length (h : heap) (v : value) : value :=
  match v with
  | VArray l => VNumber (NInt (Z.of_nat (length l)))
  | VBytes b => VNumber (NInt (Z.of_nat (length b)))
  | VString s => VNumber (NInt (Z.of_nat (String.length s)))
  | VRef _ => property_opt h v "length"
  | _ => VUndefined
  end.

(** [n > 0] on numbers. *)
Definition number_positive (n : number) : bool :=
  match n with
  | NInt z => 0 <? z
  | NNaN => false
  | NInf negative => negb negative
  | NFloat m _ => 0 <=? m
  end.

(** The elements of a value that validation has shown to be an array. *)
Definition array_elements (v : value) : list value :=
  match v with VArray l => l | _ => [] end.

(** [a.concat(b)] on an array [a]: an array argument is spread, anything
    else is appended as one element. *)
Definition Array_concat (a b : value) : value :=
  VArray (array_elements a ++ match b with VArray l => l | _ => [b] end).

Definition nothing_selected : error :=
  Error "Nothing selected for disclosure.".

(** [new]-style allocation of a plain object. *)
Definition alloc (o : object) : M loc :=
  h ← get_heap;
  let l := fresh (dom h) in
  put_heap (<[l := o]> h);;
  mret l.

Section Discloser.
(** [name] of [./name.js]. *)
Variable name : string.
Variable base64url_decode : value → outcome (list byte).
Variable base64url_encode : value → outcome string.
Variable cborg_decode : list byte → outcome value.
Variable cborg_encode : value → outcome (list byte).
Variable Number_toString_ext : number → string.
(** [ToNumber] of a string or of an object is left to the engine; on an
    object it may throw. *)
Variable ToNumber_ext : heap → value → outcome number.
(** di-sd-primitives.  [selectJsonLd] builds a new document (or yields
    [null]); [canonicalize] is represented by the [canonicalIdMap] it
    fills in. *)
Variable hmac : Type.
Variable createHmac : value → outcome hmac.
Variable canonicalizeAndGroup :
  heap → value → hmac → value → value → value → outcome grouping.
Variable selectJsonLd : heap → value → value → outcome (option object).
Variable canonicalize : string → outcome (list (string * string)).
Variable stripBlankNodePrefixes :
  list (string * string) → list (string * string).
(** [dataIntegrityProof.matchProof] *)
Variable matchProof : heap → loc → bool.

(** [v > 0] *)
Definition greater_than_zero (h : heap) (v : value) : outcome bool :=
  match v with
  | VUndefined | VNull => Return false
  | VBool b => Return b
  | VNumber n => Return (number_positive n)
  | _ => n ← ToNumber_ext h v; Return (number_positive n)
  end.

(** [mandatoryPointers?.length > 0 || selectivePointers?.length > 0] *)
Definition something_selected (h : heap)
    (mandatoryPointers selectivePointers : value) : outcome bool :=
  greater_than_zero h (optional_length h mandatoryPointers)
  ≫= λ mandatory : bool,
       if mandatory then Return true
       else greater_than_zero h (optional_length h selectivePointers).

(** [_createDisclosureData] *)
Definition _createDisclosureData (cryptosuite document proof : value)
  : M disclosureData :=
  h ← get_heap;
  if negb (strict_eq (property_opt h cryptosuite "name") (VString name))
  then throw (must_be "cryptosuite.name" (quoted name))
  else
    options ← lift (property h cryptosuite "options");
    if negb (truthy options && typeof_object options)
    then throw (must_be "cryptosuite.options" "an object")
    else
      params ← lift (parseBaseProofValue base64url_decode cborg_decode
                       h proof);
      let mandatoryPointers := Base.mandatoryPointers params in
      let selectivePointers :=
        match property_opt h options "selectivePointers" with
        | VUndefined => VArray []
        | v => v
        end in
      selected ← lift (something_selected h mandatoryPointers
                         selectivePointers);
      if negb selected
      then throw nothing_selected
      else
        emit EvCreateHmac;;
        hm ← lift (createHmac (Base.hmacKey params));
        let combinedPointers :=
          Array_concat mandatoryPointers selectivePointers in
        emit EvCanonicalizeAndGroup;;
        g ← lift (canonicalizeAndGroup h document hm mandatoryPointers
                    selectivePointers combinedPointers);
        let mandatoryIndexes :=
          compute_mandatoryIndexes (matching (combinedGroup g))
            (matching (mandatoryGroup g)) in
        let filtered :=
          filteredSignatures (matching (mandatoryGroup g))
            (matching (selectiveGroup g))
            (array_elements (Base.signatures params)) in
        emit EvSelectJsonLd;;
        selection ← lift (selectJsonLd h document combinedPointers);
        revealDoc ← match selection with
                    | Some o => l ← alloc o; mret (VRef l)
                    | None => mret VNull
                    end;
        emit EvCanonicalize;;
        idMap ← lift (canonicalize
                        (String.concat EmptyString
                           (deskolemizedNQuads (combinedGroup g))));
        let canonicalIdMap := stripBlankNodePrefixes idMap in
        let verifierLabelMap :=
          foldl (λ m kv, Map_set kv.2 (Map_get kv.1 (labelMap g)) m)
                [] canonicalIdMap in
        mret (DisclosureData (Base.baseSignature params)
                (Base.publicKey params) filtered verifierLabelMap
                mandatoryIndexes revealDoc).

(** [proofSet.find(p => p.id === proofId)] *)
Definition find_by_id (h : heap) (proofId : value) (proofSet : list loc)
  : option loc :=
  List.find (λ p, strict_eq (property_opt h (VRef p) "id") proofId)
            proofSet.

Definition find_matching_step (acc : M (option loc)) (p : loc)
  : M (option loc) :=
  proof ← acc;
  h ← get_heap;
  emit (EvMatchProof p);;
  if matchProof h p then
    match proof with
    | Some _ =>
        throw (Error ("Multiple matching proofs; a " +:+ quoted "proofId" +:+
                      " must be specified."))
    | None => mret (Some p)
    end
  else mret proof.

(** [_findProof] *)
Definition _findProof (proofId : value) (proofSet : list loc) : M loc :=
  h ← get_heap;
  proof ← (if truthy proofId then mret (find_by_id h proofId proofSet)
           else foldl find_matching_step (mret None) proofSet);
  match proof with
  | Some p => mret p
  | None =>
      throw (Error
        "No matching base proof found from which to derive a disclosure proof.")
  end.

Definition labelMap_value (m : list (string * option string)) : value :=
  VMap ((λ kv, (VString kv.1,
                match kv.2 with Some s => VString s | None => VUndefined end))
        <$> m).

Definition index_value (i : nat) : value := VNumber (NInt (Z.of_nat i)).

(** [_derive] *)
Definition _derive (cryptosuite document purpose : value)
    (proofSet : list loc) : M value :=
  h ← get_heap;
  options ← lift (property h cryptosuite "options");
  proofId ← lift (property h options "proofId");
  baseProof ← _findProof proofId proofSet;
  term ← lift (property h purpose "term");
  if negb (strict_eq (property_opt h (VRef baseProof) "proofPurpose") term)
  then throw (Error
         "Base proof purpose does not match purpose for derived proof.")
  else
    data ← _createDisclosureData cryptosuite document (VRef baseProof);
    h1 ← get_heap;
    newProof ← alloc (default ∅ (h1 !! baseProof));
    proofValue ← lift (serializeDisclosureProofValue base64url_decode
                         base64url_encode cborg_encode Number_toString_ext
                         (Derived.Params (dd_baseSignature data)
                            (dd_publicKey data)
                            (VArray (dd_signatures data))
                            (labelMap_value (dd_labelMap data))
                            (VArray (index_value <$> dd_mandatoryIndexes data))));
    h2 ← get_heap;
    put_heap (alter (λ o, delete "@context"
                            (<["proofValue" := VString proofValue]> o))
                    newProof h2);;
    h3 ← get_heap;
    match dd_revealDoc data with
    | VRef r =>
        put_heap (alter (<["proof" := VRef newProof]>) r h3);;
        mret (VRef r)
    | _ => throw (TypeError
                    "Cannot set properties of null (setting 'proof')" None)
    end.
End Discloser.

End Disclose.

(** ** Reference collaborators

    Executable stand-ins for the third-party libraries, used to run the
    model on concrete inputs.  The codecs follow RFC 4648 section 5
    (base64url without padding) and the part of RFC 8949 that proof values
    use; [cbor_encode] writes map entries in the order given. *)

Module Reference.
Import Js.

Definition byte_of_N (n : N) : byte :=
  default x00 (Byte.of_N (n mod 256)%N).

Section Base64url.
Open Scope N_scope.

Definition sextet_to_ascii (n : N) : ascii :=
  ascii_of_N (if n <? 26 then 65 + n
              else if n <? 52 then 71 + n
              else if n <? 62 then n - 4
              else if n =? 62 then 45 else 95).

Definition ascii_to_sextet (c : ascii) : option N :=
  let n := N_of_ascii c in
  if (65 <=? n) && (n <=? 90) then Some (n - 65)
  else if (97 <=? n) && (n <=? 122) then Some (n - 71)
  else if (48 <=? n) && (n <=? 57) then Some (n + 4)
  else if n =? 45 then Some 62
  else if n =? 95 then Some 63
  else None.

Fixpoint sextets (b : list byte) : list N :=
  match b with
  | x :: y :: z :: rest =>
      let n := Byte.to_N x * 65536 + Byte.to_N y * 256 + Byte.to_N z in
      n / 262144 :: (n / 4096) mod 64 :: (n / 64) mod 64 :: n mod 64
        :: sextets rest
  | [x; y] =>
      let n := Byte.to_N x * 65536 + Byte.to_N y * 256 in
      [n / 262144; (n / 4096) mod 64; (n / 64) mod 64]
  | [x] =>
      let n := Byte.to_N x * 65536 in
      [n / 262144; (n / 4096) mod 64]
  | [] => []
  end.

Fixpoint octets (s : list N) : option (list byte) :=
  match s with
  | a :: b :: c :: d :: rest =>
      let n := ((a * 64 + b) * 64 + c) * 64 + d in
      r ← octets rest;
      Some (byte_of_N (n / 65536) :: byte_of_N (n / 256) :: byte_of_N n :: r)
  | [a; b; c] =>
      let n := (a * 64 + b) * 64 + c in
      Some [byte_of_N (n / 1024); byte_of_N (n / 4)]
  | [a; b] => Some [byte_of_N ((a * 64 + b) / 16)]
  | [_] => None
  | [] => Some []
  end.

Definition base64url_encode (v : value) : outcome string :=
  match v with
  | VBytes b =>
      Return (string_of_list_ascii (sextet_to_ascii <$> sextets b))
  | _ => Throw (Foreign "base64url.encode")
  end.

Definition base64url_decode (v : value) : outcome (list byte) :=
  match v with
  | VString s =>
      match mapM ascii_to_sextet (list_ascii_of_string s) ≫= octets with
      | Some b => Return b
      | None => Throw (Foreign "base64url.decode")
      end
  | _ => Throw (Foreign "base64url.decode")
  end.
End Base64url.

Section Cbor.
Open Scope N_scope.

Fixpoint big_endian (width : nat) (n : N) : list N :=
  match width with
  | O => []
  | S w => (n / 256 ^ N.of_nat w) mod 256 :: big_endian w n
  end.

Definition head (major n : N) : list N :=
  if n <? 24 then [major * 32 + n]
  else if n <? 256 then (major * 32 + 24) :: big_endian 1 n
  else if n <? 65536 then (major * 32 + 25) :: big_endian 2 n
  else if n <? 4294967296 then (major * 32 + 26) :: big_endian 4 n
  else (major * 32 + 27) :: big_endian 8 n.

Fixpoint cbor_encode (v : value) : option (list N) :=
  match v with
  | VNumber (NInt z) =>
      if (0 <=? z)%Z then Some (head 0 (Z.to_N z))
      else Some (head 1 (Z.to_N (- 1 - z)))
  | VBytes b => Some (head 2 (N.of_nat (length b)) ++ (Byte.to_N <$> b))
  | VString s =>
      Some (head 3 (N.of_nat (String.length s))
            ++ (N_of_ascii <$> list_ascii_of_string s))
  | VArray l =>
      body ← (fix items (l : list value) : option (list N) :=
                match l with
                | [] => Some []
                | x :: r => a ← cbor_encode x; b ← items r; Some (a ++ b)
                end) l;
      Some (head 4 (N.of_nat (length l)) ++ body)
  | VMap m =>
      body ← (fix items (m : list (value * value)) : option (list N) :=
                match m with
                | [] => Some []
                | (k, x) :: r =>
                    a ← cbor_encode k; b ← cbor_encode x; c ← items r;
                    Some (a ++ b ++ c)
                end) m;
      Some (head 5 (N.of_nat (length m)) ++ body)
  | VBool false => Some [244]
  | VBool true => Some [245]
  | VNull => Some [246]
  | VUndefined => Some [247]
  | _ => None
  end.

Definition read_argument (info : N) (bs : list N) : option (N * list N) :=
  let read (width : nat) :=
    if decide (width ≤ length bs)%nat
    then Some (foldl (λ acc b, acc * 256 + b) 0 (take width bs),
               drop width bs)
    else None in
  if info <? 24 then Some (info, bs)
  else if info =? 24 then read 1%nat
  else if info =? 25 then read 2%nat
  else if info =? 26 then read 4%nat
  else if info =? 27 then read 8%nat
  else None.

Definition read_bytes (n : N) (bs : list N) : option (list N * list N) :=
  if decide (N.to_nat n ≤ length bs)%nat
  then Some (take (N.to_nat n) bs, drop (N.to_nat n) bs)
  else None.

Fixpoint cbor_decode (fuel : nat) (bs : list N) : option (value * list N) :=
  match fuel, bs with
  | S fuel', b :: rest =>
      '(n, rest) ← read_argument (b mod 32) rest;
      let items :=
        fix items (count : nat) (bs : list N)
          : option (list value * list N) :=
          match count with
          | O => Some ([], bs)
          | S count' =>
              '(v, bs) ← cbor_decode fuel' bs;
              '(vs, bs) ← items count' bs;
              Some (v :: vs, bs)
          end in
      let pairs :=
        fix pairs (count : nat) (bs : list N)
          : option (list (value * value) * list N) :=
          match count with
          | O => Some ([], bs)
          | S count' =>
              '(k, bs) ← cbor_decode fuel' bs;
              '(v, bs) ← cbor_decode fuel' bs;
              '(kvs, bs) ← pairs count' bs;
              Some ((k, v) :: kvs, bs)
          end in
      match b / 32 with
      | 0 => Some (VNumber (NInt (Z.of_N n)), rest)
      | 1 => Some (VNumber (NInt (- 1 - Z.of_N n)), rest)
      | 2 => '(payload, rest) ← read_bytes n rest;
             Some (VBytes (byte_of_N <$> payload), rest)
      | 3 => '(payload, rest) ← read_bytes n rest;
             Some (VString (string_of_list_ascii (ascii_of_N <$> payload)),
                   rest)
      | 4 => '(vs, rest) ← items (N.to_nat n) rest; Some (VArray vs, rest)
      | 5 => '(kvs, rest) ← pairs (N.to_nat n) rest; Some (VMap kvs, rest)
      | 6 => if n =? 64 then cbor_decode fuel' rest else None
      | _ => match n with
             | 20 => Some (VBool false, rest)
             | 21 => Some (VBool true, rest)
             | 22 => Some (VNull, rest)
             | 23 => Some (VUndefined, rest)
             | _ => None
             end
      end
  | _, _ => None
  end.

Definition cborg_encode (v : value) : outcome (list byte) :=
  match cbor_encode v with
  | Some bs => Return (byte_of_N <$> bs)
  | None => Throw (Foreign "cborg.encode")
  end.

Definition cborg_decode (b : list byte) : outcome value :=
  match cbor_decode (S (length b)) (Byte.to_N <$> b) with
  | Some (v, []) => Return v
  | _ => Throw (Foreign "cborg.decode")
  end.
End Cbor.

(** Exponent notation and fractions are not needed on concrete runs, and
    no string or object is compared with a number there. *)
Definition Number_toString_ext (n : number) : string := EmptyString.

Definition ToNumber_ext (h : heap) (v : value) : outcome number :=
  Return NNaN.

(** Stand-ins for [@instun/sm2-multikey] and [base58-universal]: a key is
    its multibase text, a signature is valid when it repeats the signed
    bytes in reverse. *)
Definition base58_encode (b : list byte) : string :=
  string_of_list_ascii
    ((λ x, sextet_to_ascii (Byte.to_N x mod 58)%N) <$> b).

Definition SM2Multikey_from (publicKeyMultibase : string)
  : outcome string :=
  if bool_decide (1 < String.length publicKeyMultibase)%nat
  then Return publicKeyMultibase
  else Throw (Foreign "SM2Multikey.from").

Definition verify (data signature : list byte) : bool :=
  bool_decide (Byte.to_N <$> signature = Byte.to_N <$> rev data).

Definition keyPair_verify (k : string) (data signature : list byte) : bool :=
  verify data signature.

Definition stringToUtf8Bytes (v : value) : list byte :=
  match v with
  | VString s => list_byte_of_string s
  | _ => []
  end.

(** Stand-ins for [di-sd-primitives] on a document of three statements, of
    which the first is mandatory and the third selected. *)
Definition createHmac (key : value) : outcome value := Return key.

Definition canonicalizeAndGroup (h : heap) (document : value) (hmac : value)
    (mandatory selective combined : value) : outcome Disclose.grouping :=
  Return
    (Disclose.Grouping
       (Disclose.Group [(0%nat, "_:b0 <p> <a> .")] ["_:b0 <p> <a> ."])
       (Disclose.Group [(2%nat, "_:b0 <r> <c> .")] ["_:b0 <r> <c> ."])
       (Disclose.Group [(0%nat, "_:b0 <p> <a> ."); (2%nat, "_:b0 <r> <c> .")]
                       ["_:b0 <p> <a> ."; "_:b0 <r> <c> ."])
       [("c14n0", "uAA")]).

Definition selectJsonLd (h : heap) (document pointers : value)
  : outcome (option object) :=
  Return (Some {[ "id" := VString "urn:example:123" ]}).

Definition canonicalize (nquads : string)
  : outcome (list (string * string)) :=
  Return [("c14n0", "c14n0")].

Definition stripBlankNodePrefixes (m : list (string * string))
  : list (string * string) := m.

Definition matchProof (h : heap) (p : loc) : bool := true.

(** Stand-ins for [di-sd-primitives] on pointers that match no statement of
    the document: one that reports it, one that returns empty groups. *)
Definition canonicalizeAndGroup_rejecting (h : heap) (document : value)
    (hmac : value) (mandatory selective combined : value)
  : outcome Disclose.grouping :=
  Throw (Foreign "canonicalizeAndGroup").

Definition canonicalizeAndGroup_empty (h : heap) (document : value)
    (hmac : value) (mandatory selective combined : value)
  : outcome Disclose.grouping :=
  Return
    (Disclose.Grouping (Disclose.Group [] []) (Disclose.Group [] [])
       (Disclose.Group [] []) []).

Definition canonicalize_empty (nquads : string)
  : outcome (list (string * string)) :=
  Return [].

End Reference.


(** ** Vocabulary of the statements

    Declarative counterparts of what the code computes, used to state the
    properties below. *)

Import Js ProofValue Verify Disclose.

(** *** Index walks of the discloser *)

(** The relative indexes recorded when the walk over [keys] starts at
    relative index [n]. *)
Fixpoint recorded (mandatory : list (nat * string)) (n : nat)
    (keys : list nat) : list nat :=
  match keys with
  | [] => []
  | a :: keys' =>
      (if Map_has a mandatory then [n] else [])
      ++ recorded mandatory (S n) keys'
  end.

(** The absolute indexes, in ascending order, of the statements of an
    [n]-statement document that are not mandatory: the statements the signer
    signed one by one. *)
Definition nonMandatoryIndexes (mandatory : list (nat * string)) (n : nat)
  : list nat :=
  filter (λ a, a ∉ Map_keys mandatory) (seq 0 n).

(** Those of them that the disclosed document keeps. *)
Definition disclosedNonMandatoryIndexes
    (mandatory selective : list (nat * string)) (n : nat) : list nat :=
  filter (λ a, (a ∉ Map_keys mandatory) ∧ (a ∈ Map_keys selective)) (seq 0 n).

(** *** Verification *)

Section VerifyVocabulary.
Context {keyPair : Type}.
Variable keyPair_verify : keyPair → list byte → list byte → bool.
Variable stringToUtf8Bytes : value → list byte.

(** The per-statement results, in index order. *)
Definition statement_results (k : keyPair) (nonMandatory : list string)
    (index : nat) (signatures : list (list byte)) : list bool :=
  imap (λ i signature,
          keyPair_verify k
            (stringToUtf8Bytes (nth_statement nonMandatory (index + i)%nat))
            signature) signatures.
End VerifyVocabulary.

(** The byte fields have the lengths [serializeBaseVerifyData] insists on. *)
Definition well_formed (data : verifyData) : Prop :=
  length (proofHash data) = 32%nat ∧ length (publicKey data) = 35%nat
  ∧ length (mandatoryHash data) = 32%nat.

(** *** Validation of derived proof parameters *)

Inductive derived_field :=
| FBaseSignature | FPublicKey | FSignatures | FLabelMap | FMandatoryIndexes.

Definition field_name (f : derived_field) : string :=
  match f with
  | FBaseSignature => "baseSignature"
  | FPublicKey => "publicKey"
  | FSignatures => "signatures"
  | FLabelMap => "labelMap"
  | FMandatoryIndexes => "mandatoryIndexes"
  end.

Definition bytes_of_length (n : nat) (v : value) : Prop :=
  ∃ b, v = VBytes b ∧ length b = n.

(** What each of the five checks of [_validateDerivedProofParams] accepts,
    stated on the shape of the value. *)
Definition field_valid (f : derived_field) (p : Derived.params) : Prop :=
  match f with
  | FBaseSignature => bytes_of_length 64 (Derived.baseSignature p)
  | FPublicKey => bytes_of_length 35 (Derived.publicKey p)
  | FSignatures =>
      ∃ l, Derived.signatures p = VArray l ∧ Forall (λ s, ∃ b, s = VBytes b) l
  | FLabelMap =>
      ∃ m, Derived.labelMap p = VMap m
           ∧ Forall (λ kv, ∃ k s, kv = (VString k, VString s)) m
  | FMandatoryIndexes =>
      ∃ l, Derived.mandatoryIndexes p = VArray l
           ∧ Forall (λ x, ∃ z, x = VNumber (NInt z)) l
  end.

(** *** Label maps on the wire *)

(** One entry of a label map as the canonicalizer writes it: [c14n<index>]
    mapped to the multibase text of [le_bytes]. *)
Record labelEntry := LabelEntry {
  le_index : N;
  le_bytes : list byte;
  le_text : string
}.

Definition label (n : N) : string := "c14n" +:+ decimal n.

Definition expanded_labelMap (es : list labelEntry) : value :=
  VMap ((λ e, (VString (label (le_index e)), VString ("u" +:+ le_text e)))
          <$> es).

Definition compressed_labelMap (es : list labelEntry) : value :=
  VMap ((λ e, (VNumber (NInt (Z.of_N (le_index e))), VBytes (le_bytes e)))
          <$> es).

Definition with_labelMap (p : Derived.params) (m : value) : Derived.params :=
  Derived.Params (Derived.baseSignature p) (Derived.publicKey p)
    (Derived.signatures p) m (Derived.mandatoryIndexes p).

Section CodecVocabulary.
Variable base64url_decode : value → outcome (list byte).
Variable base64url_encode : value → outcome string.
Variable cborg_decode : list byte → outcome value.
Variable cborg_encode : value → outcome (list byte).

(** The index is a safe integer and [le_text e] is the base64url text of
    [le_bytes e]. *)
Definition wire_entry (e : labelEntry) : Prop :=
  (le_index e < 2 ^ 53)%N
  ∧ base64url_encode (VBytes (le_bytes e)) = Return (le_text e)
  ∧ base64url_decode (VString (le_text e)) = Return (le_bytes e).

Definition wire_labelMap (es : list labelEntry) : Prop :=
  NoDup (le_index <$> es) ∧ Forall wire_entry es.

(** Decoding what [cborg.encode] made of [v] yields [v']. *)
Definition cborg_inverts (v v' : value) : Prop :=
  ∀ body, cborg_encode v = Return body → cborg_decode body = Return v'.

(** Decoding the base64url text of [prefix] followed by the encoding of [v]
    yields these bytes. *)
Definition base64url_inverts (prefix : list byte) (v : value) : Prop :=
  ∀ body enc,
    cborg_encode v = Return body →
    base64url_encode (VBytes (prefix ++ body)) = Return enc →
    base64url_decode (VString enc) = Return (prefix ++ body).
End CodecVocabulary.

(** *** Runs of the discloser *)

(** A computation only ever appends to the trace. *)
Definition appends_trace {A} (m : M A) : Prop :=
  ∀ s o s', m s = (o, s') → st_trace s `prefix_of` st_trace s'.

(** The [selectivePointers] option with its default. *)
Definition selectivePointers_of (h : heap) (options : value) : value :=
  match property_opt h options "selectivePointers" with
  | VUndefined => VArray []
  | v => v
  end.

(** [mandatoryPointers.concat(selectivePointers)] *)
Definition combinedPointers_of (h : heap) (options : value)
    (params : Base.params) : value :=
  Array_concat (Base.mandatoryPointers params) (selectivePointers_of h options).

Section DiscloserVocabulary.
Variable name : string.
Variable base64url_decode : value → outcome (list byte).
Variable cborg_decode : list byte → outcome value.
Context {hmac : Type}.
Variable createHmac : value → outcome hmac.
Variable canonicalizeAndGroup :
  heap → value → hmac → value → value → value → outcome grouping.

(** The guards of [_createDisclosureData] that precede the selection check
    let the request through. *)
Definition reaches_selection_check (h : heap)
    (cryptosuite proof options : value) (params : Base.params) : Prop :=
  property_opt h cryptosuite "name" = VString name
  ∧ property h cryptosuite "options" = Return options
  ∧ truthy options && typeof_object options = true
  ∧ parseBaseProofValue base64url_decode cborg_decode h proof = Return params.

(** What [_createDisclosureData] works from: the cryptosuite's [options],
    the parameters parsed from the base proof, and the groups that
    [canonicalizeAndGroup] returned for the document and the pointers. *)
Definition disclosure_inputs (h : heap)
    (cryptosuite document proof options : value) (params : Base.params)
    (g : grouping) : Prop :=
  reaches_selection_check h cryptosuite proof options params
  ∧ ∃ hm, createHmac (Base.hmacKey params) = Return hm
          ∧ canonicalizeAndGroup h document hm (Base.mandatoryPointers params)
              (selectivePointers_of h options)
              (combinedPointers_of h options params)
            = Return g.
End DiscloserVocabulary.

(** ** Sample inputs *)
Module Sample.
Import Reference.

Definition name : string := "sm2-sd-2023".

Definition text_of (o : outcome string) : string :=
  match o with Return s => s | Throw _ => EmptyString end.

Definition base_params : Base.params :=
  Base.Params (VBytes (replicate 64 x01)) (VBytes (replicate 35 x02))
    (VBytes (replicate 32 x03))
    (VArray [VBytes (replicate 64 x04); VBytes (replicate 64 x05)])
    (VArray [VString "/issuer"]).

Definition base_proofValue : string := Eval vm_compute in
    text_of (serializeBaseProofValue base64url_encode cborg_encode base_params).

(** A base proof without mandatory pointers. *)
Definition open_params : Base.params :=
  Base.Params (VBytes (replicate 64 x01)) (VBytes (replicate 35 x02))
    (VBytes (replicate 32 x03)) (VArray [VBytes (replicate 64 x04)])
    (VArray []).

Definition open_proofValue : string := Eval vm_compute in
    text_of (serializeBaseProofValue base64url_encode cborg_encode open_params).

Definition labels : list labelEntry :=
  [LabelEntry 0 [x00] "AA"; LabelEntry 12 [xff; x01] "_wE"].

Definition derived_params : Derived.params :=
  Derived.Params (VBytes (replicate 64 x01)) (VBytes (replicate 35 x02))
    (VArray [VBytes (replicate 64 x04)]) (expanded_labelMap labels)
    (VArray [VNumber (NInt 0)]).

Definition derived_proofValue : string := Eval vm_compute in
    text_of (serializeDisclosureProofValue base64url_decode base64url_encode
               cborg_encode Number_toString_ext derived_params).

Definition baseProof : loc := 1%positive.
Definition cryptosuite : loc := 2%positive.
Definition document : loc := 4%positive.
Definition purpose : loc := 5%positive.
Definition derivedProof : loc := 6%positive.
Definition openProof : loc := 7%positive.
Definition bareCryptosuite : loc := 8%positive.

Definition store : heap :=
  list_to_map
    [(baseProof,
      list_to_map [("id", VString "urn:proof:1");
                   ("@context",
                    VString "https://w3id.org/security/data-integrity/v2");
                   ("proofPurpose", VString "assertionMethod");
                   ("proofValue", VString base_proofValue)]);
     (cryptosuite,
      list_to_map [("name", VString name); ("options", VRef 3%positive)]);
     (3%positive,
      list_to_map [("selectivePointers",
                    VArray [VString "/credentialSubject/id"])]);
     (document, list_to_map [("id", VString "urn:example:123")]);
     (purpose, list_to_map [("term", VString "assertionMethod")]);
     (derivedProof, list_to_map [("proofValue", VString derived_proofValue)]);
     (openProof, list_to_map [("proofValue", VString open_proofValue)]);
     (bareCryptosuite,
      list_to_map [("name", VString name); ("options", VRef 9%positive)]);
     (9%positive, ∅)].

Definition start : state := State store [].

(** A cryptosuite whose [selectivePointers] option is a plain object with a
    [length] of its own, [{length: 1}]. *)
Definition lengthCryptosuite : loc := 10%positive.

Definition length_store : heap :=
  <[lengthCryptosuite :=
      list_to_map [("name", VString name); ("options", VRef 11%positive)]]>
    (<[11%positive :=
         list_to_map [("selectivePointers", VRef 12%positive)]]>
       (<[12%positive := list_to_map [("length", VNumber (NInt 1))]]>
          store)).

Definition statements : list string := ["_:b0 <q> <b> ."; "_:b0 <r> <c> ."].

Definition sign (nq : string) : list byte := rev (list_byte_of_string nq).

Definition verify_data_with (signatures : list (list byte))
  : Verify.verifyData :=
  Verify.VerifyData
    (rev (replicate 32 x0a ++ replicate 35 x02 ++ replicate 32 x0b))
    (replicate 32 x0a) (replicate 35 x02) signatures statements
    (replicate 32 x0b).
(** A [Map] keyed by the given statement indexes. *)
Definition idx (l : list nat) : list (nat * string) :=
  (λ a, (a, EmptyString)) <$> l.
End Sample.

(** * The signer, the verifier's data and the confirmer *)

(** ** lib/verify.js: [_createVerifyData] *)

Module VerifyData.
Import Js ProofValue Verify Disclose.

(** SameValueZero, the comparison of [Array.prototype.includes]. *)
Definition same_value_zero (a b : value) : bool :=
  match a, b with
  | VNumber NNaN, VNumber NNaN => true
  | _, _ => strict_eq a b
  end.

(** [a.includes(v)] *)
Definition Array_includes (a : list value) (v : value) : bool :=
  existsb (same_value_zero v) a.

(** One turn of the [for (const [index, nq] of nquads.entries())] loop, on
    the pair [(mandatory, nonMandatory)]. *)
Definition partition_step (mandatoryIndexes : list value)
    (st : list string * list string) (entry : nat * string)
  : list string * list string :=
  let '(mandatory, nonMandatory) := st in
  if Array_includes mandatoryIndexes (index_value entry.1)
  then (mandatory ++ [entry.2], nonMandatory)
  else (mandatory, nonMandatory ++ [entry.2]).

Definition partition_statements (mandatoryIndexes : list value)
    (nquads : list string) : list string * list string :=
  foldl (partition_step mandatoryIndexes) ([], []) (imap pair nquads).

Section VerifyData.
(** [name] of [./name.js]. *)
Variable name : string.
Variable base64url_decode : value → outcome (list byte).
Variable base64url_encode : value → outcome string.
Variable cborg_decode : list byte → outcome value.
Variable Number_toString_ext : number → string.
(** di-sd-primitives.  [hashCanonizedProof] is started first and its
    outcome, value or error, is looked at last; what it rejects with is
    taken to be an instance of [Error], as every [error] is. *)
Variable labelMapFunction : Type.
Variable hashCanonizedProof : heap → value → value → outcome (list byte).
Variable createLabelMapFunction : value → outcome labelMapFunction.
Variable labelReplacementCanonicalizeJsonLd :
  heap → value → labelMapFunction → outcome (list string).
Variable hashMandatory : list string → outcome (list byte).

(** [_createVerifyData] of the verify cryptosuite. *)
Definition _createVerifyData (h : heap) (cryptosuite document proof : value)
  : outcome verifyData :=
  if negb (strict_eq (property_opt h cryptosuite "name") (VString name))
  then Throw (must_be "cryptosuite.name" (quoted name))
  else
    let proofHashPromise := hashCanonizedProof h document proof in
    params ← parseDisclosureProofValue base64url_decode base64url_encode
               cborg_decode Number_toString_ext h proof;
    labelMapFactoryFunction ← createLabelMapFunction (Derived.labelMap params);
    nquads ← labelReplacementCanonicalizeJsonLd h document
               labelMapFactoryFunction;
    let '(mandatory, nonMandatory) :=
      partition_statements
        (array_elements (Derived.mandatoryIndexes params)) nquads in
    mandatoryHash ← hashMandatory mandatory;
    proofHash ← proofHashPromise;
    mret (VerifyData (bytes_of (Derived.baseSignature params)) proofHash
            (bytes_of (Derived.publicKey params))
            (bytes_of <$> array_elements (Derived.signatures params))
            nonMandatory mandatoryHash).
End VerifyData.

End VerifyData.

(** ** lib/sign.js *)

Module Sign.
Import Js ProofValue Verify Disclose.

(** The mandatory group of [canonicalizeAndGroup], with the statements it
    matches and those it does not. *)
Record mandatoryGrouping := MandatoryGrouping {
  sg_matching : list (nat * string);
  sg_nonMatching : list (nat * string)
}.

(** What [_createSignData] returns and [_createBaseProofValue] consumes. *)
Record signData := SignData {
  sd_proofHash : list byte;
  sd_mandatoryPointers : value;
  sd_mandatoryHash : list byte;
  sd_nonMandatory : list string;
  sd_hmacKey : list byte
}.

Definition is_array (v : value) : bool :=
  match v with VArray _ => true | _ => false end.

Section Signer.
Variable name : string.
Variable base64url_encode : value → outcome string.
Variable cborg_encode : value → outcome (list byte).
Variable hmac : Type.
Variable hashCanonizedProof : heap → value → value → outcome (list byte).
Variable createHmac : value → outcome hmac.
Variable hmac_export : hmac → outcome (list byte).
Variable canonicalizeAndGroup :
  heap → value → hmac → value → outcome mandatoryGrouping.
Variable hashMandatory : list string → outcome (list byte).
(** The pair [SM2Multikey.generate()] yields, its [signer().sign] and its
    [publicKeyMultibase].  Signing is taken not to fail. *)
Variable keyPair : Type.
Variable SM2Multikey_generate : outcome keyPair.
Variable keyPair_sign : keyPair → list byte → list byte.
Variable publicKeyMultibase : keyPair → string.
Variable base58_decode : string → outcome (list byte).
Variable stringToUtf8Bytes : value → list byte.
(** [dataIntegrityProof.signer.sign] *)
Variable signer_sign : list byte → list byte.

(** [_createSignData] *)
Definition _createSignData (h : heap) (cryptosuite document proof : value)
  : outcome signData :=
  if negb (strict_eq (property_opt h cryptosuite "name") (VString name))
  then Throw (must_be "cryptosuite.name" (quoted name))
  else
    options ← property h cryptosuite "options";
    if negb (truthy options && typeof_object options)
    then Throw (must_be "cryptosuite.options" "an object")
    else
      let mandatoryPointers :=
        match property_opt h options "mandatoryPointers" with
        | VUndefined => VArray []
        | v => v
        end in
      if negb (is_array mandatoryPointers)
      then Throw (must_be "cryptosuite.options.mandatoryPointers" "an array")
      else
        let proofHashPromise := hashCanonizedProof h document proof in
        hm ← createHmac VNull;
        g ← canonicalizeAndGroup h document hm mandatoryPointers;
        let mandatory := (sg_matching g).*2 in
        let nonMandatory := (sg_nonMatching g).*2 in
        mandatoryHash ← hashMandatory mandatory;
        hmacKey ← hmac_export hm;
        proofHash ← proofHashPromise;
        mret (SignData proofHash mandatoryPointers mandatoryHash nonMandatory
                hmacKey).

(** [nonMandatory.map(nq => sign({data: stringToUtf8Bytes(nq)}))] *)
Definition sign_statements (k : keyPair) (nonMandatory : list string)
  : list (list byte) :=
  (λ nq, keyPair_sign k (stringToUtf8Bytes (VString nq))) <$> nonMandatory.

(** [_createBaseProofValue] *)
Definition _createBaseProofValue (verifyData : signData) : outcome string :=
  localKeyPair ← SM2Multikey_generate;
  let signatures := sign_statements localKeyPair (sd_nonMandatory verifyData) in
  publicKey ← base58_decode (string_drop 1 (publicKeyMultibase localKeyPair));
  toSign ← serializeBaseVerifyData
             (VerifyDataParams (VBytes (sd_proofHash verifyData))
                (VBytes publicKey) (VBytes (sd_mandatoryHash verifyData)));
  let baseSignature := signer_sign toSign in
  serializeBaseProofValue base64url_encode cborg_encode
    (Base.Params (VBytes baseSignature) (VBytes publicKey)
       (VBytes (sd_hmacKey verifyData)) (VArray (VBytes <$> signatures))
       (sd_mandatoryPointers verifyData)).
End Signer.

End Sign.

(** ** lib/confirm.js *)

Module Confirm.
Import Js ProofValue Verify Disclose.

(** [v.length === 0] on a validated array. *)
Definition is_empty_array (v : value) : bool :=
  match v with VArray [] => true | _ => false end.

(** [nquads.filter(nquad => !mandatory.includes(nquad))] *)
Definition exclude_mandatory (mandatory nquads : list string) : list string :=
  List.filter (λ nquad, negb (existsb (String.eqb nquad) mandatory)) nquads.

Section Confirm.
Variable name : string.
Variable base64url_decode : value → outcome (list byte).
Variable cborg_decode : list byte → outcome value.
Variable hmac : Type.
Variable labelMapFunction : Type.
Variable hashCanonizedProof : heap → value → value → outcome (list byte).
Variable createHmac : value → outcome hmac.
Variable createHmacIdLabelMapFunction : hmac → labelMapFunction.
Variable labelReplacementCanonicalizeJsonLd :
  heap → value → labelMapFunction → outcome (list string).
Variable selectJsonLd : heap → value → value → outcome (option object).
Variable hashMandatory : list string → outcome (list byte).

(** The statements of the document [selectJsonLd] built, which is a new
    object, or [null]. *)
Definition canonicalize_selection (h : heap) (selection : option object)
    (f : labelMapFunction) : outcome (list string) :=
  match selection with
  | Some o =>
      let l := fresh (dom h) in
      labelReplacementCanonicalizeJsonLd (<[l := o]> h) (VRef l) f
  | None => labelReplacementCanonicalizeJsonLd h VNull f
  end.

(** [_createVerifyData] of the confirm cryptosuite. *)
Definition _createVerifyData (h : heap) (cryptosuite document proof : value)
  : outcome verifyData :=
  if negb (strict_eq (property_opt h cryptosuite "name") (VString name))
  then Throw (must_be "cryptosuite.name" (quoted name))
  else
    let proofHashPromise := hashCanonizedProof h document proof in
    params ← parseBaseProofValue base64url_decode cborg_decode h proof;
    hm ← createHmac (Base.hmacKey params);
    let labelMapFactoryFunction := createHmacIdLabelMapFunction hm in
    nquads ← labelReplacementCanonicalizeJsonLd h document
               labelMapFactoryFunction;
    mandatory ← (if is_empty_array (Base.mandatoryPointers params)
                 then mret []
                 else
                   filteredDocument ←
                     selectJsonLd h document (Base.mandatoryPointers params);
                   canonicalize_selection h filteredDocument
                     labelMapFactoryFunction);
    let nonMandatory := exclude_mandatory mandatory nquads in
    mandatoryHash ← hashMandatory mandatory;
    proofHash ← proofHashPromise;
    mret (VerifyData (bytes_of (Base.baseSignature params)) proofHash
            (bytes_of (Base.publicKey params))
            (bytes_of <$> array_elements (Base.signatures params))
            nonMandatory mandatoryHash).
End Confirm.

End Confirm.

(** *** More vocabulary *)

(** The five checks of [_validateBaseProofParams], in the order in which
    they are made. *)
Inductive base_field :=
| BBaseSignature | BPublicKey | BHmacKey | BSignatures | BMandatoryPointers.

Definition base_fields : list base_field :=
  [BBaseSignature; BPublicKey; BHmacKey; BSignatures; BMandatoryPointers].

Definition base_field_name (f : base_field) : string :=
  match f with
  | BBaseSignature => "baseSignature"
  | BPublicKey => "publicKey"
  | BHmacKey => "hmacKey"
  | BSignatures => "signatures"
  | BMandatoryPointers => "mandatoryPointers"
  end.

Definition base_field_valid (p : Base.params) (f : base_field) : Prop :=
  match f with
  | BBaseSignature => bytes_of_length 64 (Base.baseSignature p)
  | BPublicKey => bytes_of_length 35 (Base.publicKey p)
  | BHmacKey => bytes_of_length 32 (Base.hmacKey p)
  | BSignatures =>
      ∃ l, Base.signatures p = VArray l ∧ Forall (bytes_of_length 64) l
  | BMandatoryPointers =>
      ∃ l, Base.mandatoryPointers p = VArray l
           ∧ Forall (λ x, ∃ s, x = VString s) l
  end.

(** The check the validator makes for a field. *)
Definition base_field_check (p : Base.params) (f : base_field) : bool :=
  match f with
  | BBaseSignature => is_Uint8Array_of_length 64 (Base.baseSignature p)
  | BPublicKey => is_Uint8Array_of_length 35 (Base.publicKey p)
  | BHmacKey => is_Uint8Array_of_length 32 (Base.hmacKey p)
  | BSignatures =>
      is_array_every (is_Uint8Array_of_length 64) (Base.signatures p)
  | BMandatoryPointers => is_array_every is_string (Base.mandatoryPointers p)
  end.

(** [f] is the first field of [p], in the validator's order, that fails. *)
Definition first_offending (p : Base.params) (f : base_field) : Prop :=
  ∃ before after,
    base_fields = before ++ f :: after
    ∧ Forall (base_field_valid p) before ∧ ¬ base_field_valid p f.

Section LabelMapVocabulary.
Variable base64url_decode : value → outcome (list byte).
Variable base64url_encode : value → outcome string.
Variable Number_toString_ext : number → string.

(** What one turn of the loop of [_compressLabelMap] writes for the entry
    [kv] of the label map. *)
Definition compressed_entry (kv : value * value)
  : outcome (number * list byte) :=
  k4 ← slice kv.1 4;
  v1 ← slice kv.2 1;
  bytes ← base64url_decode v1;
  mret (parseInt10 (ToString Number_toString_ext k4), bytes).

(** What one turn of the loop of [_decompressLabelMap] writes. *)
Definition decompressed_entry (kv : value * value)
  : outcome (string * string) :=
  enc ← base64url_encode kv.2;
  mret ("c14n" +:+ ToString Number_toString_ext kv.1, "u" +:+ enc).
End LabelMapVocabulary.

(** The entry for key [k] that was written last. *)
Definition written_last {K V} (k : K) (v : V) (l : list (K * V)) : Prop :=
  ∃ l1 l2, l = l1 ++ (k, v) :: l2 ∧ k ∉ l2.*1.

(** The three errors of [_validateBaseVerifyDataParams], in the order of its
    checks. *)
Definition verifyData_errors : list error :=
  [must_be "proofHash" "a Uint8Array of length 32";
   must_be "publicKey" "a Uint8Array of length 35";
   must_be "mandatoryHash" "a Uint8Array of length 32"].

(** The trace of a run of [_multiverify] that gets past the count check on
    [n] signatures: the key import, then one check per signature in index
    order. *)
Definition statement_checks (n : nat) : list event :=
  EvImportKey :: (EvVerifyStatement <$> seq 0 n).

(** *** Errors and runs of [_findProof] and [_derive] *)

Definition no_matching_proof : error :=
  Error
    "No matching base proof found from which to derive a disclosure proof.".

Definition multiple_matching_proofs : error :=
  Error ("Multiple matching proofs; a " +:+ quoted "proofId" +:+
         " must be specified.").

Definition purpose_mismatch : error :=
  Error "Base proof purpose does not match purpose for derived proof.".

(** Every object of [h] is in [h'] with the fields it had. *)
Definition objects_kept (h h' : heap) : Prop :=
  ∀ l o, h !! l = Some o → h' !! l = Some o.

(** The collaborator calls of a run of [_createDisclosureData] that gets
    past its guards and completes. *)
Definition disclosure_calls : list event :=
  [EvCreateHmac; EvCanonicalizeAndGroup; EvSelectJsonLd; EvCanonicalize].

(** The proofs that [_findProof] hands to [matchProof] when none or one of
    them matches: none when a [proofId] is given. *)
Definition proofs_examined (proofId : value) (proofSet : list loc)
  : list loc :=
  if truthy proofId then [] else proofSet.

(** *** Statements by index *)

(** The statements of [nquads], numbered from [n], whose number [keep]
    accepts. *)
Fixpoint statements_where (keep : nat → bool) (n : nat)
    (nquads : list string) : list string :=
  match nquads with
  | [] => []
  | nq :: rest =>
      (if keep n then [nq] else []) ++ statements_where keep (S n) rest
  end.

(** Every statement paired with its index. *)
Definition indexed (nquads : list string) : list (nat * string) :=
  zip (seq 0 (length nquads)) nquads.

(** The [mandatoryIndexes] of a derived proof that has passed validation. *)
Definition integers (zs : list Z) : list value := (λ z, VNumber (NInt z)) <$> zs.

(** The absolute indexes, in ascending order, of the statements of an
    [n]-statement document that the combined pointers select: those of the
    mandatory and of the selective group. *)
Definition disclosedIndexes (mandatory selective : list (nat * string))
    (n : nat) : list nat :=
  filter (λ a, a ∈ Map_keys mandatory ∨ a ∈ Map_keys selective) (seq 0 n).

(** *** Signer and confirmer *)

(** The [mandatoryPointers] option of the signer with its default. *)
Definition mandatoryPointers_of (h : heap) (options : value) : value :=
  match property_opt h options "mandatoryPointers" with
  | VUndefined => VArray []
  | v => v
  end.

(** The verify data the confirmer assembles from parsed base-proof
    parameters and what it has computed from the document. *)
Definition verifyData_of (params : Base.params) (proofHash : list byte)
    (nonMandatory : list string) (mandatoryHash : list byte) : verifyData :=
  VerifyData (bytes_of (Base.baseSignature params)) proofHash
    (bytes_of (Base.publicKey params))
    (bytes_of <$> array_elements (Base.signatures params))
    nonMandatory mandatoryHash.

Section SignerVocabulary.
Context {keyPair : Type}.
Variable keyPair_sign : keyPair → list byte → list byte.
Variable stringToUtf8Bytes : value → list byte.
Variable signer_sign : list byte → list byte.

(** The parameters [_createBaseProofValue] serializes, for the local key
    pair [k] with public key [publicKey]. *)
Definition signed_params (data : Sign.signData) (k : keyPair)
    (publicKey : list byte) : Base.params :=
  Base.Params
    (VBytes (signer_sign (Sign.sd_proofHash data ++ publicKey
                          ++ Sign.sd_mandatoryHash data)))
    (VBytes publicKey) (VBytes (Sign.sd_hmacKey data))
    (VArray (VBytes <$> Sign.sign_statements keyPair keyPair_sign
                          stringToUtf8Bytes k (Sign.sd_nonMandatory data)))
    (Sign.sd_mandatoryPointers data).
End SignerVocabulary.

(** The parameters [_derive] hands to [serializeDisclosureProofValue]. *)
Definition disclosed_params (data : disclosureData) : Derived.params :=
  Derived.Params (dd_baseSignature data) (dd_publicKey data)
    (VArray (dd_signatures data)) (labelMap_value (dd_labelMap data))
    (VArray (index_value <$> dd_mandatoryIndexes data)).

(** ** Reference collaborators of the signer, the verifier and the
       confirmer

    A document carries its canonical statements in its field [nquads]; a
    label map function is the label map it was made from; an HMAC is its
    key. *)

Module ReferenceSuite.
Import Js.

Definition hashCanonizedProof (h : heap) (document proof : value)
  : outcome (list byte) :=
  Return (replicate 32 x0a).

Definition createLabelMapFunction (labelMap : value) : outcome value :=
  Return labelMap.

Definition createHmacIdLabelMapFunction (hmac : value) : value := hmac.

Definition statements_of (v : value) : list string :=
  match v with
  | VArray l => (λ x, match x with VString s => s | _ => EmptyString end) <$> l
  | _ => []
  end.

Definition labelReplacementCanonicalizeJsonLd (h : heap) (document : value)
    (labelMapFunction : value) : outcome (list string) :=
  match property_opt h document "nquads" with
  | VArray l => Return (statements_of (VArray l))
  | _ => Throw (Foreign "labelReplacementCanonicalizeJsonLd")
  end.

Definition hashMandatory (mandatory : list string) : outcome (list byte) :=
  Return (replicate 32 x0b).

Definition hmac_export (hmac : value) : outcome (list byte) :=
  Return (replicate 32 x03).

(** The first statement of the document is mandatory. *)
Definition canonicalizeAndGroup (h : heap) (document : value) (hmac : value)
    (mandatoryPointers : value) : outcome Sign.mandatoryGrouping :=
  match property_opt h document "nquads" with
  | VArray (first :: rest) =>
      Return (Sign.MandatoryGrouping
                (imap pair (statements_of (VArray [first])))
                (imap (λ i, pair (S i)) (statements_of (VArray rest))))
  | _ => Throw (Foreign "canonicalizeAndGroup")
  end.

(** The selection holds the first statement of the document. *)
Definition selectJsonLd (h : heap) (document pointers : value)
  : outcome (option object) :=
  match property_opt h document "nquads" with
  | VArray (first :: rest) => Return (Some {[ "nquads" := VArray [first] ]})
  | _ => Return None
  end.

(** A key pair is its multibase public key; a signature is the data
    reversed, cut or padded to 64 bytes. *)
Definition SM2Multikey_generate : outcome string :=
  Return "z22222222222222222222222222222222222".

Definition signature_of (data : list byte) : list byte :=
  take 64 (rev data ++ replicate 64 x00).

Definition keyPair_sign (k : string) (data : list byte) : list byte :=
  signature_of data.

Definition verify (data signature : list byte) : bool :=
  bool_decide (Byte.to_N <$> signature = Byte.to_N <$> signature_of data).

Definition keyPair_verify (k : string) (data signature : list byte) : bool :=
  verify data signature.

Definition publicKeyMultibase (k : string) : string := k.

Definition base58_decode (s : string) : outcome (list byte) :=
  Return (list_byte_of_string s).

Definition signer_sign (data : list byte) : list byte := signature_of data.

End ReferenceSuite.

(** ** Sample inputs of the signer, the verifier and the confirmer *)

Module SampleSuite.
Import Reference ReferenceSuite Sample.

Definition signedDocument : loc := 11%positive.
Definition revealedDocument : loc := 12%positive.
Definition signCryptosuite : loc := 13%positive.
Definition signedProof : loc := 15%positive.
Definition foreignCryptosuite : loc := 16%positive.
Definition looseCryptosuite : loc := 17%positive.
Definition oddCryptosuite : loc := 19%positive.

Definition nquads : list string :=
  ["_:b0 <p> <a> ."; "_:b0 <q> <b> ."; "_:b0 <r> <c> ."].

Definition sign_data : Sign.signData :=
  Sign.SignData (replicate 32 x0a) (VArray [VString "/issuer"])
    (replicate 32 x0b) ["_:b0 <q> <b> ."; "_:b0 <r> <c> ."]
    (replicate 32 x03).

Definition createBaseProofValue :=
  Sign._createBaseProofValue base64url_encode cborg_encode string
    SM2Multikey_generate keyPair_sign publicKeyMultibase base58_decode
    stringToUtf8Bytes signer_sign.

Definition signed_proofValue : string := Eval vm_compute in
    text_of (createBaseProofValue sign_data).

Definition publicKey : list byte :=
  list_byte_of_string "22222222222222222222222222222222222".

(** The parameters the sample discloser makes of the sample base proof,
    and the proof that carries them. *)
Definition disclosed_sample : Derived.params :=
  Derived.Params (VBytes (replicate 64 x01)) (VBytes (replicate 35 x02))
    (VArray [VBytes (replicate 64 x05)])
    (VMap [(VString "c14n0", VString "uAA")])
    (VArray [VNumber (NInt 0)]).

Definition disclosed_proofValue : string := Eval vm_compute in
    text_of (serializeDisclosureProofValue base64url_decode base64url_encode
               cborg_encode Number_toString_ext disclosed_sample).

Definition disclosedProof : loc := 21%positive.

Definition suite : heap :=
  list_to_map
    [(signedDocument,
      list_to_map [("nquads", VArray (VString <$> nquads))]);
     (revealedDocument,
      list_to_map [("nquads", VArray [VString "_:b0 <p> <a> .";
                                      VString "_:b0 <r> <c> ."])]);
     (signCryptosuite,
      list_to_map [("name", VString name); ("options", VRef 14%positive)]);
     (14%positive,
      list_to_map [("mandatoryPointers", VArray [VString "/issuer"])]);
     (signedProof, list_to_map [("proofValue", VString signed_proofValue)]);
     (derivedProof, list_to_map [("proofValue", VString derived_proofValue)]);
     (foreignCryptosuite, list_to_map [("name", VString "ecdsa-sd-2023")]);
     (looseCryptosuite,
      list_to_map [("name", VString name); ("options", VRef 18%positive)]);
     (18%positive, list_to_map [("mandatoryPointers", VString "/issuer")]);
     (oddCryptosuite,
      list_to_map [("name", VString name); ("options", VRef 20%positive)]);
     (20%positive,
      list_to_map [("mandatoryPointers", VArray [VNumber (NInt 7)])])].

Definition received : heap :=
  <[disclosedProof :=
      list_to_map [("proofValue", VString disclosed_proofValue)]]> suite.

End SampleSuite.


(** * Properties *)

Close Scope Z_scope.
Open Scope nat_scope.
Open Scope list_scope.

#[local] Arguments Number_toString : simpl never.
#[local] Arguments parseInt10 : simpl never.

Ltac run_M :=
  repeat (simpl; unfold mbind, M_bind, mret, M_ret, lift, emit, throw,
                 get_heap, put_heap; simpl).

Ltac run_outcome :=
  repeat (simpl; unfold mbind, outcome_bind, mret, outcome_ret, try_catch,
                 throw_unless; simpl).

Ltac step_outcome :=
  repeat (unfold mbind, outcome_bind, mret, outcome_ret, try_catch,
                 throw_unless; cbn beta iota zeta).

(** ** Lists and [Map]s *)

Section MapFacts.
Context {K V : Type} `{EqDecision K}.

Lemma Map_get_is_Some (k : K) (m : list (K * V)) :
  is_Some (Map_get k m) ↔ k ∈ Map_keys m.
Proof.
  unfold Map_keys. induction m as [|[k' v'] m IH]; simpl.
  - split; [intros [? ?]; discriminate | intros H0; inversion H0].
  - destruct (decide (k' = k)) as [->|Hne].
    + split; [intros _; left | intros _; eauto].
    + rewrite IH. split; [intros; by right |].
      intros Hin. apply elem_of_cons in Hin as [->|Hin]; [done | exact Hin].
Qed.

Lemma Map_has_true (k : K) (m : list (K * V)) :
  Map_has k m = true ↔ k ∈ Map_keys m.
Proof.
  unfold Map_has. rewrite bool_decide_eq_true. apply Map_get_is_Some.
Qed.

Lemma Map_has_false (k : K) (m : list (K * V)) :
  Map_has k m = false ↔ k ∉ Map_keys m.
Proof.
  unfold Map_has. rewrite bool_decide_eq_false. by rewrite Map_get_is_Some.
Qed.
End MapFacts.


Lemma forallb_fmap {A B} (f : B → bool) (g : A → B) (l : list A) :
  forallb f (g <$> l) = forallb (λ x, f (g x)) l.
Proof. induction l as [|a l IH]; [done|]. cbn. f_equal. exact IH. Qed.

Lemma forallb_fmap_id {A} (f : A → bool) (l : list A) :
  forallb id (f <$> l) = forallb f l.
Proof.
  induction l as [|a l IH]; [done|]. cbn. unfold id at 1. f_equal. exact IH.
Qed.

Lemma existsb_negb_forallb (l : list bool) :
  existsb negb l = negb (forallb id l).
Proof. induction l as [|[] l IH]; simpl; [done | exact IH | done]. Qed.

Lemma Map_set_fresh {K V} `{EqDecision K} (k : K) (v : V) (m : list (K * V)) :
  k ∉ m.*1 → Map_set k v m = m ++ [(k, v)].
Proof.
  induction m as [|[k' v'] m IH]; simpl; [done|].
  intros Hk. apply not_elem_of_cons in Hk as [Hne Hk].
  destruct (decide (k' = k)); [congruence|]. by rewrite IH.
Qed.

Lemma filter_zip_fst {A B} (P : A → Prop) (Q : A * B → Prop)
    `{∀ a, Decision (P a)} `{∀ p, Decision (Q p)}
    (l : list A) (l' : list B) :
  (∀ p, Q p ↔ P p.1) →
  length l ≤ length l' →
  (filter Q (zip l l')).*1 = filter P l.
Proof.
  intros HQ. revert l'.
  induction l as [|a l IH]; intros [|b l'] Hlen; simpl in *;
    try done; try lia.
  destruct (decide (P a)) as [Ha|Ha].
  - rewrite (filter_cons_True Q) by (by apply HQ).
    rewrite (filter_cons_True P) by done.
    simpl. f_equal. apply IH. lia.
  - rewrite (filter_cons_False Q) by (by rewrite HQ).
    rewrite (filter_cons_False P) by done. apply IH. lia.
Qed.

(** ** The discloser's index walks *)


Section IndexWalks.
Implicit Types mandatory selective combined : list (nat * string).

Lemma mandatoryIndexes_fold mandatory keys n acc :
  foldl (mandatoryIndexes_step mandatory) (n, acc) keys
  = (n + length keys, acc ++ recorded mandatory n keys).
Proof.
  revert n acc. induction keys as [|a keys IH]; intros n acc; simpl.
  - by rewrite Nat.add_0_r, app_nil_r.
  - rewrite IH. f_equal; [lia |].
    destruct (Map_has a mandatory); simpl; [by rewrite <- app_assoc | done].
Qed.

Lemma recorded_elem mandatory keys n r :
  r ∈ recorded mandatory n keys ↔
  ∃ a, n ≤ r ∧ keys !! (r - n) = Some a ∧ a ∈ Map_keys mandatory.
Proof.
  revert n. induction keys as [|a keys IH]; intros n; simpl.
  - split; [intros H; inversion H | intros (a & _ & H & _); discriminate].
  - rewrite elem_of_app, IH. split.
    + intros [Hr | (b & Hle & Hb & Hin)].
      * destruct (Map_has a mandatory) eqn:E; [|inversion Hr].
        apply list_elem_of_singleton in Hr as ->.
        exists a. rewrite Nat.sub_diag. split; [lia|].
        split; [done | by apply Map_has_true].
      * exists b. split; [lia|]. split; [|done].
        replace (r - n) with (S (r - S n)) by lia. exact Hb.
    + intros (b & Hle & Hb & Hin).
      destruct (decide (r = n)) as [->|Hne].
      * left. rewrite Nat.sub_diag in Hb. simpl in Hb. injection Hb as ->.
        apply Map_has_true in Hin. rewrite Hin. by left.
      * right. exists b. split; [lia|]. split; [|done].
        replace (r - n) with (S (r - S n)) in Hb by lia. exact Hb.
Qed.

Lemma recorded_sorted mandatory keys n :
  StronglySorted lt (recorded mandatory n keys)
  ∧ Forall (λ r, n ≤ r < n + length keys) (recorded mandatory n keys).
Proof.
  revert n. induction keys as [|a keys IH]; intros n; simpl.
  - split; constructor.
  - destruct (IH (S n)) as [Hs Hb].
    assert (Hb' : Forall (λ r, n < r < n + S (length keys))
                    (recorded mandatory (S n) keys)).
    { eapply Forall_impl; [exact Hb | simpl; intros; lia]. }
    destruct (Map_has a mandatory); simpl.
    + split.
      * constructor; [done |]. eapply Forall_impl; [exact Hb'|]. simpl; lia.
      * constructor; [lia |]. eapply Forall_impl; [exact Hb'|]. simpl; lia.
    + split; [done |]. eapply Forall_impl; [exact Hb'|]. simpl; lia.
Qed.

(** The walk over the keys of the combined group records the positions of
    the keys that the mandatory group has. *)
Lemma mandatoryIndexes_walk combined mandatory :
  let result := compute_mandatoryIndexes combined mandatory in
  (∀ r, r ∈ result ↔
        ∃ a, Map_keys combined !! r = Some a ∧ a ∈ Map_keys mandatory)
  ∧ StronglySorted lt result
  ∧ Forall (λ r, r < length combined) result.
Proof.
  unfold compute_mandatoryIndexes. rewrite mandatoryIndexes_fold. simpl.
  split; [|split].
  - intros r. rewrite recorded_elem, Nat.sub_0_r.
    split; [intros (a & _ & ? & ?) | intros (a & ? & ?)]; exists a;
      (split; [done || lia | done]).
  - apply recorded_sorted.
  - destruct (recorded_sorted mandatory (Map_keys combined) 0) as [_ Hb].
    eapply Forall_impl; [exact Hb |]. simpl. intros r.
    unfold Map_keys. rewrite length_fmap. lia.
Qed.
End IndexWalks.


Section SignatureFilter.
Implicit Types mandatory selective : list (nat * string).

Lemma keys_above_shrink (keys : list nat) (i : nat) :
  i ∈ keys →
  length (filter (λ a, S i ≤ a) keys) < length (filter (λ a, i ≤ a) keys).
Proof.
  intros Hin.
  assert (Heq : filter (λ a, S i ≤ a) keys
                = filter (λ a, S i ≤ a) (filter (λ a, i ≤ a) keys)).
  { rewrite list_filter_filter. apply list_filter_iff. intros a. lia. }
  rewrite Heq. apply length_filter_lt with (x := i); [|lia].
  apply list_elem_of_filter. split; [lia | done].
Qed.

Lemma skip_mandatory_spec mandatory fuel i :
  length (filter (λ a, i ≤ a) (Map_keys mandatory)) ≤ fuel →
  let j := skip_mandatory fuel mandatory i in
  i ≤ j ∧ (j ∉ Map_keys mandatory)
  ∧ ∀ a, i ≤ a < j → a ∈ Map_keys mandatory.
Proof.
  revert i. induction fuel as [|fuel IH]; intros i Hfuel; simpl.
  - split; [lia|]. split; [|intros; lia].
    intros Hin. assert (Hf : i ∈ filter (λ a, i ≤ a) (Map_keys mandatory)).
    { apply list_elem_of_filter. split; [lia | done]. }
    destruct (filter (λ a, i ≤ a) (Map_keys mandatory));
      [inversion Hf | simpl in Hfuel; lia].
  - destruct (Map_has i mandatory) eqn:E.
    + apply Map_has_true in E.
      pose proof (keys_above_shrink _ _ E) as Hlt.
      destruct (IH (S i)) as (Hle & Hnot & Hall); [lia|].
      split; [lia|]. split; [done|].
      intros a Ha. destruct (decide (a = i)) as [->|]; [done|].
      apply Hall. lia.
    + apply Map_has_false in E. split; [lia|]. split; [done|]. intros; lia.
Qed.

Lemma skip_mandatory_enough mandatory i :
  let j := skip_mandatory (length mandatory) mandatory i in
  i ≤ j ∧ (j ∉ Map_keys mandatory)
  ∧ ∀ a, i ≤ a < j → a ∈ Map_keys mandatory.
Proof.
  apply skip_mandatory_spec.
  etransitivity; [apply length_filter|].
  unfold Map_keys. by rewrite length_fmap.
Qed.

Lemma filter_seq_all_mandatory mandatory i k :
  (∀ a, i ≤ a < i + k → a ∈ Map_keys mandatory) →
  filter (λ a, a ∉ Map_keys mandatory) (seq i k) = [].
Proof.
  revert i. induction k as [|k IH]; intros i Hall; simpl; [done|].
  rewrite filter_cons_False; [|intros Hn; apply Hn, Hall; lia].
  apply IH. intros a Ha. apply Hall. lia.
Qed.

Lemma filter_seq_first mandatory i k j :
  i ≤ j → j < i + k → j ∉ Map_keys mandatory →
  (∀ a, i ≤ a < j → a ∈ Map_keys mandatory) →
  filter (λ a, a ∉ Map_keys mandatory) (seq i k)
  = j :: filter (λ a, a ∉ Map_keys mandatory) (seq (S j) (i + k - S j)).
Proof.
  intros Hij Hjk Hnot Hall.
  replace k with ((j - i) + S (i + k - S j)) by lia.
  rewrite seq_app, filter_app.
  rewrite filter_seq_all_mandatory; [|intros a Ha; apply Hall; lia].
  simpl. replace (i + (j - i)) with j by lia.
  rewrite filter_cons_True; [|done].
  f_equal. f_equal. f_equal. lia.
Qed.

Lemma filter_from_spec {A} mandatory selective (signatures : list A) i k :
  length signatures
    ≤ length (filter (λ a, a ∉ Map_keys mandatory) (seq i k)) →
  filter_from mandatory selective i signatures
  = (filter (λ p, p.1 ∈ Map_keys selective)
       (zip (filter (λ a, a ∉ Map_keys mandatory) (seq i k)) signatures)).*2.
Proof.
  revert i k. induction signatures as [|s rest IH]; intros i k Hlen.
  - simpl. by rewrite zip_with_nil_r.
  - simpl in Hlen. unfold filter_from; fold (@filter_from A).
    unfold filter_predicate.
    destruct (skip_mandatory_enough mandatory i) as (Hij & Hnot & Hall).
    set (j := skip_mandatory (length mandatory) mandatory i) in *.
    assert (Hjk : j < i + k).
    { destruct (decide (j < i + k)) as [|Hge]; [done|].
      rewrite filter_seq_all_mandatory in Hlen; [simpl in Hlen; lia|].
      intros a Ha. apply Hall. lia. }
    rewrite (filter_seq_first mandatory i k j) in Hlen |- * by done.
    simpl in Hlen. simpl zip.
    rewrite (IH (S j) (i + k - S j)) by lia.
    destruct (Map_has j selective) eqn:E.
    + apply Map_has_true in E. by rewrite filter_cons_True.
    + apply Map_has_false in E. by rewrite filter_cons_False.
Qed.

(** The filter with its shared cursor, on signatures paired with the
    non-mandatory indexes in ascending order. *)
Lemma filteredSignatures_walk {A} mandatory selective
    (signatures : list A) (n : nat) :
  length signatures = length (nonMandatoryIndexes mandatory n) →
  let signed := zip (nonMandatoryIndexes mandatory n) signatures in
  let kept := filter (λ p, p.1 ∈ Map_keys selective) signed in
  filteredSignatures mandatory selective signatures = kept.*2
  ∧ kept.*1 = disclosedNonMandatoryIndexes mandatory selective n.
Proof.
  intros Hlen signed kept. split.
  - unfold filteredSignatures, kept, signed, nonMandatoryIndexes.
    apply filter_from_spec. unfold nonMandatoryIndexes in Hlen. lia.
  - unfold kept, signed.
    etransitivity;
      [apply (filter_zip_fst (λ a, a ∈ Map_keys selective)); [done | lia]|].
    unfold nonMandatoryIndexes, disclosedNonMandatoryIndexes.
    rewrite list_filter_filter. apply list_filter_iff. intros a. tauto.
Qed.

End SignatureFilter.

(** ** The verifier *)

Section MultiverifyFacts.
Context {keyPair : Type}.
Variable base58_encode : list byte → string.
Variable SM2Multikey_from : string → outcome keyPair.
Variable keyPair_verify : keyPair → list byte → list byte → bool.
Variable stringToUtf8Bytes : value → list byte.
Variable verifier_verify : list byte → list byte → bool.

Abbreviation multiverify :=
  (_multiverify keyPair base58_encode SM2Multikey_from keyPair_verify
     stringToUtf8Bytes verifier_verify).

Lemma verify_statements_run k nonMandatory index signatures s :
  verify_statements keyPair keyPair_verify stringToUtf8Bytes k nonMandatory
    index signatures s
  = (Return (statement_results keyPair_verify stringToUtf8Bytes k
               nonMandatory index signatures),
     State (st_heap s)
       (st_trace s ++ (EvVerifyStatement <$> seq index (length signatures)))).
Proof.
  revert index s. induction signatures as [|sg rest IH]; intros index s.
  - run_M. rewrite app_nil_r. by destruct s.
  - run_M. rewrite IH. simpl. unfold statement_results. simpl.
    rewrite Nat.add_0_r, <- app_assoc. simpl. do 3 f_equal.
    apply imap_ext. intros i x _. simpl. do 3 f_equal. lia.
Qed.

Lemma statement_results_zip k nonMandatory signatures :
  length signatures = length nonMandatory →
  statement_results keyPair_verify stringToUtf8Bytes k nonMandatory 0 signatures
  = (λ p, keyPair_verify k (stringToUtf8Bytes (VString p.2)) p.1)
      <$> zip signatures nonMandatory.
Proof.
  intros Hlen. apply list_eq. intros i. unfold statement_results.
  rewrite list_lookup_imap, list_lookup_fmap, lookup_zip_with. simpl.
  destruct (signatures !! i) as [sg|] eqn:Es; simpl; [|done].
  unfold nth_statement.
  destruct (nonMandatory !! i) as [nq|] eqn:En; simpl; [done|].
  apply lookup_lt_Some in Es. apply lookup_ge_None in En. lia.
Qed.

(** C3.  When the number of signatures differs from the number of
    non-mandatory statements, [_multiverify] raises and returns no boolean.
    It has then done nothing but import the statement key: no statement
    signature and no base signature has been checked.  The error raised
    is the count-mismatch error carrying both counts, unless importing the
    statement key itself threw. *)
Theorem multiverify_count_mismatch data s :
  length (signatures data) ≠ length (nonMandatory data) →
  ∃ e,
    multiverify data s
    = (Throw e, State (st_heap s) (st_trace s ++ [EvImportKey]))
    ∧ (∀ k, SM2Multikey_from ("z" +:+ base58_encode (publicKey data))
            = Return k →
            e = count_mismatch (length (signatures data))
                  (length (nonMandatory data))).
Proof.
  intros Hne. unfold _multiverify. run_M.
  destruct (SM2Multikey_from _) as [k|e] eqn:E.
  - apply Nat.eqb_neq in Hne. rewrite Hne. simpl.
    eexists. split; [reflexivity|]. intros; reflexivity.
  - exists e. split; [reflexivity|]. intros; discriminate.
Qed.

(** C4.  On verify data whose statement key imports, whose hashes and key
    have the lengths the verify-data serializer requires, and whose
    signature count equals the statement count, [_multiverify] returns
    the conjunction of every check of [signatures[i]] against the UTF-8
    bytes of [nonMandatory[i]] under the statement key with the check of
    [baseSignature] against [proofHash ++ publicKey ++ mandatoryHash]
    under the key of the verification method. *)
Theorem multiverify_conjunction data s k :
  SM2Multikey_from ("z" +:+ base58_encode (publicKey data)) = Return k →
  well_formed data →
  length (signatures data) = length (nonMandatory data) →
  (multiverify data s).1
  = Return
      (forallb (λ p, keyPair_verify k (stringToUtf8Bytes (VString p.2)) p.1)
         (zip (signatures data) (nonMandatory data))
       && verifier_verify
            (proofHash data ++ publicKey data ++ mandatoryHash data)
            (baseSignature data)).
Proof.
  intros Hk (Hp & Hpk & Hm) Hlen. unfold _multiverify. run_M.
  rewrite Hk. apply Nat.eqb_eq in Hlen as Hlen'. rewrite Hlen'. simpl.
  rewrite verify_statements_run. simpl.
  rewrite statement_results_zip by done.
  set (checks := (λ p, _) <$> _).
  rewrite existsb_negb_forallb.
  assert (Hall : forallb id checks
                 = forallb (λ p, keyPair_verify k
                                  (stringToUtf8Bytes (VString p.2)) p.1)
                     (zip (signatures data) (nonMandatory data))).
  { unfold checks. apply forallb_fmap_id. }
  rewrite Hall. clear Hall. subst checks.
  generalize (forallb (λ p : list byte * string, keyPair_verify k
                         (stringToUtf8Bytes (VString p.2)) p.1)
                (zip (signatures data) (nonMandatory data))).
  intros [|]; run_M; [|done].
  unfold serializeBaseVerifyData, _validateBaseVerifyDataParams.
  run_M. rewrite !bool_decide_eq_true_2 by done. simpl.
  unfold _concatBuffers. simpl. by rewrite app_nil_r.
Qed.
End MultiverifyFacts.

(** ** The proof-value codec *)


Lemma startsWithBytes_prefix (buffer prefix : list byte) :
  _startsWithBytes buffer prefix = true ↔ prefix `prefix_of` buffer.
Proof.
  unfold _startsWithBytes. revert buffer.
  induction prefix as [|p ps IH]; intros buffer; simpl.
  - split; [intros _; apply prefix_nil | done].
  - rewrite <- fmap_S_seq.
    destruct buffer as [|b bs]; simpl.
    + split; [done | intros H; destruct (prefix_nil_not _ _ H)].
    + rewrite andb_true_iff.
      assert (Hshift : forallb (λ i, match (b :: bs) !! i, (p :: ps) !! i with
                                     | Some a, Some c => Byte.eqb a c
                                     | _, _ => false
                                     end) (S <$> seq 0 (length ps))
                       = forallb (λ i, match bs !! i, ps !! i with
                                       | Some a, Some c => Byte.eqb a c
                                       | _, _ => false
                                       end) (seq 0 (length ps))).
      { by rewrite forallb_fmap. }
      rewrite Hshift, IH. split.
      * intros [Hb Hp]. apply Byte.byte_dec_bl in Hb as ->.
        by apply prefix_cons.
      * intros Hp. split.
        -- apply prefix_cons_inv_1 in Hp as ->. by apply Byte.byte_dec_lb.
        -- by apply prefix_cons_inv_2 in Hp.
Qed.

Lemma startsWithBytes_false (buffer prefix : list byte) :
  _startsWithBytes buffer prefix = false ↔ ¬ prefix `prefix_of` buffer.
Proof.
  rewrite <- startsWithBytes_prefix. by destruct (_startsWithBytes _ _).
Qed.

Lemma prefixes_exclusive (bytes : list byte) :
  CBOR_PREFIX_BASE `prefix_of` bytes → ¬ CBOR_PREFIX_DERIVED `prefix_of` bytes.
Proof.
  intros [k ->] [k' Hk]. unfold CBOR_PREFIX_BASE, CBOR_PREFIX_DERIVED in Hk.
  simpl in Hk. discriminate.
Qed.


Lemma startsWithBytes_app (prefix rest : list byte) :
  _startsWithBytes (prefix ++ rest) prefix = true.
Proof. apply startsWithBytes_prefix. by exists rest. Qed.

Lemma outcome_bind_Return {A B} (a : A) (k : A → outcome B) :
  (Return a ≫= k) = k a.
Proof. reflexivity. Qed.

Lemma outcome_bind_inv {A B} (m : outcome A) (k : A → outcome B) (b : B) :
  (m ≫= k) = Return b → ∃ a, m = Return a ∧ k a = Return b.
Proof. destruct m as [a|e]; [eauto | discriminate]. Qed.


Section ValidationFacts.
Lemma is_Uint8Array_of_length_spec n v :
  is_Uint8Array_of_length n v = true ↔ bytes_of_length n v.
Proof.
  unfold bytes_of_length. destruct v; simpl;
    try (split; [done | intros (b' & ? & ?); discriminate]).
  rewrite bool_decide_eq_true. split.
  - intros; eauto.
  - intros (b' & [= <-] & ?); done.
Qed.

Lemma is_array_every_spec (f : value → bool) (P : value → Prop) v :
  (∀ x, f x = true ↔ P x) →
  is_array_every f v = true ↔ ∃ l, v = VArray l ∧ Forall P l.
Proof.
  intros Hf. destruct v; simpl;
    try (split; [done | intros (l' & ? & ?); discriminate]).
  split.
  - intros H. exists l. split; [done|]. apply Forall_forall. intros x Hx.
    apply Hf. rewrite forallb_forall in H. apply H.
    by apply list_elem_of_In.
  - intros (l' & [= <-] & H). apply forallb_forall. intros x Hx.
    apply Hf. rewrite Forall_forall in H. apply H.
    by apply list_elem_of_In.
Qed.

Lemma is_Uint8Array_spec v : is_Uint8Array v = true ↔ ∃ b, v = VBytes b.
Proof.
  destruct v; simpl; try (split; [done | intros (? & ?); discriminate]).
  split; eauto.
Qed.

Lemma Number_isInteger_spec v :
  Number_isInteger v = true ↔ ∃ z, v = VNumber (NInt z).
Proof.
  destruct v as [| | |[]| | | | |]; simpl;
    try (split; [done | intros (? & ?); discriminate]).
  split; eauto.
Qed.

Lemma is_string_spec v : is_string v = true ↔ ∃ s, v = VString s.
Proof.
  destruct v; simpl; try (split; [done | intros (? & ?); discriminate]).
  split; eauto.
Qed.

Lemma is_string_Map_spec v :
  is_string_Map v = true ↔
  ∃ m, v = VMap m ∧ Forall (λ kv, ∃ k s, kv = (VString k, VString s)) m.
Proof.
  destruct v; simpl;
    try (split; [done | intros (m' & ? & ?); discriminate]).
  split.
  - intros H. exists m. split; [done|]. apply Forall_forall.
    intros [k v] Hx. rewrite forallb_forall in H.
    apply list_elem_of_In, H in Hx. apply andb_true_iff in Hx as [Hk Hv].
    simpl in Hk, Hv.
    apply is_string_spec in Hk as [k' ->].
    apply is_string_spec in Hv as [v' ->]. eauto.
  - intros (m' & [= <-] & H). apply forallb_forall. intros x Hx.
    rewrite Forall_forall in H. apply list_elem_of_In, H in Hx.
    destruct Hx as (k & s & ->). done.
Qed.

Lemma field_check_spec (f : derived_field) p :
  match f with
  | FBaseSignature => is_Uint8Array_of_length 64 (Derived.baseSignature p)
  | FPublicKey => is_Uint8Array_of_length 35 (Derived.publicKey p)
  | FSignatures => is_array_every is_Uint8Array (Derived.signatures p)
  | FLabelMap => is_string_Map (Derived.labelMap p)
  | FMandatoryIndexes =>
      is_array_every Number_isInteger (Derived.mandatoryIndexes p)
  end = true ↔ field_valid f p.
Proof.
  destruct f; simpl.
  - apply is_Uint8Array_of_length_spec.
  - apply is_Uint8Array_of_length_spec.
  - apply is_array_every_spec, is_Uint8Array_spec.
  - apply is_string_Map_spec.
  - apply is_array_every_spec, Number_isInteger_spec.
Qed.

Lemma validateDerived_accepts p :
  _validateDerivedProofParams p = Return tt ↔ ∀ f, field_valid f p.
Proof.
  split.
  - intros H f. unfold _validateDerivedProofParams in H.
    pose proof (field_check_spec FBaseSignature p) as H1.
    pose proof (field_check_spec FPublicKey p) as H2.
    pose proof (field_check_spec FSignatures p) as H3.
    pose proof (field_check_spec FLabelMap p) as H4.
    pose proof (field_check_spec FMandatoryIndexes p) as H5.
    simpl in H1, H2, H3, H4, H5.
    destruct (is_Uint8Array_of_length 64 _); [|discriminate].
    destruct (is_Uint8Array_of_length 35 _); [|discriminate].
    destruct (is_array_every is_Uint8Array _); [|discriminate].
    destruct (is_string_Map _); [|discriminate].
    destruct (is_array_every Number_isInteger _); [|discriminate].
    destruct f; simpl; tauto.
  - intros H. unfold _validateDerivedProofParams.
    rewrite (proj2 (field_check_spec FBaseSignature p) (H _)).
    rewrite (proj2 (field_check_spec FPublicKey p) (H _)).
    rewrite (proj2 (field_check_spec FSignatures p) (H _)).
    rewrite (proj2 (field_check_spec FLabelMap p) (H _)).
    rewrite (proj2 (field_check_spec FMandatoryIndexes p) (H _)).
    reflexivity.
Qed.

Lemma validateDerived_rejects p e :
  _validateDerivedProofParams p = Throw e →
  ∃ f what, e = must_be (field_name f) what ∧ ¬ field_valid f p.
Proof.
  unfold _validateDerivedProofParams. intros H.
  pose proof (field_check_spec FBaseSignature p) as H1.
  pose proof (field_check_spec FPublicKey p) as H2.
  pose proof (field_check_spec FSignatures p) as H3.
  pose proof (field_check_spec FLabelMap p) as H4.
  pose proof (field_check_spec FMandatoryIndexes p) as H5.
  simpl in H1, H2, H3, H4, H5.
  destruct (is_Uint8Array_of_length 64 _);
    [|injection H as <-; exists FBaseSignature; eexists; split;
      [reflexivity | simpl; intros ?%H1; discriminate]].
  destruct (is_Uint8Array_of_length 35 _);
    [|injection H as <-; exists FPublicKey; eexists; split;
      [reflexivity | simpl; intros ?%H2; discriminate]].
  destruct (is_array_every is_Uint8Array _);
    [|injection H as <-; exists FSignatures; eexists; split;
      [reflexivity | simpl; intros ?%H3; discriminate]].
  destruct (is_string_Map _);
    [|injection H as <-; exists FLabelMap; eexists; split;
      [reflexivity | simpl; intros ?%H4; discriminate]].
  destruct (is_array_every Number_isInteger _);
    [discriminate
    |injection H as <-; exists FMandatoryIndexes; eexists; split;
      [reflexivity | simpl; intros ?%H5; discriminate]].
Qed.
End ValidationFacts.


Section DecimalFacts.
Lemma digits_prefix_string_of_uint (d : uint) :
  digits_prefix (NilEmpty.string_of_uint d) = d.
Proof. induction d; simpl; by f_equal. Qed.

Lemma to_uint_nonnil (n : N) : N.to_uint n ≠ Nil.
Proof.
  destruct n as [|p]; [discriminate|]. apply DecimalPos.Unsigned.to_uint_nonnil.
Qed.

Lemma parseInt10_decimal (n : N) :
  parseInt10 (decimal n) = round_double (Z.of_N n).
Proof.
  unfold parseInt10, decimal.
  pose proof (to_uint_nonnil n) as Hnil.
  pose proof (DecimalN.Unsigned.of_to n) as Hof.
  pose proof (digits_prefix_string_of_uint (N.to_uint n)) as Hd.
  destruct (N.to_uint n) as [|d|d|d|d|d|d|d|d|d|d]; [done|..];
    cbn [NilEmpty.string_of_uint] in *;
    cbn -[round_double N.of_uint digits_prefix is_white_space];
    change (is_white_space _) with false; cbv iota;
    rewrite Hd; cbv iota beta; rewrite Hof; reflexivity.
Qed.

Lemma parseInt10_safe (n : N) :
  (n < 2 ^ 53)%N → parseInt10 (decimal n) = NInt (Z.of_N n).
Proof.
  intros Hn. rewrite parseInt10_decimal. unfold round_double.
  assert (Z.of_N n < 2 ^ 53)%Z as ->%Z.ltb_lt; [|done].
  change (2 ^ 53)%Z with (Z.of_N (2 ^ 53)). lia.
Qed.

Lemma Number_toString_safe ext (n : N) :
  (n < 2 ^ 53)%N → Number_toString ext (NInt (Z.of_N n)) = decimal n.
Proof.
  intros Hn. unfold Number_toString, decimal_Z.
  assert (Z.abs (Z.of_N n) <= 2 ^ 53)%Z as ->%Z.leb_le.
  { assert (Z.of_N n < Z.of_N (2 ^ 53))%Z by lia.
    change (Z.of_N (2 ^ 53)) with 9007199254740992%Z in *.
    change (2 ^ 53)%Z with 9007199254740992%Z. lia. }
  assert (¬ (Z.of_N n < 0)%Z) as ->%Z.ltb_nlt by lia.
  by rewrite N2Z.id.
Qed.

Lemma decimal_inj (n n' : N) : decimal n = decimal n' → n = n'.
Proof.
  unfold decimal. intros H. apply DecimalN.Unsigned.to_uint_inj.
  pose proof (NilEmpty.usu (N.to_uint n)) as H1.
  rewrite H, NilEmpty.usu in H1. congruence.
Qed.

Lemma label_inj (n n' : N) : label n = label n' → n = n'.
Proof. unfold label. simpl. intros [= H]. by apply decimal_inj. Qed.

Lemma substring_all (s : string) : substring 0 (String.length s) s = s.
Proof. induction s as [|a s IH]; simpl; [done | by rewrite IH]. Qed.

Lemma string_drop_label (n : N) : string_drop 4 (label n) = decimal n.
Proof.
  unfold string_drop, label. simpl. rewrite Nat.sub_0_r.
  apply substring_all.
Qed.

Lemma string_drop_tag (c : ascii) (s : string) :
  string_drop 1 (String c s) = s.
Proof.
  unfold string_drop. simpl. rewrite Nat.sub_0_r. apply substring_all.
Qed.
End DecimalFacts.


Section LabelMapFacts.
Variable base64url_decode : value → outcome (list byte).
Variable base64url_encode : value → outcome string.
Variable Number_toString_ext : number → string.

Lemma compress_entries_run (es : list labelEntry)
    (acc : list (number * list byte)) :
  Forall (wire_entry base64url_decode base64url_encode) es →
  NoDup (le_index <$> es) →
  (∀ e, e ∈ es → NInt (Z.of_N (le_index e)) ∉ acc.*1) →
  foldl (λ acc kv,
           map ← acc;
           k4 ← slice kv.1 4;
           v1 ← slice kv.2 1;
           bytes ← base64url_decode v1;
           mret (Map_set
                   (parseInt10 (ToString Number_toString_ext k4)) bytes map))
    (Return acc)
    ((λ e, (VString (label (le_index e)), VString ("u" +:+ le_text e)))
       <$> es)
  = Return (acc ++ ((λ e, (NInt (Z.of_N (le_index e)), le_bytes e)) <$> es)).
Proof.
  revert acc. induction es as [|e es IH]; intros acc Hw Hnd Hfresh.
  - simpl. by rewrite app_nil_r.
  - apply Forall_cons in Hw as [(Hsafe & Henc & Hdec) Hw].
    rewrite fmap_cons in Hnd. apply NoDup_cons in Hnd as [Hnotin Hnd].
    rewrite !fmap_cons. cbn [foldl].
    run_outcome. rewrite string_drop_label.
    change (string_drop 1 ("u" +:+ le_text e)) with
      (string_drop 1 (String "u" (le_text e))).
    rewrite string_drop_tag, Hdec. run_outcome.
    rewrite parseInt10_safe by done.
    rewrite Map_set_fresh by (apply Hfresh; left).
    rewrite IH; [by rewrite <- app_assoc | done | done |].
    intros e' He'. rewrite fmap_app, elem_of_app. intros [Hin|Hin].
    + by apply (Hfresh e'); [right|].
    + simpl in Hin. apply list_elem_of_singleton in Hin.
      injection Hin as Hin. apply N2Z.inj in Hin.
      apply Hnotin. rewrite <- Hin. by apply list_elem_of_fmap_2.
Qed.

Lemma decompress_entries_run (es : list labelEntry)
    (acc : list (string * string)) :
  Forall (wire_entry base64url_decode base64url_encode) es →
  NoDup (le_index <$> es) →
  (∀ e, e ∈ es → label (le_index e) ∉ acc.*1) →
  foldl (λ acc kv,
           map ← acc;
           enc ← base64url_encode kv.2;
           mret (Map_set ("c14n" +:+ ToString Number_toString_ext kv.1)
                         ("u" +:+ enc) map))
    (Return acc)
    ((λ e, (VNumber (NInt (Z.of_N (le_index e))), VBytes (le_bytes e)))
       <$> es)
  = Return (acc ++ ((λ e, (label (le_index e), "u" +:+ le_text e)) <$> es)).
Proof.
  revert acc. induction es as [|e es IH]; intros acc Hw Hnd Hfresh.
  - simpl. by rewrite app_nil_r.
  - apply Forall_cons in Hw as [(Hsafe & Henc & Hdec) Hw].
    rewrite fmap_cons in Hnd. apply NoDup_cons in Hnd as [Hnotin Hnd].
    rewrite !fmap_cons. cbn [foldl].
    run_outcome. rewrite Henc. run_outcome.
    rewrite Number_toString_safe by done.
    change ("c14n" +:+ decimal (le_index e)) with (label (le_index e)).
    rewrite Map_set_fresh by (apply Hfresh; left).
    rewrite IH; [by rewrite <- app_assoc | done | done |].
    intros e' He'. rewrite fmap_app, elem_of_app. intros [Hin|Hin].
    + by apply (Hfresh e'); [right|].
    + simpl in Hin. apply list_elem_of_singleton in Hin.
      apply label_inj in Hin.
      apply Hnotin. rewrite <- Hin. by apply list_elem_of_fmap_2.
Qed.

Lemma compressLabelMap_wire es :
  wire_labelMap base64url_decode base64url_encode es →
  _compressLabelMap base64url_decode Number_toString_ext
    (expanded_labelMap es)
  = Return (compressed_labelMap es).
Proof.
  intros [Hnd Hw]. unfold _compressLabelMap, compress_entries.
  unfold expanded_labelMap. cbn [entries]. rewrite outcome_bind_Return.
  change (mret []) with (Return (@nil (number * list byte))).
  rewrite (compress_entries_run es [])
    by (done || (intros; apply not_elem_of_nil)).
  run_outcome. unfold compressed_labelMap. f_equal. f_equal.
  by rewrite <- list_fmap_compose.
Qed.

Lemma decompressLabelMap_wire es :
  wire_labelMap base64url_decode base64url_encode es →
  _decompressLabelMap base64url_encode Number_toString_ext
    (compressed_labelMap es)
  = Return (expanded_labelMap es).
Proof.
  intros [Hnd Hw]. unfold _decompressLabelMap, decompress_entries.
  unfold compressed_labelMap. cbn [entries]. rewrite outcome_bind_Return.
  change (mret []) with (Return (@nil (string * string))).
  rewrite (decompress_entries_run es [])
    by (done || (intros; apply not_elem_of_nil)).
  run_outcome. unfold expanded_labelMap. f_equal. f_equal.
  by rewrite <- list_fmap_compose.
Qed.

Lemma wire_labelMap_perm es es' :
  es' ≡ₚ es →
  wire_labelMap base64url_decode base64url_encode es →
  wire_labelMap base64url_decode base64url_encode es'.
Proof.
  intros Hp [Hnd Hw]. split.
  - by rewrite Hp.
  - by rewrite Hp.
Qed.
End LabelMapFacts.

Section ParserFacts.
Variable base64url_decode : value → outcome (list byte).
Variable base64url_encode : value → outcome string.
Variable cborg_decode : list byte → outcome value.
Variable cborg_encode : value → outcome (list byte).
Variable Number_toString_ext : number → string.

Abbreviation parseBase := (parseBaseProofValue base64url_decode cborg_decode).
Abbreviation parseBase_try :=
  (parseBaseProofValue_try base64url_decode cborg_decode).
Abbreviation parseDerived :=
  (parseDisclosureProofValue base64url_decode base64url_encode cborg_decode
     Number_toString_ext).
Abbreviation parseDerived_try :=
  (parseDisclosureProofValue_try base64url_decode base64url_encode
     cborg_decode Number_toString_ext).
Abbreviation serializeBase :=
  (serializeBaseProofValue base64url_encode cborg_encode).
Abbreviation serializeDerived :=
  (serializeDisclosureProofValue base64url_decode base64url_encode
     cborg_encode Number_toString_ext).
Abbreviation wire := (wire_labelMap base64url_decode base64url_encode).
Abbreviation cbor_inverts := (cborg_inverts cborg_decode cborg_encode).
Abbreviation text_inverts :=
  (base64url_inverts base64url_decode base64url_encode cborg_encode).

Lemma property_string (h : heap) (proof : value) (s : string) :
  property_opt h proof "proofValue" = VString s →
  property h proof "proofValue" = Return (VString s).
Proof. destruct proof; simpl; try discriminate. by intros ->. Qed.

Lemma decode_proofValue_tagged h proof c enc :
  property_opt h proof "proofValue" = VString (String c enc) →
  decode_proofValue base64url_decode h proof
  = base64url_decode (VString enc).
Proof.
  intros H. unfold decode_proofValue. rewrite (property_string _ _ _ H).
  run_outcome. by rewrite string_drop_tag.
Qed.

Lemma parse_envelope h proof (prefix body : list byte) enc :
  property_opt h proof "proofValue" = VString ("u" +:+ enc) →
  base64url_decode (VString enc) = Return (prefix ++ body) →
  decode_proofValue base64url_decode h proof = Return (prefix ++ body)
  ∧ _assertProofValue h proof = Return tt.
Proof.
  intros Hpv Hdec. split.
  - by rewrite (decode_proofValue_tagged _ _ _ _ Hpv).
  - unfold _assertProofValue. by rewrite Hpv.
Qed.

Lemma assertProofValue_rejects (h : heap) (proof : value) :
  (∀ enc, property_opt h proof "proofValue" ≠ VString (String "u" enc)) →
  ∃ e, _assertProofValue h proof = Throw e.
Proof.
  intros Hno. unfold _assertProofValue.
  destruct (property_opt h proof "proofValue") as [| | | |s| | | |] eqn:E;
    try (eexists; reflexivity).
  destruct s as [|c s]; [eexists; reflexivity|].
  destruct (ascii_dec c "u") as [->|Hc]; [by destruct (Hno s)|].
  destruct c as [[] [] [] [] [] [] [] []];
    try (eexists; reflexivity); by destruct Hc.
Qed.

Lemma parse_rejects_untagged (h : heap) (proof : value) :
  (∀ enc, property_opt h proof "proofValue" ≠ VString (String "u" enc)) →
  (∃ cause, parseBase_try h proof = Throw cause)
  ∧ (∃ cause, parseDerived_try h proof = Throw cause).
Proof.
  intros Hno. destruct (assertProofValue_rejects h proof Hno) as [e He].
  unfold parseBaseProofValue_try, parseDisclosureProofValue_try,
    _isBaseProofValue, _isDerivedProofValue.
  rewrite He.
  destruct (decode_proofValue base64url_decode h proof) as [b|e0];
    split; eexists; reflexivity.
Qed.

Lemma parse_wraps_base h proof e :
  parseBase h proof = Throw e ↔
  ∃ cause, parseBase_try h proof = Throw cause
           ∧ e = TypeError parse_error_message (Some cause).
Proof.
  unfold parseBaseProofValue, try_catch, wrap_parse_error.
  destruct (parseBaseProofValue_try _ _ _ _) as [p|c].
  - split; [discriminate | intros (? & ? & _); discriminate].
  - split; [intros [= <-]; eauto | intros (? & [= <-] & ->); done].
Qed.

Lemma parse_wraps_derived h proof e :
  parseDerived h proof = Throw e ↔
  ∃ cause, parseDerived_try h proof = Throw cause
           ∧ e = TypeError parse_error_message (Some cause).
Proof.
  unfold parseDisclosureProofValue, try_catch, wrap_parse_error.
  destruct (parseDisclosureProofValue_try _ _ _ _ _ _) as [p|c].
  - split; [discriminate | intros (? & ? & _); discriminate].
  - split; [intros [= <-]; eauto | intros (? & [= <-] & ->); done].
Qed.

Lemma base_roundtrip (p : Base.params) (s : string) h proof :
  serializeBase p = Return s →
  cbor_inverts (base_payload p) (base_payload p) →
  text_inverts CBOR_PREFIX_BASE (base_payload p) →
  property_opt h proof "proofValue" = VString s →
  parseBase h proof = Return p.
Proof.
  unfold serializeBaseProofValue, _concatBuffers.
  intros Hs Hcbor Hb64 Hpv.
  apply outcome_bind_inv in Hs as ([] & Hvalid & Hs).
  apply outcome_bind_inv in Hs as (body & Hbody & Hs).
  apply outcome_bind_inv in Hs as (enc & Henc & [= <-]).
  simpl in Henc. rewrite app_nil_r in Henc.
  change (xd9 :: x5d :: x00 :: body) with (CBOR_PREFIX_BASE ++ body) in Henc.
  pose proof (Hb64 _ _ Hbody Henc) as Hdec.
  destruct (parse_envelope _ _ _ _ _ Hpv Hdec) as [Hd Ha].
  unfold parseBaseProofValue, parseBaseProofValue_try, _isBaseProofValue.
  rewrite Hd, Ha. step_outcome.
  rewrite startsWithBytes_app. step_outcome.
  rewrite drop_app_length, (Hcbor _ Hbody). step_outcome.
  destruct p as [a b c d e]. unfold element. simpl in *.
  by rewrite Hvalid.
Qed.

Lemma derived_roundtrip (p : Derived.params) (s : string)
    (es es' : list labelEntry) h proof :
  serializeDerived p = Return s →
  Derived.labelMap p = expanded_labelMap es →
  wire es →
  es' ≡ₚ es →
  cbor_inverts (derived_payload p (compressed_labelMap es))
               (derived_payload p (compressed_labelMap es')) →
  text_inverts CBOR_PREFIX_DERIVED
    (derived_payload p (compressed_labelMap es)) →
  property_opt h proof "proofValue" = VString s →
  parseDerived h proof = Return (with_labelMap p (expanded_labelMap es')).
Proof.
  unfold serializeDisclosureProofValue, _concatBuffers.
  intros Hs Hlm Hwire Hperm Hcbor Hb64 Hpv.
  apply outcome_bind_inv in Hs as ([] & Hvalid & Hs).
  rewrite Hlm, (compressLabelMap_wire _ _ _ _ Hwire) in Hs.
  rewrite outcome_bind_Return in Hs.
  apply outcome_bind_inv in Hs as (body & Hbody & Hs).
  apply outcome_bind_inv in Hs as (enc & Henc & [= <-]).
  simpl in Henc. rewrite app_nil_r in Henc.
  change (xd9 :: x5d :: x01 :: body)
    with (CBOR_PREFIX_DERIVED ++ body) in Henc.
  pose proof (Hb64 _ _ Hbody Henc) as Hdec.
  destruct (parse_envelope _ _ _ _ _ Hpv Hdec) as [Hd Ha].
  unfold parseDisclosureProofValue, parseDisclosureProofValue_try,
    _isDerivedProofValue.
  rewrite Hd, Ha. step_outcome.
  rewrite startsWithBytes_app. step_outcome.
  rewrite drop_app_length, (Hcbor _ Hbody). step_outcome.
  unfold derived_payload, element. cbn [iterate lookup list_lookup default].
  step_outcome.
  rewrite (decompressLabelMap_wire _ _ _ _
             (wire_labelMap_perm _ _ _ _ Hperm Hwire)).
  step_outcome.
  assert (Hvalid' : _validateDerivedProofParams
                      (with_labelMap p (expanded_labelMap es'))
                    = Return tt).
  { apply validateDerived_accepts. intros f.
    pose proof (proj1 (validateDerived_accepts p) Hvalid) as Hall.
    destruct f;
      [exact (Hall FBaseSignature) | exact (Hall FPublicKey)
      |exact (Hall FSignatures) | | exact (Hall FMandatoryIndexes)].
    simpl. eexists. split; [reflexivity|].
    apply Forall_fmap, Forall_forall. intros e _. simpl. eauto. }
  unfold with_labelMap, id in *. rewrite Hvalid'. reflexivity.
Qed.

Lemma parse_validates_after_decode h proof enc body decoded items labelMap e :
  property_opt h proof "proofValue" = VString (String "u" enc) →
  base64url_decode (VString enc) = Return (CBOR_PREFIX_DERIVED ++ body) →
  cborg_decode body = Return decoded →
  iterate decoded = Return items →
  _decompressLabelMap base64url_encode Number_toString_ext (element items 3)
  = Return labelMap →
  _validateDerivedProofParams
    (Derived.Params (element items 0) (element items 1) (element items 2)
       labelMap (element items 4)) = Throw e →
  parseDerived h proof = Throw (TypeError parse_error_message (Some e)).
Proof.
  intros Hpv Hdec Hcbor Hit Hlm Hv.
  destruct (parse_envelope _ _ _ _ _ Hpv Hdec) as [Hd Ha].
  unfold parseDisclosureProofValue, parseDisclosureProofValue_try,
    _isDerivedProofValue.
  rewrite Hd, Ha. step_outcome.
  rewrite startsWithBytes_app. step_outcome.
  rewrite drop_app_length, Hcbor. step_outcome.
  rewrite Hit. step_outcome. rewrite Hlm. step_outcome.
  rewrite Hv. reflexivity.
Qed.

(** C5, as amended.  Parsing the serialized base proof value yields the
    parameters that were serialized, and so does parsing a serialized
    derived proof value, up to the order of the label-map entries, provided
    the CBOR and base64url libraries invert their own output on this
    payload.  Label-map compression followed by decompression is the
    identity on every label map with distinct keys [c14n<N>], where [N] is
    written in decimal without leading zeros and is less than 2^53, and
    whose values are ['u'] followed by the base64url text of a byte
    string. *)
Theorem proof_value_roundtrip :
  (∀ (p : Base.params) s h proof,
     serializeBase p = Return s →
     cbor_inverts (base_payload p) (base_payload p) →
     text_inverts CBOR_PREFIX_BASE (base_payload p) →
     property_opt h proof "proofValue" = VString s →
     parseBase h proof = Return p)
  ∧ (∀ (p : Derived.params) s es es' h proof,
       serializeDerived p = Return s →
       Derived.labelMap p = expanded_labelMap es →
       wire es →
       es' ≡ₚ es →
       cbor_inverts (derived_payload p (compressed_labelMap es))
                    (derived_payload p (compressed_labelMap es')) →
       text_inverts CBOR_PREFIX_DERIVED
         (derived_payload p (compressed_labelMap es)) →
       property_opt h proof "proofValue" = VString s →
       parseDerived h proof
       = Return (with_labelMap p (expanded_labelMap es')))
  ∧ (∀ es,
       wire es →
       _compressLabelMap base64url_decode Number_toString_ext
         (expanded_labelMap es) = Return (compressed_labelMap es)
       ∧ _decompressLabelMap base64url_encode Number_toString_ext
           (compressed_labelMap es) = Return (expanded_labelMap es)).
Proof.
  split; [|split].
  - intros. by eapply base_roundtrip.
  - intros. by eapply derived_roundtrip.
  - intros es Hw. split.
    + by eapply compressLabelMap_wire.
    + by eapply decompressLabelMap_wire.
Qed.

(** C6, as amended.  [_validateDerivedProofParams] accepts a parameter set
    exactly when [baseSignature] is a 64-byte [Uint8Array], [publicKey] a
    35-byte [Uint8Array], [signatures] an array of [Uint8Array]s of any
    length, [labelMap] a [Map] whose keys and values are strings of any
    form, and [mandatoryIndexes] an array of integers.  Otherwise it raises
    a [TypeError] whose message names a field that fails its check.  The
    serializer raises that error before encoding anything, and the parser,
    which validates what it has decoded, raises it as the cause of its
    own error. *)
Theorem derived_validation_checks (p : Derived.params) :
  (_validateDerivedProofParams p = Return tt ↔ ∀ f, field_valid f p)
  ∧ (∀ e, _validateDerivedProofParams p = Throw e →
          (∃ f what, e = must_be (field_name f) what ∧ ¬ field_valid f p)
          ∧ serializeDerived p = Throw e)
  ∧ (∀ h proof enc body decoded items e,
       property_opt h proof "proofValue" = VString (String "u" enc) →
       base64url_decode (VString enc) = Return (CBOR_PREFIX_DERIVED ++ body) →
       cborg_decode body = Return decoded →
       iterate decoded = Return items →
       _decompressLabelMap base64url_encode Number_toString_ext
         (element items 3) = Return (Derived.labelMap p) →
       p = Derived.Params (element items 0) (element items 1)
             (element items 2) (Derived.labelMap p) (element items 4) →
       _validateDerivedProofParams p = Throw e →
       parseDerived h proof = Throw (TypeError parse_error_message (Some e))).
Proof.
  split; [apply validateDerived_accepts|]. split.
  - intros e He. split; [by apply validateDerived_rejects|].
    unfold serializeDisclosureProofValue. rewrite He. reflexivity.
  - intros h proof enc body decoded items e Hpv Hdec Hcbor Hit Hlm Hp Hv.
    rewrite Hp in Hv.
    by eapply parse_validates_after_decode.
Qed.

(** C8.  The base and derived prefixes are distinct constants of three
    bytes.  When the decoded bytes of a proof value do not begin with the
    derived prefix, as is the case when they begin with the base prefix,
    the derived-proof parser raises, whatever the CBOR decoder would make of
    the rest: the cause of its error says that the value must be a derived
    proof.  The same holds for the base parser and the base prefix. *)
Theorem prefix_checked_before_decode h proof enc bytes :
  property_opt h proof "proofValue" = VString (String "u" enc) →
  base64url_decode (VString enc) = Return bytes →
  CBOR_PREFIX_BASE ≠ CBOR_PREFIX_DERIVED
  ∧ length CBOR_PREFIX_BASE = 3 ∧ length CBOR_PREFIX_DERIVED = 3
  ∧ (CBOR_PREFIX_BASE `prefix_of` bytes →
     ¬ CBOR_PREFIX_DERIVED `prefix_of` bytes)
  ∧ (¬ CBOR_PREFIX_DERIVED `prefix_of` bytes →
     parseDerived h proof
     = Throw (TypeError parse_error_message
                (Some (must_be "proof.proofValue" "a derived proof"))))
  ∧ (¬ CBOR_PREFIX_BASE `prefix_of` bytes →
     parseBase h proof
     = Throw (TypeError parse_error_message
                (Some (must_be "proof.proofValue" "a base proof")))).
Proof.
  intros Hpv Hdec. split; [discriminate|].
  split; [reflexivity|]. split; [reflexivity|].
  split; [apply prefixes_exclusive|].
  split; intros Hpre%startsWithBytes_false.
  - unfold parseDisclosureProofValue, parseDisclosureProofValue_try,
      _isDerivedProofValue, _assertProofValue.
    rewrite (decode_proofValue_tagged _ _ _ _ Hpv), Hdec, Hpv.
    run_outcome. by rewrite Hpre.
  - unfold parseBaseProofValue, parseBaseProofValue_try,
      _isBaseProofValue, _assertProofValue.
    rewrite (decode_proofValue_tagged _ _ _ _ Hpv), Hdec, Hpv.
    run_outcome. by rewrite Hpre.
Qed.

(** C10.  Each parser raises exactly when its [try] block throws, and what it
    raises is then the [TypeError] with the one fixed message, carrying the
    thrown error as its cause: the raised error has the same class and the
    same message whatever went wrong.  In particular both parsers raise it
    when [proofValue] is missing, is not a string, or does not start with
    ['u']. *)
Theorem parse_failure_uniform (h : heap) (proof : value) :
  (∀ e, parseBase h proof = Throw e ↔
        ∃ cause, parseBase_try h proof = Throw cause
                 ∧ e = TypeError parse_error_message (Some cause))
  ∧ (∀ e, parseDerived h proof = Throw e ↔
          ∃ cause, parseDerived_try h proof = Throw cause
                   ∧ e = TypeError parse_error_message (Some cause))
  ∧ ((∀ enc, property_opt h proof "proofValue" ≠ VString (String "u" enc)) →
     (∃ cause, parseBase h proof
               = Throw (TypeError parse_error_message (Some cause)))
     ∧ (∃ cause, parseDerived h proof
                 = Throw (TypeError parse_error_message (Some cause)))).
Proof.
  split; [intros e; apply parse_wraps_base|].
  split; [intros e; apply parse_wraps_derived|].
  intros Hno.
  destruct (parse_rejects_untagged h proof Hno) as [[c1 H1] [c2 H2]].
  split; eexists; [apply parse_wraps_base | apply parse_wraps_derived];
    eauto.
Qed.
End ParserFacts.

(** ** The discloser *)

Section MonadFacts.
Context {A B : Type}.

Lemma run_get_heap (k : heap → M B) s :
  (get_heap ≫= k) s = k (st_heap s) s.
Proof. reflexivity. Qed.

Lemma run_lift_Return (o : outcome A) (a : A) (k : A → M B) s :
  o = Return a → (lift o ≫= k) s = k a s.
Proof. by intros ->. Qed.

Lemma run_lift_Throw (o : outcome A) e (k : A → M B) s :
  o = Throw e → (lift o ≫= k) s = (Throw e, s).
Proof. by intros ->. Qed.

Lemma run_emit ev (k : unit → M B) s :
  (emit ev ≫= k) s = k tt (State (st_heap s) (st_trace s ++ [ev])).
Proof. reflexivity. Qed.

Lemma bind_Return_inv (m : M A) (k : A → M B) s b s' :
  (m ≫= k) s = (Return b, s') →
  ∃ a s1, m s = (Return a, s1) ∧ k a s1 = (Return b, s').
Proof.
  unfold mbind, M_bind. destruct (m s) as [[a|e] s1]; [eauto | discriminate].
Qed.

Lemma lift_Return_inv (o : outcome A) s a s' :
  lift o s = (Return a, s') → o = Return a ∧ s' = s.
Proof. unfold lift. by intros [= -> ->]. Qed.

Lemma appends_bind (m : M A) (k : A → M B) :
  appends_trace m → (∀ a, appends_trace (k a)) → appends_trace (m ≫= k).
Proof.
  intros Hm Hk s o s'. unfold mbind, M_bind.
  destruct (m s) as [[a|e] s1] eqn:E; intros H.
  - etransitivity; [exact (Hm _ _ _ E) | exact (Hk _ _ _ _ H)].
  - injection H as <- <-. exact (Hm _ _ _ E).
Qed.

Lemma appends_ret (a : A) : appends_trace (mret a).
Proof. intros s o s' [= <- <-]. done. Qed.

Lemma appends_throw e : appends_trace (@throw A e).
Proof. intros s o s' [= <- <-]. done. Qed.

Lemma appends_lift (o : outcome A) : appends_trace (lift o).
Proof. intros s o' s' [= <- <-]. done. Qed.
End MonadFacts.

Lemma appends_emit ev : appends_trace (emit ev).
Proof. intros s o s' [= <- <-]. simpl. by apply prefix_app_r. Qed.

Lemma appends_get_heap : appends_trace get_heap.
Proof. intros s o s' [= <- <-]. done. Qed.

Lemma appends_put_heap h : appends_trace (put_heap h).
Proof. intros s o s' [= <- <-]. done. Qed.

Lemma appends_alloc o : appends_trace (alloc o).
Proof.
unfold alloc. apply appends_bind; [apply appends_get_heap|]. intros h.
apply appends_bind; [apply appends_put_heap|]. intros _. apply appends_ret.
Qed.

Ltac solve_appends :=
repeat (intros;
        first [ apply appends_ret | apply appends_throw | apply appends_lift
              | apply appends_emit | apply appends_get_heap
              | apply appends_put_heap | apply appends_alloc
              | apply appends_bind
              | match goal with
                | |- appends_trace (if ?b then _ else _) => destruct b
                | |- appends_trace (match ?x with _ => _ end) => destruct x
                end ]).

Lemma bind_inv {A B} (m : M A) (k : A → M B) s o s' :
  (m ≫= k) s = (o, s') →
  (∃ a s1, m s = (Return a, s1) ∧ k a s1 = (o, s'))
  ∨ (∃ e, m s = (Throw e, s') ∧ o = Throw e).
Proof.
  unfold mbind, M_bind. destruct (m s) as [[a|e] s1].
  - left. eauto.
  - intros [= <- <-]. right. eauto.
Qed.

Lemma run_alloc {B} (obj : object) (k : loc → M B) s :
  (alloc obj ≫= k) s
  = k (fresh (dom (st_heap s)))
      (State (<[fresh (dom (st_heap s)) := obj]> (st_heap s)) (st_trace s)).
Proof. reflexivity. Qed.

Lemma strict_eq_string v s : strict_eq v (VString s) = true → v = VString s.
Proof.
  destruct v as [| | |[]| | | | |]; try discriminate. simpl.
  by intros ->%String.eqb_eq.
Qed.

Lemma run_put_heap {B} (h : heap) (k : unit → M B) s :
  (put_heap h ≫= k) s = k tt (State h (st_trace s)).
Proof. reflexivity. Qed.

(** One step of a run, whatever its outcome. *)
Ltac walk H :=
  lazymatch type of H with
  | (get_heap ≫= _) _ = _ => rewrite run_get_heap in H
  | (emit _ ≫= _) _ = _ => rewrite run_emit in H
  | (alloc _ ≫= _) _ = _ => rewrite run_alloc in H
  | (put_heap _ ≫= _) _ = _ => rewrite run_put_heap in H
  | (if ?c then _ else _) _ = _ =>
      let E := fresh "E" in destruct c eqn:E
  end; cbn [st_heap st_trace negb] in H; cbn zeta in H.

(** A call of a collaborator, whose result, if any, is named [a]. *)
Ltac call H a E :=
  lazymatch type of H with
  | (lift ?o ≫= _) _ = _ =>
      destruct o as [a|?] eqn:E;
      [rewrite (run_lift_Return _ _ _ _ eq_refl) in H
      |rewrite (run_lift_Throw _ _ _ _ eq_refl) in H]
  end; cbn [st_heap st_trace negb] in H; cbn zeta in H.

(** A run that has stopped. *)
Ltac stopped H :=
  lazymatch type of H with
  | (Throw _, _) = _ => injection H as <- <-
  | throw _ _ = _ => unfold throw in H; injection H as <- <-
  | (Return _, _) = _ => injection H as <- <-
  | mret _ _ = _ => unfold mret, M_ret in H; injection H as <- <-
  end; cbn [st_heap st_trace].

Section DiscloserFacts.
Variable name : string.
Variable base64url_decode : value → outcome (list byte).
Variable base64url_encode : value → outcome string.
Variable cborg_decode : list byte → outcome value.
Variable cborg_encode : value → outcome (list byte).
Variable Number_toString_ext : number → string.
Variable ToNumber_ext : heap → value → outcome number.
Context {hmac : Type}.
Variable createHmac : value → outcome hmac.
Variable canonicalizeAndGroup :
  heap → value → hmac → value → value → value → outcome grouping.
Variable selectJsonLd : heap → value → value → outcome (option object).
Variable canonicalize : string → outcome (list (string * string)).
Variable stripBlankNodePrefixes :
  list (string * string) → list (string * string).
Variable matchProof : heap → loc → bool.

Abbreviation createDisclosureData :=
  (_createDisclosureData name base64url_decode cborg_decode ToNumber_ext hmac
     createHmac canonicalizeAndGroup selectJsonLd canonicalize
     stripBlankNodePrefixes).
Abbreviation derive :=
  (_derive name base64url_decode base64url_encode cborg_decode cborg_encode
     Number_toString_ext ToNumber_ext hmac createHmac canonicalizeAndGroup
     selectJsonLd canonicalize stripBlankNodePrefixes matchProof).
Abbreviation inputs :=
  (disclosure_inputs name base64url_decode cborg_decode createHmac
     canonicalizeAndGroup).
Abbreviation selected := (something_selected ToNumber_ext).

Lemma selected_arrays h mandatory selective :
  selected h (VArray mandatory) (VArray selective)
  = Return (bool_decide (mandatory ≠ [] ∨ selective ≠ [])).
Proof.
  unfold something_selected.
  destruct mandatory as [|p ps], selective as [|q qs]; reflexivity.
Qed.


Ltac step H :=
  lazymatch type of H with
  | (get_heap ≫= _) _ = _ => rewrite run_get_heap in H
  | (emit _ ≫= _) _ = _ => rewrite run_emit in H
  | (lift ?o ≫= _) _ = (Return _, _) =>
      let E := fresh "E" in
      destruct o eqn:E;
      [rewrite (run_lift_Return _ _ _ _ eq_refl) in H
      |rewrite (run_lift_Throw _ _ _ _ eq_refl) in H; discriminate H]
  | (if ?c then _ else _) _ = (Return _, _) =>
      let E := fresh "E" in
      destruct c eqn:E; [try discriminate H | try discriminate H]
  | (_ ≫= _) _ = (Return _, _) =>
      let H1 := fresh "H" in
      apply bind_Return_inv in H as (? & ? & H1 & H)
  end; cbn [st_heap st_trace] in H; cbn zeta in H.

Lemma parse_base_object (h : heap) (p : loc) params :
  parseBaseProofValue base64url_decode cborg_decode h (VRef p)
  = Return params →
  is_Some (h !! p).
Proof.
  unfold parseBaseProofValue, parseBaseProofValue_try, decode_proofValue,
    try_catch.
  destruct (h !! p) as [o|] eqn:E; [eauto|].
  simpl. rewrite E. simpl. discriminate.
Qed.

(** What a run of [_createDisclosureData] that returns has gone through,
    and what it returns. *)
Lemma createDisclosureData_returns cryptosuite document proof s data s' :
  createDisclosureData cryptosuite document proof s = (Return data, s') →
  ∃ options params g selection idMap,
    inputs (st_heap s) cryptosuite document proof options params g
    ∧ selected (st_heap s) (Base.mandatoryPointers params)
        (selectivePointers_of (st_heap s) options) = Return true
    ∧ selectJsonLd (st_heap s) document
        (combinedPointers_of (st_heap s) options params) = Return selection
    ∧ canonicalize
        (String.concat EmptyString (deskolemizedNQuads (combinedGroup g)))
      = Return idMap
    ∧ match selection with
      | Some o =>
          dd_revealDoc data = VRef (fresh (dom (st_heap s)))
          ∧ st_heap s' = <[fresh (dom (st_heap s)) := o]> (st_heap s)
      | None => dd_revealDoc data = VNull ∧ st_heap s' = st_heap s
      end
    ∧ dd_baseSignature data = Base.baseSignature params
    ∧ dd_publicKey data = Base.publicKey params
    ∧ dd_signatures data
      = filteredSignatures (matching (mandatoryGroup g))
          (matching (selectiveGroup g))
          (array_elements (Base.signatures params))
    ∧ dd_labelMap data
      = foldl (λ m kv, Map_set kv.2 (Map_get kv.1 (labelMap g)) m) []
          (stripBlankNodePrefixes idMap)
    ∧ dd_mandatoryIndexes data
      = compute_mandatoryIndexes (matching (combinedGroup g))
          (matching (mandatoryGroup g)).
Proof.
  unfold _createDisclosureData. intros H.
  walk H. walk H; [discriminate H|].
  apply negb_false_iff, strict_eq_string in E.
  call H options Eo; [|discriminate H].
  walk H; [discriminate H|]. apply negb_false_iff in E0.
  call H params Ep; [|discriminate H].
  fold (selectivePointers_of (st_heap s) options) in H.
  fold (combinedPointers_of (st_heap s) options params) in H.
  call H sel Es; [|discriminate H].
  walk H; [discriminate H|]. apply negb_false_iff in E1. subst sel.
  walk H. call H hm Eh; [|discriminate H].
  walk H. call H g Eg; [|discriminate H].
  walk H. call H selection Ej; [|discriminate H].
  exists options, params, g, selection.
  assert (Hin : inputs (st_heap s) cryptosuite document proof options params
                  g).
  { split; [by repeat split|]. by exists hm. }
  destruct selection as [o|].
  - apply bind_Return_inv in H as (r & s1 & Hr & H).
    rewrite run_alloc in Hr. stopped Hr.
    walk H. call H idMap Ei; [|discriminate H]. stopped H.
    exists idMap. split; [exact Hin|]. by repeat split.
  - apply bind_Return_inv in H as (r & s1 & Hr & H). stopped Hr.
    walk H. call H idMap Ei; [|discriminate H]. stopped H.
    exists idMap. split; [exact Hin|]. by repeat split.
Qed.

Lemma createDisclosureData_heap cryptosuite document proof s data s' :
  createDisclosureData cryptosuite document proof s = (Return data, s') →
  (∃ params, parseBaseProofValue base64url_decode cborg_decode (st_heap s)
               proof = Return params)
  ∧ ((dd_revealDoc data = VNull ∧ st_heap s' = st_heap s)
     ∨ ∃ selection pointers,
         selectJsonLd (st_heap s) document pointers = Return (Some selection)
         ∧ dd_revealDoc data = VRef (fresh (dom (st_heap s)))
         ∧ st_heap s'
           = <[fresh (dom (st_heap s)) := selection]> (st_heap s)).
Proof.
  intros H. apply createDisclosureData_returns in H
    as (options & params & g & selection & idMap & Hin & _ & Hsel & _
        & Hdoc & _).
  destruct Hin as [(_ & _ & _ & Hparse) _]. split; [eauto|].
  destruct selection as [o|]; [right | by left].
  exists o. eexists. by split; [exact Hsel|].
Qed.

(** C1.  The signatures that [_createDisclosureData] returns are the
    filtered signatures of the base proof it was given.  Pair every
    signature of the base proof with the absolute index of the statement
    it signs: the non-mandatory indexes of the document in ascending order,
    the indexes of the mandatory group being skipped without consuming a
    signature.  The returned signatures are exactly those whose index is in
    the selective group, in their original order, and they line up position
    by position with the non-mandatory statements of the disclosed
    document.  The groups are the ones [canonicalizeAndGroup] returned for
    the document and the pointers of the request. *)
Theorem filteredSignatures_positional cryptosuite document proof s data s' :
  createDisclosureData cryptosuite document proof s = (Return data, s') →
  ∃ options params g,
    inputs (st_heap s) cryptosuite document proof options params g
    ∧ ∀ n : nat,
        let mandatory := matching (mandatoryGroup g) in
        let selective := matching (selectiveGroup g) in
        let signatures := array_elements (Base.signatures params) in
        length signatures = length (nonMandatoryIndexes mandatory n) →
        let signed := zip (nonMandatoryIndexes mandatory n) signatures in
        let kept := filter (λ p, p.1 ∈ Map_keys selective) signed in
        dd_signatures data = kept.*2
        ∧ kept.*1 = disclosedNonMandatoryIndexes mandatory selective n.
Proof.
  intros H. apply createDisclosureData_returns in H
    as (options & params & g & selection & idMap & Hin & _ & _ & _ & _ & _
        & _ & Hsig & _).
  exists options, params, g. split; [done|].
  intros n mandatory selective signatures Hlen. rewrite Hsig.
  by apply filteredSignatures_walk.
Qed.

(** C2.  The [mandatoryIndexes] that [_createDisclosureData] returns are
    the positions, counted from 0 in the order in which the combined group
    is walked, of the combined absolute indexes that also belong to the
    mandatory group: a relative index is recorded exactly when the absolute
    index at that position is mandatory.  The list is strictly increasing
    and every element is less than the number of combined statements.  The
    groups are the ones [canonicalizeAndGroup] returned for the document
    and the pointers of the request. *)
Theorem mandatoryIndexes_relative cryptosuite document proof s data s' :
  createDisclosureData cryptosuite document proof s = (Return data, s') →
  ∃ options params g,
    inputs (st_heap s) cryptosuite document proof options params g
    ∧ (∀ r, r ∈ dd_mandatoryIndexes data ↔
            ∃ a, Map_keys (matching (combinedGroup g)) !! r = Some a
                 ∧ a ∈ Map_keys (matching (mandatoryGroup g)))
    ∧ StronglySorted lt (dd_mandatoryIndexes data)
    ∧ Forall (λ r, r < length (matching (combinedGroup g)))
        (dd_mandatoryIndexes data).
Proof.
  intros H. apply createDisclosureData_returns in H
    as (options & params & g & selection & idMap & Hin & _ & _ & _ & _ & _
        & _ & _ & _ & Hidx).
  exists options, params, g. split; [done|]. rewrite Hidx.
  apply mandatoryIndexes_walk.
Qed.

Lemma find_matching_heap (proofSet : list loc) (acc : M (option loc))
    s o s' :
  foldl (find_matching_step matchProof) acc proofSet s = (Return o, s') →
  ∃ o0 s0, acc s = (Return o0, s0) ∧ st_heap s' = st_heap s0
           ∧ (o = o0 ∨ ∃ p, o = Some p ∧ p ∈ proofSet).
Proof.
  revert acc o s'. induction proofSet as [|p ps IH]; intros acc o s' H.
  - simpl in H. exists o, s'. eauto.
  - simpl in H. apply IH in H as (o1 & s1 & H & Hheap & Ho).
    unfold find_matching_step in H.
    apply bind_Return_inv in H as (o0 & s0 & Hacc & H).
    rewrite run_get_heap, run_emit in H.
    exists o0, s0. split; [done|].
    destruct (matchProof _ _).
    + destruct o0; [discriminate|]. injection H as <- <-.
      split; [by rewrite Hheap|]. right.
      destruct Ho as [->|(q & -> & Hq)]; eexists; (split; [done|]);
        [left | by right].
    + injection H as <- <-. split; [by rewrite Hheap|].
      destruct Ho as [->|(q & -> & Hq)]; [by left|].
      right. eexists. split; [done | by right].
Qed.

Lemma findProof_heap proofId proofSet s p s' :
  _findProof matchProof proofId proofSet s = (Return p, s') →
  st_heap s' = st_heap s ∧ p ∈ proofSet.
Proof.
  unfold _findProof. intros H. rewrite run_get_heap in H.
  apply bind_Return_inv in H as (o & s1 & Hfind & H).
  destruct o as [q|]; [|discriminate]. injection H as <- <-.
  destruct (truthy proofId).
  - injection Hfind as Hfind <-. split; [done|].
    unfold find_by_id in Hfind. apply find_some in Hfind as [Hin _].
    by apply list_elem_of_In.
  - apply find_matching_heap in Hfind as (o0 & s0 & Hacc & Hheap & Ho).
    injection Hacc as <- <-. split; [done|].
    destruct Ho as [?|(q' & [= <-] & Hq)]; [discriminate | done].
Qed.

(** C9.  After a successful [_derive], every object that existed before
    the call, the base proof among them, has the fields it had.  The
    derived proof is a newly allocated object holding the base proof's
    fields with ['@context'] removed and [proofValue] replaced by the
    serialization of the disclosure data that [_createDisclosureData]
    returned for the base proof.  It is attached as [proof] to the revealed
    document, itself newly allocated: the document that [selectJsonLd]
    built from the original document and the mandatory and selective
    pointers together. *)
Theorem derive_keeps_base_proof cryptosuite document purpose proofSet
    s r s' :
  derive cryptosuite document purpose proofSet s = (Return r, s') →
  ∃ baseProof base newProof revealDoc selection proofValue,
    baseProof ∈ proofSet
    ∧ st_heap s !! baseProof = Some base
    ∧ (∀ l o, st_heap s !! l = Some o → st_heap s' !! l = Some o)
    ∧ st_heap s !! newProof = None
    ∧ st_heap s !! revealDoc = None
    ∧ newProof ≠ revealDoc
    ∧ r = VRef revealDoc
    ∧ st_heap s' !! newProof
      = Some (delete "@context"
                (<["proofValue" := VString proofValue]> base))
    ∧ st_heap s' !! revealDoc
      = Some (<["proof" := VRef newProof]> selection)
    ∧ ∃ data s1 s2 options params g,
        st_heap s1 = st_heap s
        ∧ createDisclosureData cryptosuite document (VRef baseProof) s1
          = (Return data, s2)
        ∧ dd_revealDoc data = VRef revealDoc
        ∧ serializeDisclosureProofValue base64url_decode base64url_encode
            cborg_encode Number_toString_ext (disclosed_params data)
          = Return proofValue
        ∧ inputs (st_heap s) cryptosuite document (VRef baseProof) options
            params g
        ∧ selectJsonLd (st_heap s) document
            (combinedPointers_of (st_heap s) options params)
          = Return (Some selection).
Proof.
  unfold _derive. intros H.
  walk H. call H options0 Eo; [|discriminate H].
  call H proofId Ei; [|discriminate H].
  apply bind_Return_inv in H as (baseProof & s1 & Hfind & H).
  apply findProof_heap in Hfind as [Hheap1 Hin].
  call H term Et; [|discriminate H].
  walk H; [discriminate H|].
  apply bind_Return_inv in H as (data & s2 & Hdata & H).
  pose proof Hdata as Hrun.
  apply createDisclosureData_returns in Hdata
    as (options & params & g & sel & idMap & Hinputs & _ & Hsel & _ & Hdoc
        & _).
  rewrite Hheap1 in Hinputs, Hsel, Hdoc.
  destruct (Hinputs) as [(_ & _ & _ & Hparse) _].
  apply parse_base_object in Hparse as [base Hbase].
  walk H. walk H.
  call H proofValue Ev; [|discriminate H].
  walk H. walk H. walk H.
  destruct sel as [selection|]; destruct Hdoc as [Href Hheap2].
  2:{ rewrite Href in H. discriminate H. }
  rewrite Href in H. walk H. stopped H.
  rewrite Hheap2. set (h := st_heap s) in *.
  set (revealDoc := fresh (dom h)) in *.
  set (h1 := <[revealDoc := selection]> h).
  set (newProof := fresh (dom h1)).
  assert (Hr : h !! revealDoc = None).
  { apply not_elem_of_dom, is_fresh. }
  assert (Hn1 : h1 !! newProof = None).
  { apply not_elem_of_dom, is_fresh. }
  assert (Hne : newProof ≠ revealDoc).
  { intros Heq. rewrite Heq in Hn1. unfold h1 in Hn1.
    by rewrite lookup_insert_eq in Hn1. }
  assert (Hn : h !! newProof = None).
  { unfold h1 in Hn1. by rewrite lookup_insert_ne in Hn1. }
  assert (Hb1 : h1 !! baseProof = Some base).
  { unfold h1. rewrite lookup_insert_ne; [done|]. congruence. }
  exists baseProof, base, newProof, revealDoc, selection, proofValue.
  split; [done|]. split; [done|]. split.
  { intros l o Hl.
    rewrite lookup_alter_ne by congruence.
    rewrite lookup_alter_ne by congruence.
    rewrite lookup_insert_ne by congruence.
    unfold h1. rewrite lookup_insert_ne by congruence. done. }
  split; [done|]. split; [done|]. split; [done|]. split; [done|]. split.
  { rewrite lookup_alter_ne by done.
    rewrite lookup_alter_eq, lookup_insert_eq, Hb1. reflexivity. }
  split.
  { rewrite lookup_alter_eq, lookup_alter_ne by done.
    rewrite lookup_insert_ne by done.
    unfold h1. by rewrite lookup_insert_eq. }
  exists data, s1, s2, options, params, g.
  split; [done|]. split; [done|]. split; [done|]. split; [exact Ev|].
  by split.
Qed.
End DiscloserFacts.

(** ** Concrete runs *)

Section Witnesses.
Import Reference Sample.

Abbreviation multiverify :=
  (Verify._multiverify string base58_encode SM2Multikey_from keyPair_verify
     stringToUtf8Bytes verify).
Abbreviation parseBase := (parseBaseProofValue base64url_decode cborg_decode).
Abbreviation parseDerived :=
  (parseDisclosureProofValue base64url_decode base64url_encode cborg_decode
     Number_toString_ext).
Abbreviation createDisclosureData :=
  (_createDisclosureData name base64url_decode cborg_decode ToNumber_ext value
     createHmac canonicalizeAndGroup selectJsonLd canonicalize
     stripBlankNodePrefixes).
Abbreviation derive :=
  (_derive name base64url_decode base64url_encode cborg_decode cborg_encode
     Number_toString_ext ToNumber_ext value createHmac canonicalizeAndGroup
     selectJsonLd canonicalize stripBlankNodePrefixes matchProof).

Lemma filteredSignatures_positional_witness :
  ∃ data s',
    createDisclosureData (VRef cryptosuite) (VRef document) (VRef baseProof)
      start = (Return data, s')
    ∧ dd_signatures data = [VBytes (replicate 64 x05)]
    ∧ disclosedNonMandatoryIndexes
        [(0, "_:b0 <p> <a> .")] [(2, "_:b0 <r> <c> .")] 3 = [2].
Proof.
  destruct (createDisclosureData (VRef cryptosuite) (VRef document)
              (VRef baseProof) start) as [o s'] eqn:Hrun.
  assert (Hok : ∃ data, o = Return data).
  { vm_compute in Hrun. injection Hrun as <- _. eauto. }
  destruct Hok as [data ->]. exists data, s'. split; [reflexivity|].
  destruct (filteredSignatures_positional name base64url_decode cborg_decode
              ToNumber_ext createHmac canonicalizeAndGroup selectJsonLd
              canonicalize stripBlankNodePrefixes _ _ _ _ _ _ Hrun)
    as (options & params & g & Hin & Hpos).
  destruct Hin as [(_ & _ & _ & Hparse) (hm & _ & Hg)].
  vm_compute in Hparse. injection Hparse as <-.
  unfold canonicalizeAndGroup in Hg. injection Hg as <-.
  destruct (Hpos 3 eq_refl) as [Hsig Hkept].
  split.
  - rewrite Hsig. vm_compute. reflexivity.
  - vm_compute. reflexivity.
Defined.

Lemma mandatoryIndexes_relative_witness :
  ∃ data s',
    createDisclosureData (VRef cryptosuite) (VRef document) (VRef baseProof)
      start = (Return data, s')
    ∧ (∀ r, r ∈ dd_mandatoryIndexes data ↔ r = 0)
    ∧ StronglySorted lt (dd_mandatoryIndexes data)
    ∧ Forall (λ r, r < 2) (dd_mandatoryIndexes data).
Proof.
  destruct (createDisclosureData (VRef cryptosuite) (VRef document)
              (VRef baseProof) start) as [o s'] eqn:Hrun.
  assert (Hok : ∃ data, o = Return data).
  { vm_compute in Hrun. injection Hrun as <- _. eauto. }
  destruct Hok as [data ->]. exists data, s'. split; [reflexivity|].
  destruct (mandatoryIndexes_relative name base64url_decode cborg_decode
              ToNumber_ext createHmac canonicalizeAndGroup selectJsonLd
              canonicalize stripBlankNodePrefixes _ _ _ _ _ _ Hrun)
    as (options & params & g & Hin & Hmem & Hsorted & Hbound).
  destruct Hin as [_ (hm & _ & Hg)].
  unfold canonicalizeAndGroup in Hg. injection Hg as <-.
  split; [|by split].
  intros r. rewrite Hmem. cbn. split.
  - intros (a & Ha & Hin). destruct r as [|[|r]]; [done| |done].
    injection Ha as <-. apply list_elem_of_singleton in Hin. discriminate Hin.
  - intros ->. exists 0. split; [done|]. apply list_elem_of_singleton.
    reflexivity.
Defined.

Lemma multiverify_count_mismatch_witness :
  ∃ e, multiverify (verify_data_with [sign "_:b0 <q> <b> ."]) start
       = (Throw e, State store [EvImportKey]).
Proof.
  destruct (multiverify_count_mismatch base58_encode SM2Multikey_from
              keyPair_verify stringToUtf8Bytes verify
              (verify_data_with [sign "_:b0 <q> <b> ."]) start)
    as (e & Hrun & _).
  - simpl. lia.
  - exists e. exact Hrun.
Defined.

Lemma multiverify_conjunction_witness :
  (multiverify (verify_data_with (sign <$> statements)) start).1 = Return true
  ∧ (multiverify (verify_data_with [sign "_:b0 <q> <b> ."; []]) start).1
    = Return false.
Proof.
  split.
  - rewrite (multiverify_conjunction base58_encode SM2Multikey_from
               keyPair_verify stringToUtf8Bytes verify
               (verify_data_with (sign <$> statements)) start
               ("z" +:+ base58_encode (replicate 35 x02))).
    + vm_compute. reflexivity.
    + vm_compute. reflexivity.
    + repeat split.
    + reflexivity.
  - rewrite (multiverify_conjunction base58_encode SM2Multikey_from
               keyPair_verify stringToUtf8Bytes verify
               (verify_data_with [sign "_:b0 <q> <b> ."; []]) start
               ("z" +:+ base58_encode (replicate 35 x02))).
    + vm_compute. reflexivity.
    + vm_compute. reflexivity.
    + repeat split.
    + reflexivity.
Defined.

Lemma labels_wire : wire_labelMap base64url_decode base64url_encode labels.
Proof.
  split.
  - simpl. apply NoDup_cons. split; [|apply NoDup_singleton].
    intros H%list_elem_of_singleton. discriminate H.
  - unfold labels, wire_entry.
    repeat (apply Forall_cons; split); try (by apply Forall_nil);
      (split; [reflexivity | split; vm_compute; reflexivity]).
Qed.

Lemma proof_value_roundtrip_witness :
  parseBase store (VRef baseProof) = Return base_params
  ∧ parseDerived store (VRef derivedProof) = Return derived_params
  ∧ _decompressLabelMap base64url_encode Number_toString_ext
      (compressed_labelMap labels) = Return (expanded_labelMap labels).
Proof.
  destruct (proof_value_roundtrip base64url_decode base64url_encode
              cborg_decode cborg_encode Number_toString_ext)
    as (Hbase & Hderived & Hlabels).
  split; [|split].
  - apply (Hbase base_params base_proofValue).
    + vm_compute. reflexivity.
    + intros body H. vm_compute in H. injection H as <-.
      vm_compute. reflexivity.
    + intros body enc H H'. vm_compute in H. injection H as <-.
      vm_compute in H'. injection H' as <-. vm_compute. reflexivity.
    + vm_compute. reflexivity.
  - apply (Hderived derived_params derived_proofValue labels labels).
    + vm_compute. reflexivity.
    + reflexivity.
    + exact labels_wire.
    + reflexivity.
    + intros body H. vm_compute in H. injection H as <-.
      vm_compute. reflexivity.
    + intros body enc H H'. vm_compute in H. injection H as <-.
      vm_compute in H'. injection H' as <-. vm_compute. reflexivity.
    + vm_compute. reflexivity.
  - apply (Hlabels labels), labels_wire.
Defined.



Lemma derive_keeps_base_proof_witness :
  ∃ r s', derive (VRef cryptosuite) (VRef document) (VRef purpose)
            [baseProof] start = (Return r, s')
          ∧ st_heap s' !! baseProof = store !! baseProof.
Proof.
  destruct (derive (VRef cryptosuite) (VRef document) (VRef purpose)
              [baseProof] start) as [o s'] eqn:Hrun.
  assert (Hok : ∃ r, o = Return r).
  { vm_compute in Hrun. injection Hrun as <- _. eauto. }
  destruct Hok as [r ->]. exists r, s'. split; [reflexivity|].
  destruct (derive_keeps_base_proof name base64url_decode base64url_encode
              cborg_decode cborg_encode Number_toString_ext ToNumber_ext
              createHmac canonicalizeAndGroup selectJsonLd canonicalize
              stripBlankNodePrefixes matchProof _ _ _ _ _ _ _ Hrun)
    as (b & base & _ & _ & _ & _ & Hin & Hb & Hframe & _).
  apply list_elem_of_singleton in Hin as ->.
  cbn [st_heap start] in Hb. rewrite Hb. by apply Hframe.
Defined.
(** C5, counterexample: a label whose index is 2^53 + 1 comes back from
    compression and decompression as the label of 2^53. *)
Lemma labelMap_roundtrip_loses_large_index :
  (_compressLabelMap base64url_decode Number_toString_ext
     (VMap [(VString "c14n9007199254740993", VString "uAA")])
   ≫= _decompressLabelMap base64url_encode Number_toString_ext)
  = Return (VMap [(VString "c14n9007199254740992", VString "uAA")])
  ∧ (_compressLabelMap base64url_decode Number_toString_ext
       (VMap [(VString "c14n9007199254740993", VString "uAA")])
     ≫= _decompressLabelMap base64url_encode Number_toString_ext)
    ≠ Return (VMap [(VString "c14n9007199254740993", VString "uAA")]).
Proof.
  assert (H : (_compressLabelMap base64url_decode Number_toString_ext
                 (VMap [(VString "c14n9007199254740993", VString "uAA")])
               ≫= _decompressLabelMap base64url_encode Number_toString_ext)
              = Return (VMap [(VString "c14n9007199254740992",
                               VString "uAA")])).
  { vm_compute. reflexivity. }
  split; [exact H|]. rewrite H. discriminate.
Qed.

(** C6, counterexample: a one-byte signature and a label-map entry that is
    neither a [c14n] label nor a multibase value pass validation, and the
    parameter set is serialized. *)
Lemma derived_validation_accepts_short_signature :
  _validateDerivedProofParams
    (Derived.Params (VBytes (replicate 64 x01)) (VBytes (replicate 35 x02))
       (VArray [VBytes [x00]])
       (VMap [(VString "node7", VString "?")])
       (VArray []))
  = Return tt
  ∧ ∃ s, serializeDisclosureProofValue base64url_decode base64url_encode
           cborg_encode Number_toString_ext
           (Derived.Params (VBytes (replicate 64 x01))
              (VBytes (replicate 35 x02)) (VArray [VBytes [x00]])
              (VMap [(VString "node7", VString "?")])
              (VArray []))
         = Return s.
Proof. split; [reflexivity|]. eexists. vm_compute. reflexivity. Qed.

Lemma derived_validation_checks_witness :
  serializeDisclosureProofValue base64url_decode base64url_encode
    cborg_encode Number_toString_ext
    (Derived.Params (VBytes (replicate 64 x01)) (VBytes (replicate 35 x02))
       (VArray []) (VMap []) (VArray [VNumber (NFloat 1 1)]))
  = Throw (must_be "mandatoryIndexes" "an array of integers").
Proof.
  apply (derived_validation_checks base64url_decode base64url_encode
           cborg_decode cborg_encode Number_toString_ext).
  reflexivity.
Defined.

Lemma prefix_checked_before_decode_witness :
  parseDerived store (VRef baseProof)
  = Throw (TypeError parse_error_message
             (Some (must_be "proof.proofValue" "a derived proof"))).
Proof.
  destruct (prefix_checked_before_decode base64url_decode base64url_encode
              cborg_decode Number_toString_ext store (VRef baseProof)
              (string_drop 1 base_proofValue)
              (CBOR_PREFIX_BASE
               ++ match cborg_encode (base_payload base_params) with
                  | Return b => b
                  | Throw _ => []
                  end))
    as (_ & _ & _ & Hexcl & Hderived & _).
  - vm_compute. reflexivity.
  - vm_compute. reflexivity.
  - apply Hderived, Hexcl. eexists. reflexivity.
Defined.

Lemma parse_failure_uniform_witness :
  ∃ cause, parseBase store VUndefined
           = Throw (TypeError parse_error_message (Some cause)).
Proof.
  apply (parse_failure_uniform base64url_decode base64url_encode
           cborg_decode Number_toString_ext store VUndefined).
  intros enc. discriminate.
Defined.
End Witnesses.

(** * Further properties *)

Section BaseValidationFacts.
Variable base64url_encode : value → outcome string.
Variable cborg_encode : value → outcome (list byte).

Lemma base_field_check_spec p f :
  base_field_check p f = true ↔ base_field_valid p f.
Proof.
  destruct f; simpl.
  - apply is_Uint8Array_of_length_spec.
  - apply is_Uint8Array_of_length_spec.
  - apply is_Uint8Array_of_length_spec.
  - apply is_array_every_spec. intros x. apply is_Uint8Array_of_length_spec.
  - apply is_array_every_spec, is_string_spec.
Qed.

Lemma validateBase_checks p :
  _validateBaseProofParams p
  = (throw_unless (base_field_check p BBaseSignature)
      (must_be "baseSignature" "a Uint8Array of length 64");;
    throw_unless (base_field_check p BPublicKey)
      (must_be "publicKey" "a Uint8Array of length 35");;
    throw_unless (base_field_check p BHmacKey)
      (must_be "hmacKey" "a Uint8Array of length 32");;
    throw_unless (base_field_check p BSignatures)
      (must_be "signatures" "an array of Uint8Arrays, each of length 64");;
    throw_unless (base_field_check p BMandatoryPointers)
      (must_be "mandatoryPointers" "an array of strings")).
Proof. reflexivity. Qed.

Lemma validateBase_accepts p :
  _validateBaseProofParams p = Return tt ↔ ∀ f, base_field_valid p f.
Proof.
  rewrite validateBase_checks. split.
  - intros H f. apply base_field_check_spec.
    destruct (base_field_check p BBaseSignature) eqn:E1; [|discriminate].
    destruct (base_field_check p BPublicKey) eqn:E2; [|discriminate].
    destruct (base_field_check p BHmacKey) eqn:E3; [|discriminate].
    destruct (base_field_check p BSignatures) eqn:E4; [|discriminate].
    destruct (base_field_check p BMandatoryPointers) eqn:E5; [|discriminate].
    by destruct f.
  - intros H.
    rewrite !(proj2 (base_field_check_spec p _) (H _)). reflexivity.
Qed.

Lemma validateBase_rejects p e :
  _validateBaseProofParams p = Throw e →
  ∃ f what, e = must_be (base_field_name f) what ∧ first_offending p f.
Proof.
  rewrite validateBase_checks. unfold first_offending, base_fields.
  intros H.
  destruct (base_field_check p BBaseSignature) eqn:E1.
  2:{ injection H as <-. exists BBaseSignature. eexists. split; [done|].
      exists [], [BPublicKey; BHmacKey; BSignatures; BMandatoryPointers].
      split; [done|]. split; [constructor|].
      rewrite <- base_field_check_spec. congruence. }
  destruct (base_field_check p BPublicKey) eqn:E2.
  2:{ injection H as <-. exists BPublicKey. eexists. split; [done|].
      exists [BBaseSignature], [BHmacKey; BSignatures; BMandatoryPointers].
      split; [done|]. split.
      - repeat constructor; by apply base_field_check_spec.
      - rewrite <- base_field_check_spec. congruence. }
  destruct (base_field_check p BHmacKey) eqn:E3.
  2:{ injection H as <-. exists BHmacKey. eexists. split; [done|].
      exists [BBaseSignature; BPublicKey], [BSignatures; BMandatoryPointers].
      split; [done|]. split.
      - repeat constructor; by apply base_field_check_spec.
      - rewrite <- base_field_check_spec. congruence. }
  destruct (base_field_check p BSignatures) eqn:E4.
  2:{ injection H as <-. exists BSignatures. eexists. split; [done|].
      exists [BBaseSignature; BPublicKey; BHmacKey], [BMandatoryPointers].
      split; [done|]. split.
      - repeat constructor; by apply base_field_check_spec.
      - rewrite <- base_field_check_spec. congruence. }
  destruct (base_field_check p BMandatoryPointers) eqn:E5; [discriminate|].
  injection H as <-. exists BMandatoryPointers. eexists. split; [done|].
  exists [BBaseSignature; BPublicKey; BHmacKey; BSignatures], [].
  split; [done|]. split.
  - repeat constructor; by apply base_field_check_spec.
  - rewrite <- base_field_check_spec. congruence.
Qed.

(** X1.  [_validateBaseProofParams] accepts a parameter set exactly when
    [baseSignature], [publicKey] and [hmacKey] are [Uint8Array]s of 64, 35
    and 32 bytes, [signatures] is an array of 64-byte [Uint8Array]s and
    [mandatoryPointers] an array of strings.  Otherwise it raises a
    [TypeError] that names the first field, in that order, to fail its
    check, and [serializeBaseProofValue] raises this error without
    encoding anything. *)
Theorem base_validation_checks (p : Base.params) :
  (_validateBaseProofParams p = Return tt ↔ ∀ f, base_field_valid p f)
  ∧ (∀ e, _validateBaseProofParams p = Throw e →
          (∃ f what, e = must_be (base_field_name f) what
                     ∧ first_offending p f)
          ∧ serializeBaseProofValue base64url_encode cborg_encode p = Throw e).
Proof.
  split; [apply validateBase_accepts|].
  intros e He. split; [by apply validateBase_rejects|].
  unfold serializeBaseProofValue. rewrite He. reflexivity.
Qed.
End BaseValidationFacts.

Section MapSetFacts.
Context {K V : Type} `{EqDecision K}.

Lemma Map_set_keys (k : K) (v : V) (m : list (K * V)) :
  (Map_set k v m).*1 = if bool_decide (k ∈ m.*1) then m.*1 else m.*1 ++ [k].
Proof.
  induction m as [|[k' v'] m IH]; [done|]. cbn [Map_set].
  destruct (decide (k' = k)) as [->|Hne].
  - rewrite !fmap_cons. cbn [fst]. rewrite bool_decide_eq_true_2 by left. done.
  - rewrite !fmap_cons, IH. cbn [fst].
    destruct (decide (k ∈ m.*1)) as [Hin|Hnin].
    + rewrite !bool_decide_eq_true_2; [done| by right | done].
    + rewrite !bool_decide_eq_false_2; [done| |done].
      intros [->|?]%elem_of_cons; [by apply Hne | by apply Hnin].
Qed.

Lemma Map_set_NoDup (k : K) (v : V) (m : list (K * V)) :
  NoDup m.*1 → NoDup (Map_set k v m).*1.
Proof.
  intros Hnd. rewrite Map_set_keys. case_bool_decide as Hin; [done|].
  apply NoDup_app. split; [done|]. split; [|apply NoDup_singleton].
  intros x Hx ->%list_elem_of_singleton. by apply Hin.
Qed.

Lemma Map_set_length (k : K) (v : V) (m : list (K * V)) :
  length (Map_set k v m) ≤ S (length m).
Proof.
  rewrite <- (length_fmap fst (Map_set k v m)), Map_set_keys.
  case_bool_decide; rewrite ?length_app, !length_fmap; simpl; lia.
Qed.

Lemma Map_get_set_eq (k : K) (v : V) (m : list (K * V)) :
  Map_get k (Map_set k v m) = Some v.
Proof.
  induction m as [|[k' v'] m IH]; simpl.
  - by rewrite decide_True.
  - destruct (decide (k' = k)) as [->|Hne]; simpl.
    + by rewrite decide_True.
    + by rewrite decide_False.
Qed.

Lemma Map_get_set_ne (k k0 : K) (v : V) (m : list (K * V)) :
  k ≠ k0 → Map_get k0 (Map_set k v m) = Map_get k0 m.
Proof.
  intros Hne. induction m as [|[k' v'] m IH]; simpl.
  - by rewrite decide_False.
  - destruct (decide (k' = k)) as [->|Hne']; simpl.
    + by rewrite !decide_False.
    + by rewrite IH.
Qed.

Lemma Map_set_elem (k : K) (v : V) (m : list (K * V)) x :
  x ∈ Map_set k v m → x = (k, v) ∨ x ∈ m.
Proof.
  induction m as [|[k' v'] m IH]; simpl.
  - intros ->%list_elem_of_singleton. by left.
  - destruct (decide (k' = k)) as [->|Hne].
    + intros [->|?]%elem_of_cons; [by left | right; by right].
    + intros [->|Hin]%elem_of_cons; [right; by left|].
      destruct (IH Hin); [by left | right; by right].
Qed.

(** The [Map] that a loop of [set] calls builds from [acc]. *)
Lemma Map_set_fold (l : list (K * V)) (acc : list (K * V)) :
  let m := foldl (λ m e, Map_set e.1 e.2 m) acc l in
  (NoDup acc.*1 → NoDup m.*1)
  ∧ length m ≤ length acc + length l
  ∧ (∀ k, k ∈ m.*1 ↔ k ∈ acc.*1 ∨ k ∈ l.*1)
  ∧ (∀ k v, written_last k v l → Map_get k m = Some v)
  ∧ (∀ k, k ∉ l.*1 → Map_get k m = Map_get k acc).
Proof.
  revert acc. induction l as [|[k0 v0] l IH]; intros acc; simpl.
  - split; [done|]. split; [lia|]. split.
    { intros k. rewrite elem_of_nil. tauto. }
    split; [|done].
    intros k v (l1 & l2 & Hl & _). by destruct l1.
  - destruct (IH (Map_set k0 v0 acc)) as (Hnd & Hlen & Hkeys & Hlast & Hframe).
    split; [intros; by apply Hnd, Map_set_NoDup|].
    split; [pose proof (Map_set_length k0 v0 acc); lia|].
    split.
    { intros k. rewrite Hkeys, Map_set_keys, elem_of_cons.
      case_bool_decide as Hin.
      - split; [tauto|]. intros [?|[->|?]]; tauto.
      - rewrite elem_of_app, list_elem_of_singleton. tauto. }
    split.
    + intros k v (l1 & l2 & Hl & Hnot). destruct l1 as [|e l1].
      * injection Hl as Hk Hv Hl. subst k0 v0 l2.
        rewrite Hframe by done. apply Map_get_set_eq.
      * injection Hl as He Hl. apply Hlast. by exists l1, l2.
    + intros k Hnot. rewrite not_elem_of_cons in Hnot.
      destruct Hnot as [Hne Hnot].
      rewrite Hframe by done. by apply Map_get_set_ne.
Qed.
End MapSetFacts.

Lemma outcome_bind_Throw_inv {A B} (m : outcome A) (k : A → outcome B) e :
  (m ≫= k) = Throw e → m = Throw e ∨ ∃ a, m = Return a ∧ k a = Throw e.
Proof. destruct m as [a|e0]; [eauto | intros [= ->]; by left]. Qed.

Section CompressLoop.
Variable base64url_decode : value → outcome (list byte).
Variable Number_toString_ext : number → string.

Lemma compress_entries_fold es acc m :
  foldl (λ acc kv,
           map ← acc;
           k4 ← slice kv.1 4;
           v1 ← slice kv.2 1;
           bytes ← base64url_decode v1;
           mret (Map_set
                   (parseInt10 (ToString Number_toString_ext k4)) bytes map))
    acc es = Return m →
  ∃ acc0 ces,
    acc = Return acc0
    ∧ Forall2 (λ kv e, compressed_entry base64url_decode Number_toString_ext kv
                       = Return e) es ces
    ∧ m = foldl (λ m e, Map_set e.1 e.2 m) acc0 ces.
Proof.
  revert acc. induction es as [|kv es IH]; intros acc; simpl.
  - intros ->. exists m, []. by repeat split.
  - intros H. apply IH in H as (acc1 & ces & Hacc & Hall & ->).
    apply outcome_bind_inv in Hacc as (acc0 & -> & Hacc).
    apply outcome_bind_inv in Hacc as (k4 & Hk4 & Hacc).
    apply outcome_bind_inv in Hacc as (v1 & Hv1 & Hacc).
    apply outcome_bind_inv in Hacc as (bytes & Hb & [= <-]).
    exists acc0, ((parseInt10 (ToString Number_toString_ext k4), bytes) :: ces).
    split; [done|]. split; [|done]. constructor; [|done].
    unfold compressed_entry. rewrite Hk4. step_outcome.
    rewrite Hv1. step_outcome. by rewrite Hb.
Qed.

(** X2.  When [_compressLabelMap] returns, every entry of the label map
    had a key and a value that could be sliced and a value whose tail
    base64url-decoded, and the result is a [Map] from numbers to byte
    strings without repeated keys.  Its keys are the numbers that
    [parseInt] read from the label-map keys, so it has at most as many
    entries as the label map, and where several labels give the same number
    the bytes of the last of them are kept. *)
Theorem compressLabelMap_keys (labelMap c : value) :
  _compressLabelMap base64url_decode Number_toString_ext labelMap = Return c →
  ∃ es ces m,
    entries labelMap = Return es
    ∧ Forall2 (λ kv e, compressed_entry base64url_decode Number_toString_ext
                         kv = Return e) es ces
    ∧ c = VMap ((λ kv, (VNumber kv.1, VBytes kv.2)) <$> m)
    ∧ NoDup m.*1
    ∧ length m ≤ length es
    ∧ (∀ n, n ∈ m.*1 ↔ n ∈ ces.*1)
    ∧ (∀ n b, written_last n b ces → Map_get n m = Some b).
Proof.
  unfold _compressLabelMap, compress_entries. intros H.
  apply outcome_bind_inv in H as (es & Hes & H).
  apply outcome_bind_inv in H as (m & Hm & [= <-]).
  apply compress_entries_fold in Hm as (acc0 & ces & [= <-] & Hall & ->).
  destruct (Map_set_fold ces (@nil (number * list byte)))
    as (Hnd & Hlen & Hkeys & Hlast & _).
  exists es, ces. eexists. split; [done|]. split; [done|].
  split; [reflexivity|]. split; [apply Hnd, NoDup_nil_2|].
  split; [rewrite (Forall2_length _ _ _ Hall); simpl in Hlen; lia|].
  split; [|done].
  intros n. rewrite Hkeys. simpl. rewrite elem_of_nil. tauto.
Qed.

End CompressLoop.

Section DecompressLoop.
Variable base64url_encode : value → outcome string.
Variable Number_toString_ext : number → string.

Lemma decompress_entries_fold es acc m :
  foldl (λ acc kv,
           map ← acc;
           enc ← base64url_encode kv.2;
           mret (Map_set ("c14n" +:+ ToString Number_toString_ext kv.1)
                         ("u" +:+ enc) map))
    acc es = Return m →
  ∃ acc0 des,
    acc = Return acc0
    ∧ Forall2 (λ kv e, decompressed_entry base64url_encode Number_toString_ext
                         kv = Return e) es des
    ∧ m = foldl (λ m e, Map_set e.1 e.2 m) acc0 des.
Proof.
  revert acc. induction es as [|kv es IH]; intros acc; simpl.
  - intros ->. exists m, []. by repeat split.
  - intros H. apply IH in H as (acc1 & des & Hacc & Hall & ->).
    apply outcome_bind_inv in Hacc as (acc0 & -> & Hacc).
    apply outcome_bind_inv in Hacc as (enc & Henc & [= <-]).
    exists acc0,
      (("c14n" +:+ ToString Number_toString_ext kv.1, "u" +:+ enc) :: des).
    split; [done|]. split; [|done]. constructor; [|done].
    unfold decompressed_entry. by rewrite Henc.
Qed.

(** X3.  When [_decompressLabelMap] returns, the result is a [Map] from
    strings to strings without repeated keys, which passes the label-map
    check of the validator: every key is ["c14n"] followed by the text of a
    key of the compressed map, and every value is ["u"] followed by the
    base64url text of its bytes. *)
Theorem decompressLabelMap_shape (compressed m : value) :
  _decompressLabelMap base64url_encode Number_toString_ext compressed
  = Return m →
  ∃ es des l,
    entries compressed = Return es
    ∧ Forall2 (λ kv e, decompressed_entry base64url_encode Number_toString_ext
                         kv = Return e) es des
    ∧ m = VMap ((λ kv, (VString kv.1, VString kv.2)) <$> l)
    ∧ NoDup l.*1
    ∧ (∀ e, e ∈ l → e ∈ des)
    ∧ is_string_Map m = true.
Proof.
  unfold _decompressLabelMap, decompress_entries. intros H.
  apply outcome_bind_inv in H as (es & Hes & H).
  apply outcome_bind_inv in H as (l & Hl & [= <-]).
  apply decompress_entries_fold in Hl as (acc0 & des & [= <-] & Hall & ->).
  destruct (Map_set_fold des (@nil (string * string)))
    as (Hnd & _ & _ & _ & _).
  exists es, des. eexists. split; [done|]. split; [done|].
  split; [reflexivity|]. split; [apply Hnd, NoDup_nil_2|]. split.
  - clear.
    assert (∀ acc e, e ∈ foldl (λ m e0, Map_set e0.1 e0.2 m) acc des →
                     e ∈ acc ∨ e ∈ des) as Hgen.
    { induction des as [|[k v] des IH]; intros acc e; simpl; [by left|].
      intros [Hin|Hin]%IH; [|right; by right].
      apply Map_set_elem in Hin as [->|Hin]; [right; left | by left]. }
    intros e [Hin|Hin]%Hgen; [by apply elem_of_nil in Hin | done].
  - simpl. rewrite forallb_fmap. by apply forallb_forall.
Qed.
End DecompressLoop.

Lemma serializeBaseVerifyData_Return p b :
  serializeBaseVerifyData p = Return b ↔
  ∃ ph pk mh,
    p = VerifyDataParams (VBytes ph) (VBytes pk) (VBytes mh)
    ∧ length ph = 32 ∧ length pk = 35 ∧ length mh = 32
    ∧ b = ph ++ pk ++ mh.
Proof.
  unfold serializeBaseVerifyData, _validateBaseVerifyDataParams.
  destruct p as [ph pk mh]. simpl. split.
  - destruct (is_Uint8Array_of_length 32 ph) eqn:E1; [|discriminate].
    destruct (is_Uint8Array_of_length 35 pk) eqn:E2; [|discriminate].
    destruct (is_Uint8Array_of_length 32 mh) eqn:E3; [|discriminate].
    apply is_Uint8Array_of_length_spec in E1 as (b1 & -> & H1).
    apply is_Uint8Array_of_length_spec in E2 as (b2 & -> & H2).
    apply is_Uint8Array_of_length_spec in E3 as (b3 & -> & H3).
    step_outcome. intros [= <-]. exists b1, b2, b3.
    simpl. by rewrite app_nil_r.
  - intros (b1 & b2 & b3 & [= -> -> ->] & H1 & H2 & H3 & ->).
    simpl. rewrite !bool_decide_eq_true_2 by done.
    step_outcome. simpl. by rewrite app_nil_r.
Qed.

Lemma serializeBaseVerifyData_Throw p e :
  serializeBaseVerifyData p = Throw e → e ∈ verifyData_errors.
Proof.
  unfold serializeBaseVerifyData, _validateBaseVerifyDataParams,
    verifyData_errors.
  destruct (is_Uint8Array_of_length 32 (vd_proofHash p));
    [|intros [= <-]; set_solver].
  destruct (is_Uint8Array_of_length 35 (vd_publicKey p));
    [|intros [= <-]; set_solver].
  destruct (is_Uint8Array_of_length 32 (vd_mandatoryHash p));
    [discriminate|].
  intros [= <-]. set_solver.
Qed.

(** X4.  [serializeBaseVerifyData] returns exactly when the proof hash, the
    public key and the mandatory hash are [Uint8Array]s of 32, 35 and 32
    bytes, and then returns their concatenation: 99 bytes from which the
    three fields are read back by position.  Otherwise it raises one of the
    three errors of its validator. *)
Theorem serializeBaseVerifyData_layout (p : verifyDataParams) :
  (∀ b, serializeBaseVerifyData p = Return b ↔
        ∃ ph pk mh,
          p = VerifyDataParams (VBytes ph) (VBytes pk) (VBytes mh)
          ∧ length ph = 32 ∧ length pk = 35 ∧ length mh = 32
          ∧ b = ph ++ pk ++ mh)
  ∧ (∀ b, serializeBaseVerifyData p = Return b →
          length b = 99
          ∧ p = VerifyDataParams (VBytes (take 32 b))
                  (VBytes (take 35 (drop 32 b))) (VBytes (drop 67 b)))
  ∧ (∀ e, serializeBaseVerifyData p = Throw e → e ∈ verifyData_errors).
Proof.
  split; [intros b; apply serializeBaseVerifyData_Return|]. split.
  - intros b (ph & pk & mh & -> & H1 & H2 & H3 & ->)%serializeBaseVerifyData_Return.
    split; [rewrite !length_app; lia|].
    rewrite take_app_length' by done.
    rewrite drop_app_length' by done.
    rewrite take_app_length' by done.
    rewrite app_assoc, drop_app_length' by (rewrite length_app; lia).
    done.
  - apply serializeBaseVerifyData_Throw.
Qed.

Section ParserShape.
Variable base64url_decode : value → outcome (list byte).
Variable base64url_encode : value → outcome string.
Variable cborg_decode : list byte → outcome value.
Variable cborg_encode : value → outcome (list byte).
Variable Number_toString_ext : number → string.

Lemma assertProofValue_Return h proof :
  _assertProofValue h proof = Return tt →
  ∃ enc, property_opt h proof "proofValue" = VString (String "u" enc).
Proof.
  unfold _assertProofValue.
  destruct (property_opt h proof "proofValue") as [| | | |s| | | |];
    try discriminate.
  destruct s as [|c s]; [discriminate|].
  destruct (ascii_dec c "u") as [->|Hc]; [eauto|].
  destruct c as [[] [] [] [] [] [] [] []]; try discriminate.
  by destruct Hc.
Qed.

(** What it takes for the envelope checks of a parser to pass. *)
Lemma envelope_Return h proof prefix proofValue :
  decode_proofValue base64url_decode h proof = Return proofValue →
  (_assertProofValue h proof;;
   proofValue ← decode_proofValue base64url_decode h proof;
   mret (_startsWithBytes proofValue prefix)) = Return true →
  ∃ enc body,
    property_opt h proof "proofValue" = VString (String "u" enc)
    ∧ base64url_decode (VString enc) = Return (prefix ++ body)
    ∧ proofValue = prefix ++ body.
Proof.
  intros Hd H.
  apply outcome_bind_inv in H as ([] & Ha & H).
  rewrite Hd in H. injection H as H.
  apply assertProofValue_Return in Ha as [enc Hpv].
  apply startsWithBytes_prefix in H as [body ->].
  exists enc, body. split; [done|]. split; [|done].
  by rewrite <- (decode_proofValue_tagged base64url_decode _ _ _ _ Hpv).
Qed.

Lemma throw_unless_Return c e : throw_unless c e = Return tt → c = true.
Proof. by destruct c. Qed.

Lemma parseBase_shape h proof p :
  parseBaseProofValue base64url_decode cborg_decode h proof = Return p →
  ∃ enc body decoded items,
    property_opt h proof "proofValue" = VString (String "u" enc)
    ∧ base64url_decode (VString enc) = Return (CBOR_PREFIX_BASE ++ body)
    ∧ cborg_decode body = Return decoded
    ∧ iterate decoded = Return items
    ∧ p = Base.Params (element items 0) (element items 1)
            (element items 2) (element items 3) (element items 4)
    ∧ ∀ f, base_field_valid p f.
Proof.
  unfold parseBaseProofValue, try_catch.
  destruct (parseBaseProofValue_try _ _ _ _) as [p'|] eqn:H; [|discriminate].
  intros [= ->]. unfold parseBaseProofValue_try in H.
  apply outcome_bind_inv in H as (pv & Hd & H).
  apply outcome_bind_inv in H as (isBase & Hb & H).
  apply outcome_bind_inv in H as ([] & ->%throw_unless_Return & H).
  apply outcome_bind_inv in H as (decoded & Hc & H).
  apply outcome_bind_inv in H as (items & Hi & H).
  apply outcome_bind_inv in H as ([] & Hv & [= <-]).
  destruct (envelope_Return _ _ _ _ Hd Hb) as (enc & body & Hpv & Hdec & ->).
  rewrite drop_app_length in Hc.
  exists enc, body, decoded, items. repeat (split; [done|]).
  by apply validateBase_accepts.
Qed.

Lemma parseDerived_shape h proof p :
  parseDisclosureProofValue base64url_decode base64url_encode cborg_decode
    Number_toString_ext h proof = Return p →
  ∃ enc body decoded items,
    property_opt h proof "proofValue" = VString (String "u" enc)
    ∧ base64url_decode (VString enc) = Return (CBOR_PREFIX_DERIVED ++ body)
    ∧ cborg_decode body = Return decoded
    ∧ iterate decoded = Return items
    ∧ _decompressLabelMap base64url_encode Number_toString_ext
        (element items 3) = Return (Derived.labelMap p)
    ∧ p = Derived.Params (element items 0) (element items 1)
            (element items 2) (Derived.labelMap p) (element items 4)
    ∧ ∀ f, field_valid f p.
Proof.
  unfold parseDisclosureProofValue, try_catch.
  destruct (parseDisclosureProofValue_try _ _ _ _ _ _) as [p'|] eqn:H;
    [|discriminate].
  intros [= ->]. unfold parseDisclosureProofValue_try in H.
  apply outcome_bind_inv in H as (pv & Hd & H).
  apply outcome_bind_inv in H as (isDerived & Hb & H).
  apply outcome_bind_inv in H as ([] & ->%throw_unless_Return & H).
  apply outcome_bind_inv in H as (decoded & Hc & H).
  apply outcome_bind_inv in H as (items & Hi & H).
  apply outcome_bind_inv in H as (labelMap & Hl & H).
  apply outcome_bind_inv in H as ([] & Hv & [= <-]).
  destruct (envelope_Return _ _ _ _ Hd Hb) as (enc & body & Hpv & Hdec & ->).
  rewrite drop_app_length in Hc.
  exists enc, body, decoded, items. repeat (split; [done|]).
  by apply validateDerived_accepts.
Qed.

(** X5.  A parser returns parameters only for a proof value that is a
    string starting with ['u'] whose base64url decoding starts with the
    parser's own prefix and whose remaining bytes CBOR-decode to an
    iterable; the parameters are the first five elements of it, with the
    label map decompressed in the derived case, and they pass the
    validator of their kind. *)
Theorem parsed_params_validated (h : heap) (proof : value) :
  (∀ p, parseBaseProofValue base64url_decode cborg_decode h proof = Return p →
        ∃ enc body decoded items,
          property_opt h proof "proofValue" = VString (String "u" enc)
          ∧ base64url_decode (VString enc) = Return (CBOR_PREFIX_BASE ++ body)
          ∧ cborg_decode body = Return decoded
          ∧ iterate decoded = Return items
          ∧ p = Base.Params (element items 0) (element items 1)
                  (element items 2) (element items 3) (element items 4)
          ∧ ∀ f, base_field_valid p f)
  ∧ (∀ p, parseDisclosureProofValue base64url_decode base64url_encode
            cborg_decode Number_toString_ext h proof = Return p →
          ∃ enc body decoded items,
            property_opt h proof "proofValue" = VString (String "u" enc)
            ∧ base64url_decode (VString enc)
              = Return (CBOR_PREFIX_DERIVED ++ body)
            ∧ cborg_decode body = Return decoded
            ∧ iterate decoded = Return items
            ∧ _decompressLabelMap base64url_encode Number_toString_ext
                (element items 3) = Return (Derived.labelMap p)
            ∧ p = Derived.Params (element items 0) (element items 1)
                    (element items 2) (Derived.labelMap p) (element items 4)
            ∧ ∀ f, field_valid f p).
Proof.
  split; intros p; [apply parseBase_shape | apply parseDerived_shape].
Qed.

Lemma serialized_envelope (prefix : list byte) (v : value) s h proof :
  (body ← cborg_encode v;
   enc ← base64url_encode (VBytes (_concatBuffers [prefix; body]));
   mret ("u" +:+ enc)) = Return s →
  base64url_inverts base64url_decode base64url_encode cborg_encode prefix v →
  property_opt h proof "proofValue" = VString s →
  ∃ enc body,
    property_opt h proof "proofValue" = VString (String "u" enc)
    ∧ base64url_decode (VString enc) = Return (prefix ++ body).
Proof.
  intros Hs Hb64 Hpv.
  apply outcome_bind_inv in Hs as (body & Hbody & Hs).
  apply outcome_bind_inv in Hs as (enc & Henc & [= <-]).
  unfold _concatBuffers in Henc. simpl in Henc. rewrite app_nil_r in Henc.
  exists enc, body. split; [done|]. by apply Hb64.
Qed.

Lemma kind_checks h proof enc bytes :
  property_opt h proof "proofValue" = VString (String "u" enc) →
  base64url_decode (VString enc) = Return bytes →
  _isBaseProofValue base64url_decode h proof
  = Return (_startsWithBytes bytes CBOR_PREFIX_BASE)
  ∧ _isDerivedProofValue base64url_decode h proof
    = Return (_startsWithBytes bytes CBOR_PREFIX_DERIVED).
Proof.
  intros Hpv Hdec.
  unfold _isBaseProofValue, _isDerivedProofValue, _assertProofValue.
  rewrite (decode_proofValue_tagged _ _ _ _ _ Hpv), Hdec, Hpv. done.
Qed.

Lemma parseDerived_rejects_prefix h proof enc bytes :
  property_opt h proof "proofValue" = VString (String "u" enc) →
  base64url_decode (VString enc) = Return bytes →
  ¬ CBOR_PREFIX_DERIVED `prefix_of` bytes →
  parseDisclosureProofValue base64url_decode base64url_encode cborg_decode
    Number_toString_ext h proof
  = Throw (TypeError parse_error_message
             (Some (must_be "proof.proofValue" "a derived proof"))).
Proof.
  intros Hpv Hdec Hpre%startsWithBytes_false.
  unfold parseDisclosureProofValue, parseDisclosureProofValue_try.
  rewrite (proj2 (kind_checks _ _ _ _ Hpv Hdec)).
  rewrite (decode_proofValue_tagged _ _ _ _ _ Hpv), Hdec.
  run_outcome. by rewrite Hpre.
Qed.

Lemma parseBase_rejects_prefix h proof enc bytes :
  property_opt h proof "proofValue" = VString (String "u" enc) →
  base64url_decode (VString enc) = Return bytes →
  ¬ CBOR_PREFIX_BASE `prefix_of` bytes →
  parseBaseProofValue base64url_decode cborg_decode h proof
  = Throw (TypeError parse_error_message
             (Some (must_be "proof.proofValue" "a base proof"))).
Proof.
  intros Hpv Hdec Hpre%startsWithBytes_false.
  unfold parseBaseProofValue, parseBaseProofValue_try.
  rewrite (proj1 (kind_checks _ _ _ _ Hpv Hdec)).
  rewrite (decode_proofValue_tagged _ _ _ _ _ Hpv), Hdec.
  run_outcome. by rewrite Hpre.
Qed.

Lemma prefixes_exclusive' (bytes : list byte) :
  CBOR_PREFIX_DERIVED `prefix_of` bytes → ¬ CBOR_PREFIX_BASE `prefix_of` bytes.
Proof. intros H H'. by apply (prefixes_exclusive bytes). Qed.

(** X6.  No proof value is both a base and a derived proof value.  What
    [serializeBaseProofValue] returns is a base proof value, which the
    derived-proof parser rejects because it is not a derived proof, and
    what [serializeDisclosureProofValue] returns is a derived proof value,
    which the base-proof parser rejects likewise, provided base64url
    decoding inverts the encoding of the serialized bytes. *)
Theorem proof_value_kinds_exclusive (h : heap) (proof : value) :
  ¬ (_isBaseProofValue base64url_decode h proof = Return true
     ∧ _isDerivedProofValue base64url_decode h proof = Return true)
  ∧ (∀ p s,
       serializeBaseProofValue base64url_encode cborg_encode p = Return s →
       base64url_inverts base64url_decode base64url_encode cborg_encode
         CBOR_PREFIX_BASE (base_payload p) →
       property_opt h proof "proofValue" = VString s →
       _isBaseProofValue base64url_decode h proof = Return true
       ∧ parseDisclosureProofValue base64url_decode base64url_encode
           cborg_decode Number_toString_ext h proof
         = Throw (TypeError parse_error_message
                    (Some (must_be "proof.proofValue" "a derived proof"))))
  ∧ (∀ p compressed s,
       serializeDisclosureProofValue base64url_decode base64url_encode
         cborg_encode Number_toString_ext p = Return s →
       _compressLabelMap base64url_decode Number_toString_ext
         (Derived.labelMap p) = Return compressed →
       base64url_inverts base64url_decode base64url_encode cborg_encode
         CBOR_PREFIX_DERIVED (derived_payload p compressed) →
       property_opt h proof "proofValue" = VString s →
       _isDerivedProofValue base64url_decode h proof = Return true
       ∧ parseBaseProofValue base64url_decode cborg_decode h proof
         = Throw (TypeError parse_error_message
                    (Some (must_be "proof.proofValue" "a base proof")))).
Proof.
  split; [|split].
  - intros [Hb Hd].
    pose proof Hb as Hb'. unfold _isBaseProofValue in Hb'.
    apply outcome_bind_inv in Hb' as ([] & Ha & Hb').
    apply outcome_bind_inv in Hb' as (pv & Hpv & _).
    destruct (envelope_Return _ _ _ _ Hpv Hb) as (? & body & _ & _ & Heq).
    destruct (envelope_Return _ _ _ _ Hpv Hd) as (? & body' & _ & _ & Heq').
    apply (prefixes_exclusive pv); [by exists body | by exists body'].
  - intros p s Hs Hb64 Hpv. unfold serializeBaseProofValue in Hs.
    apply outcome_bind_inv in Hs as ([] & _ & Hs).
    destruct (serialized_envelope _ _ _ _ _ Hs Hb64 Hpv)
      as (enc & body & Hpv' & Hdec).
    split.
    + rewrite (proj1 (kind_checks _ _ _ _ Hpv' Hdec)).
      by rewrite startsWithBytes_app.
    + eapply parseDerived_rejects_prefix; [done..|].
      apply prefixes_exclusive. by eexists.
  - intros p compressed s Hs Hc Hb64 Hpv.
    unfold serializeDisclosureProofValue in Hs.
    apply outcome_bind_inv in Hs as ([] & _ & Hs).
    rewrite Hc, outcome_bind_Return in Hs.
    destruct (serialized_envelope _ _ _ _ _ Hs Hb64 Hpv)
      as (enc & body & Hpv' & Hdec).
    split.
    + rewrite (proj2 (kind_checks _ _ _ _ Hpv' Hdec)).
      by rewrite startsWithBytes_app.
    + eapply parseBase_rejects_prefix; [done..|].
      apply prefixes_exclusive'. by eexists.
Qed.
End ParserShape.

Section MultiverifyRuns.
Context {keyPair : Type}.
Variable base58_encode : list byte → string.
Variable SM2Multikey_from : string → outcome keyPair.
Variable keyPair_verify : keyPair → list byte → list byte → bool.
Variable stringToUtf8Bytes : value → list byte.
Variable verifier_verify : list byte → list byte → bool.

Lemma multiverify_run data s k :
  SM2Multikey_from ("z" +:+ base58_encode (publicKey data)) = Return k →
  length (signatures data) = length (nonMandatory data) →
  _multiverify keyPair base58_encode SM2Multikey_from keyPair_verify
    stringToUtf8Bytes verifier_verify data s
  = let checked :=
      State (st_heap s)
        (st_trace s ++ statement_checks (length (signatures data))) in
    if forallb (λ p, keyPair_verify k (stringToUtf8Bytes (VString p.2)) p.1)
         (zip (signatures data) (nonMandatory data))
    then
      match serializeBaseVerifyData
              (VerifyDataParams (VBytes (proofHash data))
                 (VBytes (publicKey data)) (VBytes (mandatoryHash data))) with
      | Return toVerify =>
          (Return (verifier_verify toVerify (baseSignature data)),
           State (st_heap s) (st_trace checked ++ [EvVerifyBase]))
      | Throw e => (Throw e, checked)
      end
    else (Return false, checked).
Proof.
  intros Hk Hlen. unfold _multiverify. run_M.
  rewrite Hk. apply Nat.eqb_eq in Hlen as Hlen'. rewrite Hlen'. simpl.
  rewrite verify_statements_run. simpl.
  rewrite statement_results_zip by done.
  rewrite existsb_negb_forallb, forallb_fmap_id.
  unfold statement_checks. rewrite <- app_assoc. simpl.
  destruct (forallb _ _); simpl; [|done].
  by destruct (serializeBaseVerifyData _).
Qed.

(** X7.  When the statement key imports and the counts agree, a single
    statement signature that fails makes [_multiverify] return [false]; it
    has then still checked every statement signature, in index order, and
    has neither looked at the lengths of the hashes nor checked the base
    signature. *)
Theorem multiverify_statement_failure data s k i signature nq :
  SM2Multikey_from ("z" +:+ base58_encode (publicKey data)) = Return k →
  length (signatures data) = length (nonMandatory data) →
  signatures data !! i = Some signature →
  nonMandatory data !! i = Some nq →
  keyPair_verify k (stringToUtf8Bytes (VString nq)) signature = false →
  _multiverify keyPair base58_encode SM2Multikey_from keyPair_verify
    stringToUtf8Bytes verifier_verify data s
  = (Return false,
     State (st_heap s)
       (st_trace s ++ statement_checks (length (signatures data)))).
Proof.
  intros Hk Hlen Hs Hn Hfail. rewrite (multiverify_run _ _ k) by done.
  cbn zeta.
  destruct (forallb _ _) eqn:E; [|done].
  rewrite forallb_forall in E.
  assert (Hin : In (signature, nq) (zip (signatures data) (nonMandatory data))).
  { apply list_elem_of_In, list_elem_of_lookup. exists i.
    rewrite lookup_zip_with, Hs. simpl. by rewrite Hn. }
  apply E in Hin. simpl in Hin. congruence.
Qed.

(** X8.  When the statement key imports, the counts agree and every
    statement signature passes, the base signature is checked only if the
    proof hash, the public key and the mandatory hash have 32, 35 and 32
    bytes: then the check of the base signature over their concatenation
    is the last thing done and its result is returned; otherwise
    [_multiverify] raises the validator's error, after the statement
    checks and without checking the base signature. *)
Theorem multiverify_base_check data s k :
  SM2Multikey_from ("z" +:+ base58_encode (publicKey data)) = Return k →
  length (signatures data) = length (nonMandatory data) →
  forallb (λ p, keyPair_verify k (stringToUtf8Bytes (VString p.2)) p.1)
    (zip (signatures data) (nonMandatory data)) = true →
  let run := _multiverify keyPair base58_encode SM2Multikey_from
               keyPair_verify stringToUtf8Bytes verifier_verify data s in
  let checked := st_trace s ++ statement_checks (length (signatures data)) in
  (well_formed data →
   run = (Return (verifier_verify
                    (proofHash data ++ publicKey data ++ mandatoryHash data)
                    (baseSignature data)),
          State (st_heap s) (checked ++ [EvVerifyBase])))
  ∧ (¬ well_formed data →
     ∃ e, e ∈ verifyData_errors
          ∧ run = (Throw e, State (st_heap s) checked)).
Proof.
  intros Hk Hlen Hall run checked. subst run.
  rewrite (multiverify_run _ _ k) by done. cbn zeta. rewrite Hall.
  destruct (serializeBaseVerifyData _) as [b|e] eqn:E.
  - apply serializeBaseVerifyData_Return in E
      as (ph & pk & mh & [= <- <- <-] & H1 & H2 & H3 & ->).
    split; [done|]. intros Hnot. destruct Hnot. by repeat split.
  - split.
    + intros (H1 & H2 & H3).
      assert (serializeBaseVerifyData
                (VerifyDataParams (VBytes (proofHash data))
                   (VBytes (publicKey data)) (VBytes (mandatoryHash data)))
              = Return (proofHash data ++ publicKey data ++ mandatoryHash data))
        as Hr.
      { apply serializeBaseVerifyData_Return. by eexists _, _, _. }
      congruence.
    + intros _. exists e. split; [|done].
      by apply serializeBaseVerifyData_Throw in E.
Qed.
End MultiverifyRuns.

Lemma filter_all {A} (P : A → Prop) `{∀ x, Decision (P x)} (l : list A) :
  Forall P l → filter P l = l.
Proof.
  induction 1 as [|x l Hx Hl IH]; [done|].
  rewrite filter_cons_True by done. by rewrite IH.
Qed.

Section IndexWalkEdges.
Implicit Types mandatory selective combined : list (nat * string).

Lemma filter_from_sublist {A} mandatory selective (signatures : list A) i :
  filter_from mandatory selective i signatures `sublist_of` signatures.
Proof.
  revert i. induction signatures as [|sg rest IH]; intros i; simpl; [done|].
  destruct (Map_has _ selective);
    [apply sublist_skip | apply sublist_cons]; apply IH.
Qed.

Lemma filter_from_no_selective {A} mandatory (signatures : list A) i :
  filter_from mandatory [] i signatures = [].
Proof.
  revert i. induction signatures as [|sg rest IH]; intros i; simpl; [done|].
  apply IH.
Qed.

Lemma filteredSignatures_edges {A} mandatory selective
    (signatures : list A) :
  filteredSignatures mandatory selective signatures `sublist_of` signatures
  ∧ filteredSignatures mandatory [] signatures = []
  ∧ (∀ n, length signatures = length (nonMandatoryIndexes mandatory n) →
          (∀ a, a ∈ nonMandatoryIndexes mandatory n →
                a ∈ Map_keys selective) →
          filteredSignatures mandatory selective signatures = signatures).
Proof.
  split; [apply filter_from_sublist|].
  split; [apply filter_from_no_selective|].
  intros n Hlen Hall. unfold filteredSignatures.
  rewrite (filter_from_spec mandatory selective signatures 0 n)
    by (unfold nonMandatoryIndexes in Hlen; lia).
  fold (nonMandatoryIndexes mandatory n).
  rewrite filter_all.
  - apply snd_zip. lia.
  - apply Forall_forall. intros [a sg] Hin. simpl.
    apply Hall. apply elem_of_zip_l in Hin. done.
Qed.

Lemma recorded_all mandatory keys n :
  Forall (λ a, a ∈ Map_keys mandatory) keys →
  recorded mandatory n keys = seq n (length keys).
Proof.
  revert n. induction keys as [|a keys IH]; intros n Hall; simpl; [done|].
  apply Forall_cons in Hall as [Ha Hall].
  apply Map_has_true in Ha. rewrite Ha. simpl. by rewrite IH.
Qed.

Lemma recorded_none mandatory keys n :
  Forall (λ a, a ∉ Map_keys mandatory) keys →
  recorded mandatory n keys = [].
Proof.
  revert n. induction keys as [|a keys IH]; intros n Hall; simpl; [done|].
  apply Forall_cons in Hall as [Ha Hall].
  apply Map_has_false in Ha. rewrite Ha. simpl. by rewrite IH.
Qed.

Lemma recorded_length mandatory keys n :
  length (recorded mandatory n keys)
  = length (filter (λ a, a ∈ Map_keys mandatory) keys).
Proof.
  revert n. induction keys as [|a keys IH]; intros n; simpl; [done|].
  rewrite length_app, IH.
  destruct (Map_has a mandatory) eqn:E.
  - apply Map_has_true in E. by rewrite filter_cons_True.
  - apply Map_has_false in E. by rewrite filter_cons_False.
Qed.

Lemma mandatoryIndexes_walk_edges combined mandatory :
  length (compute_mandatoryIndexes combined mandatory)
  = length (filter (λ a, a ∈ Map_keys mandatory) (Map_keys combined))
  ∧ (Forall (λ a, a ∈ Map_keys mandatory) (Map_keys combined) →
     compute_mandatoryIndexes combined mandatory = seq 0 (length combined))
  ∧ (Forall (λ a, a ∉ Map_keys mandatory) (Map_keys combined) →
     compute_mandatoryIndexes combined mandatory = []).
Proof.
  unfold compute_mandatoryIndexes. rewrite mandatoryIndexes_fold. simpl.
  split; [apply recorded_length|]. split.
  - intros H. rewrite recorded_all by done.
    unfold Map_keys. by rewrite length_fmap.
  - apply recorded_none.
Qed.
End IndexWalkEdges.

Lemma objects_kept_refl h : objects_kept h h.
Proof. by intros l o. Qed.

Lemma objects_kept_insert (h : heap) l o :
  h !! l = None → objects_kept h (<[l := o]> h).
Proof.
  intros Hl l' o' H'. rewrite lookup_insert_ne; [done|]. congruence.
Qed.

Lemma objects_kept_alter (h h' : heap) f l :
  h !! l = None → objects_kept h h' → objects_kept h (alter f l h').
Proof.
  intros Hl Hk l' o' H'. rewrite lookup_alter_ne; [by apply Hk|]. congruence.
Qed.

Lemma objects_kept_trans (h1 h2 h3 : heap) :
  objects_kept h1 h2 → objects_kept h2 h3 → objects_kept h1 h3.
Proof. intros H12 H23 l o H. by apply H23, H12. Qed.

Section FindProofFacts.
Variable matchProof : heap → loc → bool.

Lemma find_matching_run (proofSet : list loc) s :
  ∃ examined,
    examined `prefix_of` proofSet
    ∧ (length (filter (λ p, matchProof (st_heap s) p = true) proofSet) ≤ 1 →
       examined = proofSet)
    ∧ foldl (find_matching_step matchProof) (mret None) proofSet s
      = (match filter (λ p, matchProof (st_heap s) p = true) proofSet with
         | [] => Return None
         | [p] => Return (Some p)
         | _ => Throw multiple_matching_proofs
         end,
         State (st_heap s) (st_trace s ++ (EvMatchProof <$> examined))).
Proof.
  induction proofSet as [|p ps IH] using rev_ind.
  - exists []. split; [done|]. split; [done|]. simpl.
    rewrite app_nil_r. by destruct s.
  - destruct IH as (examined & Hpre & Hall & Hrun).
    rewrite foldl_app, filter_app. cbn [foldl].
    unfold find_matching_step at 1.
    unfold mbind at 1, M_bind at 1. rewrite Hrun.
    destruct (filter (λ p, matchProof (st_heap s) p = true) ps)
      as [|q [|q' qs]] eqn:Ef.
    + rewrite (Hall ltac:(simpl; lia)).
      exists (ps ++ [p]). split; [done|]. split; [done|].
      rewrite run_get_heap, run_emit. cbn [st_heap st_trace].
      rewrite fmap_app, app_assoc. simpl.
      destruct (matchProof (st_heap s) p) eqn:Em.
      * rewrite filter_cons_True by done. done.
      * rewrite filter_cons_False by congruence. done.
    + rewrite (Hall ltac:(simpl; lia)).
      rewrite run_get_heap, run_emit. cbn [st_heap st_trace].
      exists (ps ++ [p]). split; [done|]. split; [done|].
      rewrite fmap_app, app_assoc. simpl.
      destruct (matchProof (st_heap s) p) eqn:Em.
      * rewrite filter_cons_True by done. done.
      * rewrite filter_cons_False by congruence. done.
    + exists examined. split; [by apply prefix_app_r|]. split.
      { rewrite length_app. simpl. lia. }
      done.
Qed.

Lemma find_by_id_first h proofId before p after :
  Forall (λ q, strict_eq (property_opt h (VRef q) "id") proofId = false)
    before →
  strict_eq (property_opt h (VRef p) "id") proofId = true →
  find_by_id h proofId (before ++ p :: after) = Some p.
Proof.
  intros Hb Hp. unfold find_by_id.
  induction Hb as [|q before Hq _ IH]; cbn [app List.find].
  - by rewrite Hp.
  - by rewrite Hq.
Qed.

Lemma find_by_id_none h proofId proofSet :
  Forall (λ q, strict_eq (property_opt h (VRef q) "id") proofId = false)
    proofSet →
  find_by_id h proofId proofSet = None.
Proof.
  intros Hb. unfold find_by_id.
  induction Hb as [|q ps Hq _ IH]; cbn [List.find]; [done|]. by rewrite Hq.
Qed.

(** X11.  Given a [proofId], [_findProof] returns the first proof of the
    proof set whose [id] is strictly equal to it, and raises when there is
    none; either way [matchProof] is not consulted and the state is left as
    it was. *)
Theorem findProof_by_id proofId proofSet s :
  truthy proofId = true →
  (∀ before p after,
     proofSet = before ++ p :: after →
     Forall (λ q, strict_eq (property_opt (st_heap s) (VRef q) "id") proofId
                  = false) before →
     strict_eq (property_opt (st_heap s) (VRef p) "id") proofId = true →
     _findProof matchProof proofId proofSet s = (Return p, s))
  ∧ (Forall (λ q, strict_eq (property_opt (st_heap s) (VRef q) "id") proofId
                  = false) proofSet →
     _findProof matchProof proofId proofSet s = (Throw no_matching_proof, s)).
Proof.
  intros Ht. unfold _findProof. rewrite run_get_heap, Ht. split.
  - intros before p after -> Hb Hp.
    unfold mbind, M_bind, mret, M_ret.
    by rewrite (find_by_id_first _ _ _ _ _ Hb Hp).
  - intros Hb. unfold mbind, M_bind, mret, M_ret.
    by rewrite (find_by_id_none _ _ _ Hb).
Qed.

(** X12.  Without a [proofId], [_findProof] asks [matchProof] about the
    proofs of the proof set in order.  It returns the matching proof when
    exactly one matches and raises when none does, having asked about every
    proof; when more than one matches it raises the error that calls for a
    [proofId].  The heap is never changed. *)
Theorem findProof_by_match proofId proofSet s :
  truthy proofId = false →
  let run := _findProof matchProof proofId proofSet s in
  let asked l := State (st_heap s) (st_trace s ++ (EvMatchProof <$> l)) in
  match filter (λ p, matchProof (st_heap s) p = true) proofSet with
  | [] => run = (Throw no_matching_proof, asked proofSet)
  | [p] => run = (Return p, asked proofSet)
  | _ => ∃ examined, examined `prefix_of` proofSet
                     ∧ run = (Throw multiple_matching_proofs, asked examined)
  end.
Proof.
  intros Ht run asked.
  destruct (find_matching_run proofSet s) as (examined & Hpre & Hall & Hrun).
  assert (run = match filter (λ p, matchProof (st_heap s) p = true)
                        proofSet with
                | [] => (Throw no_matching_proof, asked examined)
                | [p] => (Return p, asked examined)
                | _ => (Throw multiple_matching_proofs, asked examined)
                end) as Hr.
  { subst run. unfold _findProof. rewrite run_get_heap, Ht.
    unfold mbind at 1, M_bind at 1. rewrite Hrun.
    by destruct (filter _ proofSet) as [|q [|q' qs]]. }
  rewrite Hr. clear Hr Hrun.
  destruct (filter (λ p, matchProof (st_heap s) p = true) proofSet)
    as [|q [|q' qs]].
  - by rewrite (Hall ltac:(simpl; lia)).
  - by rewrite (Hall ltac:(simpl; lia)).
  - exists examined. done.
Qed.

Lemma findProof_run proofId proofSet s o s' :
  _findProof matchProof proofId proofSet s = (o, s') →
  st_heap s' = st_heap s
  ∧ (∀ p, o = Return p →
          p ∈ proofSet
          ∧ st_trace s'
            = st_trace s ++ (EvMatchProof <$> proofs_examined proofId proofSet)).
Proof.
  unfold _findProof, proofs_examined. rewrite run_get_heap.
  destruct (truthy proofId).
  - unfold mbind, M_bind, mret, M_ret.
    destruct (find_by_id (st_heap s) proofId proofSet) as [q|] eqn:E.
    + intros [= <- <-]. split; [done|]. intros p [= <-].
      split; [|by rewrite app_nil_r].
      unfold find_by_id in E. apply find_some in E as [Hin _].
      by apply list_elem_of_In.
    + intros [= <- <-]. split; [done|]. intros; discriminate.
  - destruct (find_matching_run proofSet s) as (examined & Hpre & Hall & Hrun).
    unfold mbind at 1, M_bind at 1. rewrite Hrun.
    destruct (filter (λ p, matchProof (st_heap s) p = true) proofSet)
      as [|q [|q' qs]] eqn:Ef.
    + intros [= <- <-]. split; [done|]. intros; discriminate.
    + intros [= <- <-]. split; [done|]. intros p [= <-].
      rewrite (Hall ltac:(simpl; lia)). split; [|done].
      assert (q ∈ filter (λ p, matchProof (st_heap s) p = true) proofSet)
        as Hin by (rewrite Ef; left).
      by apply list_elem_of_filter in Hin as [_ Hin].
    + intros [= <- <-]. split; [done|]. intros; discriminate.
Qed.
End FindProofFacts.


Section DiscloserRuns.
Variable name : string.
Variable base64url_decode : value → outcome (list byte).
Variable base64url_encode : value → outcome string.
Variable cborg_decode : list byte → outcome value.
Variable cborg_encode : value → outcome (list byte).
Variable Number_toString_ext : number → string.
Variable ToNumber_ext : heap → value → outcome number.
Context {hmac : Type}.
Variable createHmac : value → outcome hmac.
Variable canonicalizeAndGroup :
  heap → value → hmac → value → value → value → outcome grouping.
Variable selectJsonLd : heap → value → value → outcome (option object).
Variable canonicalize : string → outcome (list (string * string)).
Variable stripBlankNodePrefixes :
  list (string * string) → list (string * string).
Variable matchProof : heap → loc → bool.

Abbreviation createDisclosureData :=
  (_createDisclosureData name base64url_decode cborg_decode ToNumber_ext hmac
     createHmac canonicalizeAndGroup selectJsonLd canonicalize
     stripBlankNodePrefixes).
Abbreviation derive :=
  (_derive name base64url_decode base64url_encode cborg_decode cborg_encode
     Number_toString_ext ToNumber_ext hmac createHmac canonicalizeAndGroup
     selectJsonLd canonicalize stripBlankNodePrefixes matchProof).
Abbreviation inputs :=
  (disclosure_inputs name base64url_decode cborg_decode createHmac
     canonicalizeAndGroup).

Lemma createDisclosureData_guards cryptosuite document proof s o s' :
  createDisclosureData cryptosuite document proof s = (o, s') →
  (s' = s ∧ ∃ e, o = Throw e)
  ∨ (∃ options params,
       reaches_selection_check name base64url_decode cborg_decode (st_heap s)
         cryptosuite proof options params
       ∧ (∀ f, base_field_valid params f)
       ∧ something_selected ToNumber_ext (st_heap s)
           (Base.mandatoryPointers params)
           (selectivePointers_of (st_heap s) options) = Return true
       ∧ (st_trace s ++ [EvCreateHmac]) `prefix_of` st_trace s').
Proof.
  unfold _createDisclosureData. intros H.
  walk H. walk H; [stopped H; left; eauto|].
  apply negb_false_iff, strict_eq_string in E.
  call H options Eo; [|stopped H; left; eauto].
  walk H; [stopped H; left; eauto|].
  apply negb_false_iff in E0.
  call H params Ep; [|stopped H; left; eauto].
  fold (selectivePointers_of (st_heap s) options) in H.
  call H chosen Esel; [|stopped H; left; eauto].
  walk H; [stopped H; left; eauto|].
  apply negb_false_iff in E1. subst chosen.
  right. exists options, params. split; [by repeat split|]. split.
  { by destruct (parseBase_shape _ _ _ _ _ Ep)
      as (? & ? & ? & ? & _ & _ & _ & _ & _ & ?). }
  split; [done|].
  walk H.
  match type of H with
  | ?k ?s1 = _ => assert (Happ : appends_trace k) by solve_appends
  end.
  exact (Happ _ _ _ H).
Qed.
(** X13.  [_createDisclosureData] calls no collaborator before its guards
    have passed.  A run either raises with the heap and the trace
    untouched, or the cryptosuite has the suite's name and an [options]
    object, the proof value has parsed as a base proof whose parameters
    pass validation, the test [mandatoryPointers?.length > 0 ||
    selectivePointers?.length > 0] has come out true, and the first
    collaborator called is [createHmac]. *)
Theorem disclosure_guards_first cryptosuite document proof s o s' :
  createDisclosureData cryptosuite document proof s = (o, s') →
  (s' = s ∧ ∃ e, o = Throw e)
  ∨ (∃ options params,
       reaches_selection_check name base64url_decode cborg_decode (st_heap s)
         cryptosuite proof options params
       ∧ (∀ f, base_field_valid params f)
       ∧ something_selected ToNumber_ext (st_heap s)
           (Base.mandatoryPointers params)
           (selectivePointers_of (st_heap s) options) = Return true
       ∧ (st_trace s ++ [EvCreateHmac]) `prefix_of` st_trace s').
Proof. apply createDisclosureData_guards. Qed.

(** X9.  The signatures [_createDisclosureData] returns are a subsequence
    of the signatures of the base proof it parsed, whatever the groups
    that [canonicalizeAndGroup] returned and however many signatures there
    are.  With an empty selective group none is returned, and when every
    non-mandatory statement of the document is in the selective group all
    of them are. *)
Theorem filteredSignatures_subsequence cryptosuite document proof s data s' :
  createDisclosureData cryptosuite document proof s = (Return data, s') →
  ∃ options params g,
    inputs (st_heap s) cryptosuite document proof options params g
    ∧ dd_signatures data
        `sublist_of` array_elements (Base.signatures params)
    ∧ (matching (selectiveGroup g) = [] → dd_signatures data = [])
    ∧ (∀ n,
         length (array_elements (Base.signatures params))
         = length (nonMandatoryIndexes (matching (mandatoryGroup g)) n) →
         (∀ a, a ∈ nonMandatoryIndexes (matching (mandatoryGroup g)) n →
               a ∈ Map_keys (matching (selectiveGroup g))) →
         dd_signatures data = array_elements (Base.signatures params)).
Proof.
  intros H. apply createDisclosureData_returns in H
    as (options & params & g & selection & idMap & Hin & _ & _ & _ & _ & _
        & _ & Hsig & _).
  exists options, params, g. split; [done|]. rewrite Hsig.
  destruct (filteredSignatures_edges (matching (mandatoryGroup g))
              (matching (selectiveGroup g))
              (array_elements (Base.signatures params)))
    as (Hsub & Hnone & Hall).
  split; [done|]. split; [by intros ->|]. exact Hall.
Qed.

(** X10.  [_createDisclosureData] returns as many mandatory indexes as
    there are statements in the combined group that [canonicalizeAndGroup]
    returned which are also in its mandatory group.  When every combined
    statement is mandatory, as when nothing is selected beyond the
    mandatory pointers, the indexes are [0 .. k-1] for the [k] combined
    statements; when none is, there are no indexes. *)
Theorem mandatoryIndexes_edges cryptosuite document proof s data s' :
  createDisclosureData cryptosuite document proof s = (Return data, s') →
  ∃ options params g,
    inputs (st_heap s) cryptosuite document proof options params g
    ∧ length (dd_mandatoryIndexes data)
      = length (filter (λ a, a ∈ Map_keys (matching (mandatoryGroup g)))
                  (Map_keys (matching (combinedGroup g))))
    ∧ (Forall (λ a, a ∈ Map_keys (matching (mandatoryGroup g)))
         (Map_keys (matching (combinedGroup g))) →
       dd_mandatoryIndexes data
       = seq 0 (length (matching (combinedGroup g))))
    ∧ (Forall (λ a, a ∉ Map_keys (matching (mandatoryGroup g)))
         (Map_keys (matching (combinedGroup g))) →
       dd_mandatoryIndexes data = []).
Proof.
  intros H. apply createDisclosureData_returns in H
    as (options & params & g & selection & idMap & Hin & _ & _ & _ & _ & _
        & _ & _ & _ & Hidx).
  exists options, params, g. split; [done|]. rewrite Hidx.
  apply mandatoryIndexes_walk_edges.
Qed.

Lemma createDisclosureData_objects cryptosuite document proof s o s' :
  createDisclosureData cryptosuite document proof s = (o, s') →
  st_heap s' = st_heap s
  ∨ ∃ selection,
      st_heap s' = <[fresh (dom (st_heap s)) := selection]> (st_heap s).
Proof.
  unfold _createDisclosureData. intros H.
  walk H. walk H; [stopped H; by left|].
  call H options Eo; [|stopped H; by left].
  walk H; [stopped H; by left|].
  call H params Ep; [|stopped H; by left].
  call H chosen Esel; [|stopped H; by left].
  walk H; [stopped H; by left|].
  walk H. call H hm Eh; [|stopped H; by left].
  walk H. call H g Eg; [|stopped H; by left].
  walk H. call H selection Es; [|stopped H; by left].
  destruct selection as [selection|].
  - apply bind_inv in H as [(r & s1 & Hr & H)|(e & Hr & _)];
      [|rewrite run_alloc in Hr; discriminate Hr].
    rewrite run_alloc in Hr. stopped Hr.
    walk H. call H idMap Ei; stopped H; right; by exists selection.
  - apply bind_inv in H as [(r & s1 & Hr & H)|(e & Hr & _)];
      [|discriminate Hr].
    stopped Hr. walk H. call H idMap Ei; stopped H; by left.
Qed.

Lemma createDisclosureData_calls cryptosuite document proof s data s' :
  createDisclosureData cryptosuite document proof s = (Return data, s') →
  st_trace s' = st_trace s ++ disclosure_calls.
Proof.
  unfold _createDisclosureData, disclosure_calls. intros H.
  walk H. walk H; [discriminate H|].
  call H options Eo; [|discriminate H].
  walk H; [discriminate H|].
  call H params Ep; [|discriminate H].
  call H chosen Esel; [|discriminate H].
  walk H; [discriminate H|].
  walk H. call H hm Eh; [|discriminate H].
  walk H. call H g Eg; [|discriminate H].
  walk H. call H selection Es; [|discriminate H].
  assert (∀ (k : value → M disclosureData) s1,
            (match selection with
             | Some o => l ← alloc o; mret (VRef l)
             | None => mret VNull
             end ≫= k) s1 = (Return data, s') →
            ∃ r s2, st_trace s2 = st_trace s1 ∧ k r s2 = (Return data, s'))
    as Hsel.
  { intros k s1 Hk. destruct selection as [sel|].
    - apply bind_Return_inv in Hk as (r & s2 & Hr & Hk).
      rewrite run_alloc in Hr. stopped Hr. eexists _, _. by split; [|done].
    - apply bind_Return_inv in Hk as (r & s2 & Hr & Hk).
      stopped Hr. eexists _, _. by split; [|done]. }
  apply Hsel in H as (r & s2 & Ht & H). cbn [st_trace] in Ht.
  walk H. call H idMap Ei; [|discriminate H]. stopped H.
  rewrite Ht, <- !app_assoc. reflexivity.
Qed.

(** X14.  However a run of [_derive] ends, with a document or with an
    error raised at any point, every object that was in the heap before the
    call is still there with the fields it had: the only objects written
    to are ones the run itself has allocated. *)
Theorem derive_keeps_objects cryptosuite document purpose proofSet s o s' :
  derive cryptosuite document purpose proofSet s = (o, s') →
  objects_kept (st_heap s) (st_heap s').
Proof.
  unfold _derive. intros H.
  walk H. call H options Eo; [|stopped H; apply objects_kept_refl].
  call H proofId Ei; [|stopped H; apply objects_kept_refl].
  apply bind_inv in H as [(baseProof & s1 & Hfind & H)|(e & Hfind & _)].
  2:{ apply findProof_run in Hfind as [-> _]. apply objects_kept_refl. }
  apply findProof_run in Hfind as [Hheap _].
  call H term Et; [|stopped H; rewrite Hheap; apply objects_kept_refl].
  walk H; [stopped H; rewrite Hheap; apply objects_kept_refl|].
  apply bind_inv in H as [(data & s2 & Hdata & H)|(e & Hdata & _)].
  2:{ apply createDisclosureData_objects in Hdata as [->|[sel ->]];
        rewrite Hheap; [apply objects_kept_refl|].
      apply objects_kept_insert, not_elem_of_dom, is_fresh. }
  pose proof (createDisclosureData_objects _ _ _ _ _ _ Hdata) as Hobj.
  apply createDisclosureData_heap in Hdata as [_ Hreveal].
  rewrite Hheap in Hobj, Hreveal.
  set (h := st_heap s) in *.
  assert (objects_kept h (st_heap s2)) as Hkept.
  { destruct Hobj as [->|[sel ->]]; [apply objects_kept_refl|].
    apply objects_kept_insert, not_elem_of_dom, is_fresh. }
  walk H. walk H.
  set (newProof := fresh (dom (st_heap s2))) in *.
  assert (h !! newProof = None) as Hnew.
  { destruct (h !! newProof) as [obj|] eqn:El; [|done].
    apply Hkept in El.
    assert (st_heap s2 !! newProof = None) as Hn
      by apply not_elem_of_dom, is_fresh.
    congruence. }
  assert (objects_kept h (<[newProof := default ∅ (st_heap s2 !! baseProof)]>
                            (st_heap s2))) as Hkept'.
  { intros l obj Hl. rewrite lookup_insert_ne by congruence. by apply Hkept. }
  call H proofValue Ev; [|by stopped H].
  walk H. walk H. walk H.
  destruct Hreveal as [[Hnull _] | (selection & pointers & _ & Href & Hheap2)].
  - rewrite Hnull in H. stopped H. by apply objects_kept_alter.
  - rewrite Href in H. walk H. stopped H.
    apply objects_kept_alter; [apply not_elem_of_dom, is_fresh|].
    by apply objects_kept_alter.
Qed.

Lemma findProof_asks proofId proofSet s o s' :
  _findProof matchProof proofId proofSet s = (o, s') →
  ∃ examined,
    examined `prefix_of` proofSet
    ∧ s' = State (st_heap s) (st_trace s ++ (EvMatchProof <$> examined)).
Proof.
  unfold _findProof. rewrite run_get_heap. intros H.
  destruct (truthy proofId).
  - exists []. split; [apply prefix_nil|]. simpl. rewrite app_nil_r.
    revert H. unfold mbind, M_bind, mret, M_ret.
    destruct (find_by_id _ _ _); intros [= <- <-]; by destruct s.
  - destruct (find_matching_run matchProof proofSet s)
      as (examined & Hpre & _ & Hrun).
    exists examined. split; [done|].
    revert H. unfold mbind at 1, M_bind at 1. rewrite Hrun.
    destruct (filter _ proofSet) as [|q [|q' qs]]; by intros [= <- <-].
Qed.

End DiscloserRuns.

Section PartitionFacts.
Import VerifyData.

Lemma partition_fold idxs nquads n mandatory nonMandatory :
  foldl (partition_step idxs) (mandatory, nonMandatory)
    (imap (λ i, pair (n + i)) nquads)
  = (mandatory
       ++ statements_where (λ i, Array_includes idxs (index_value i)) n nquads,
     nonMandatory
       ++ statements_where (λ i, negb (Array_includes idxs (index_value i)))
            n nquads).
Proof.
  revert n mandatory nonMandatory.
  induction nquads as [|nq rest IH]; intros n mandatory nonMandatory.
  - simpl. by rewrite !app_nil_r.
  - rewrite imap_cons. cbn [foldl statements_where].
    rewrite (imap_ext _ (λ i, pair (S n + i)))
      by (intros; simpl; f_equal; lia).
    unfold partition_step at 2. cbn [fst snd]. rewrite Nat.add_0_r.
    destruct (Array_includes idxs (index_value n)); rewrite IH; simpl;
      by rewrite <- ?app_assoc.
Qed.

Lemma partition_statements_where idxs nquads :
  partition_statements idxs nquads
  = (statements_where (λ i, Array_includes idxs (index_value i)) 0 nquads,
     statements_where (λ i, negb (Array_includes idxs (index_value i)))
       0 nquads).
Proof.
  unfold partition_statements.
  rewrite (imap_ext _ (λ i, pair (0 + i))) by done.
  by rewrite partition_fold.
Qed.

Lemma statements_where_zip keep n nquads :
  statements_where keep n nquads
  = (filter (λ p, keep p.1 = true) (zip (seq n (length nquads)) nquads)).*2.
Proof.
  revert n. induction nquads as [|nq rest IH]; intros n; simpl; [done|].
  destruct (keep n) eqn:E.
  - rewrite filter_cons_True by done. simpl. by rewrite IH.
  - rewrite filter_cons_False by (simpl; congruence). simpl. by rewrite IH.
Qed.

Lemma statements_where_keys {A} (Q : A * string → Prop)
    `{∀ p, Decision (Q p)} keep n (keys : list A) nquads :
  length keys = length nquads →
  (∀ i a nq, keys !! i = Some a → keep (n + i) = true ↔ Q (a, nq)) →
  statements_where keep n nquads = (filter Q (zip keys nquads)).*2.
Proof.
  revert n keys. induction nquads as [|nq rest IH]; intros n keys Hlen Hk.
  - simpl. by rewrite zip_with_nil_r.
  - destruct keys as [|a keys]; [discriminate|]. simpl.
    pose proof (Hk 0 a nq eq_refl) as H0. rewrite Nat.add_0_r in H0.
    rewrite (IH (S n) keys).
    + destruct (keep n) eqn:E.
      * rewrite filter_cons_True by (by apply H0). done.
      * rewrite filter_cons_False; [done|].
        rewrite <- H0. congruence.
    + simpl in Hlen. lia.
    + intros i a' nq' Hi. rewrite <- (Hk (S i) a' nq' Hi).
      by rewrite Nat.add_succ_r.
Qed.

Lemma statements_where_length keep n nquads :
  length (statements_where keep n nquads)
  + length (statements_where (λ i, negb (keep i)) n nquads)
  = length nquads.
Proof.
  revert n. induction nquads as [|nq rest IH]; intros n; simpl; [done|].
  rewrite !length_app, <- (IH (S n)). destruct (keep n); simpl; lia.
Qed.

Lemma Array_includes_integers (zs : list Z) (i : nat) :
  Array_includes (integers zs) (index_value i) = true ↔ Z.of_nat i ∈ zs.
Proof.
  unfold Array_includes, integers, index_value.
  rewrite existsb_exists. split.
  - intros (v & Hin & Heq).
    apply list_elem_of_In, list_elem_of_fmap in Hin as (z & -> & Hz).
    simpl in Heq. apply bool_decide_eq_true in Heq. by injection Heq as ->.
  - intros Hin. exists (VNumber (NInt (Z.of_nat i))). split.
    + apply list_elem_of_In, list_elem_of_fmap. eauto.
    + simpl. by apply bool_decide_eq_true.
Qed.

Lemma partition_by_index_eq (mandatoryIndexes : list Z)
    (nquads : list string) :
  (partition_statements (integers mandatoryIndexes) nquads).1
  = (filter (λ p, Z.of_nat p.1 ∈ mandatoryIndexes) (indexed nquads)).*2
  ∧ (partition_statements (integers mandatoryIndexes) nquads).2
    = (filter (λ p, Z.of_nat p.1 ∉ mandatoryIndexes) (indexed nquads)).*2.
Proof.
  rewrite partition_statements_where. cbn [fst snd].
  rewrite !statements_where_zip. unfold indexed. split; f_equal.
  - apply list_filter_iff. intros [i nq]. simpl.
    apply Array_includes_integers.
  - apply list_filter_iff. intros [i nq]. simpl.
    rewrite negb_true_iff, <- not_true_iff_false.
    by rewrite Array_includes_integers.
Qed.

(** X17.  The verifier's loop splits the canonical statements of the
    received document by index: a statement is mandatory when its index is
    among the proof's [mandatoryIndexes] and non-mandatory otherwise, both
    lists keep the order of the document, and between them they hold every
    statement once.  Indexes that are negative, past the end or repeated
    select nothing more. *)
Theorem verify_partition_by_index (mandatoryIndexes : list Z)
    (nquads : list string) :
  partition_statements (integers mandatoryIndexes) nquads
  = ((filter (λ p, Z.of_nat p.1 ∈ mandatoryIndexes) (indexed nquads)).*2,
     (filter (λ p, Z.of_nat p.1 ∉ mandatoryIndexes) (indexed nquads)).*2)
  ∧ length (partition_statements (integers mandatoryIndexes) nquads).1
    + length (partition_statements (integers mandatoryIndexes) nquads).2
    = length nquads.
Proof.
  destruct (partition_by_index_eq mandatoryIndexes nquads) as [H1 H2].
  split.
  - rewrite <- H1, <- H2. by destruct (partition_statements _ _).
  - rewrite partition_statements_where. apply statements_where_length.
Qed.
End PartitionFacts.

Lemma strict_eq_string_false v s :
  v ≠ VString s → strict_eq v (VString s) = false.
Proof.
  destruct v as [| | |[]| | | | |]; try done. simpl. intros Hne.
  apply String.eqb_neq. congruence.
Qed.

Lemma strict_eq_string_refl s : strict_eq (VString s) (VString s) = true.
Proof. simpl. apply String.eqb_refl. Qed.

Section VerifyDataFacts.
Variable name : string.
Variable base64url_decode : value → outcome (list byte).
Variable base64url_encode : value → outcome string.
Variable cborg_decode : list byte → outcome value.
Variable Number_toString_ext : number → string.
Context {labelMapFunction : Type}.
Variable hashCanonizedProof : heap → value → value → outcome (list byte).
Variable createLabelMapFunction : value → outcome labelMapFunction.
Variable labelReplacementCanonicalizeJsonLd :
  heap → value → labelMapFunction → outcome (list string).
Variable hashMandatory : list string → outcome (list byte).

Abbreviation createVerifyData :=
  (VerifyData._createVerifyData name base64url_decode base64url_encode
     cborg_decode Number_toString_ext labelMapFunction hashCanonizedProof
     createLabelMapFunction labelReplacementCanonicalizeJsonLd hashMandatory).
Abbreviation parseDerived :=
  (parseDisclosureProofValue base64url_decode base64url_encode cborg_decode
     Number_toString_ext).

(** X18.  The verifier's [_createVerifyData] raises the name error for a
    cryptosuite of another name whatever the proof is, and raises the
    parser's error for a proof value that does not parse whatever became of
    the proof hash, which is looked at last.  When it returns, the proof
    hash was computed and is the one returned; the base signature and the
    public key returned have 64 and 35 bytes; there are as many signatures
    as the proof carries; and the non-mandatory statements and the
    mandatory hash come from splitting the canonical statements by the
    proof's [mandatoryIndexes]. *)
Theorem createVerifyData_outcomes (h : heap)
    (cryptosuite document proof : value) :
  (property_opt h cryptosuite "name" ≠ VString name →
   createVerifyData h cryptosuite document proof
   = Throw (must_be "cryptosuite.name" (quoted name)))
  ∧ (∀ e, property_opt h cryptosuite "name" = VString name →
          parseDerived h proof = Throw e →
          createVerifyData h cryptosuite document proof = Throw e)
  ∧ (∀ data,
       createVerifyData h cryptosuite document proof = Return data →
       ∃ params signatures mandatoryIndexes f nquads,
         property_opt h cryptosuite "name" = VString name
         ∧ parseDerived h proof = Return params
         ∧ Derived.signatures params = VArray signatures
         ∧ Derived.mandatoryIndexes params
           = VArray (integers mandatoryIndexes)
         ∧ createLabelMapFunction (Derived.labelMap params) = Return f
         ∧ labelReplacementCanonicalizeJsonLd h document f = Return nquads
         ∧ hashCanonizedProof h document proof = Return (proofHash data)
         ∧ length (baseSignature data) = 64
         ∧ length (publicKey data) = 35
         ∧ length (Verify.signatures data) = length signatures
         ∧ nonMandatory data
           = (filter (λ p, Z.of_nat p.1 ∉ mandatoryIndexes)
                (indexed nquads)).*2
         ∧ hashMandatory
             (filter (λ p, Z.of_nat p.1 ∈ mandatoryIndexes)
                (indexed nquads)).*2
           = Return (mandatoryHash data)).
Proof.
  unfold VerifyData._createVerifyData. split; [|split].
  - intros Hne. by rewrite (strict_eq_string_false _ _ Hne).
  - intros e -> He. rewrite strict_eq_string_refl. cbn [negb].
    by rewrite He.
  - intros data H.
    destruct (strict_eq _ _) eqn:En; [|discriminate]. cbn [negb] in H.
    apply strict_eq_string in En.
    apply outcome_bind_inv in H as (params & Hp & H).
    apply outcome_bind_inv in H as (f & Hf & H).
    apply outcome_bind_inv in H as (nquads & Hn & H).
    destruct (parseDerived_shape _ _ _ _ _ _ _ Hp)
      as (_ & _ & _ & _ & _ & _ & _ & _ & _ & _ & Hvalid).
    destruct (Hvalid FBaseSignature) as (bs & Hbs & Hbl).
    destruct (Hvalid FPublicKey) as (pk & Hpk & Hpl).
    destruct (Hvalid FSignatures) as (sigs & Hsigs & _).
    destruct (Hvalid FMandatoryIndexes) as (idxs & Hidxs & Hint).
    assert (∃ zs, idxs = (λ z, VNumber (NInt z)) <$> zs) as [zs ->].
    { clear -Hint. induction Hint as [|x l [z ->] _ [zs ->]].
      - by exists [].
      - by exists (z :: zs). }
    rewrite Hidxs in H. cbn [array_elements] in H.
    fold (integers zs) in H.
    destruct (partition_by_index_eq zs nquads) as [Hm Hnm].
    destruct (VerifyData.partition_statements (integers zs) nquads)
      as [mandatory nonMandatory].
    cbn [fst snd] in Hm, Hnm. subst mandatory nonMandatory.
    apply outcome_bind_inv in H as (mh & Hmh & H).
    apply outcome_bind_inv in H as (ph & Hph & [= <-]).
    exists params, sigs, zs, f, nquads. cbn.
    rewrite Hbs, Hpk, Hsigs. cbn. rewrite length_fmap.
    by repeat split.
Qed.
End VerifyDataFacts.

Section DiscloseThenVerify.
Import VerifyData.
Implicit Types mandatory selective combined : list (nat * string).

Lemma Array_includes_indexes (l : list nat) (i : nat) :
  Array_includes (index_value <$> l) (index_value i) = true ↔ i ∈ l.
Proof.
  unfold Array_includes, index_value. rewrite existsb_exists. split.
  - intros (v & Hin & Heq).
    apply list_elem_of_In, list_elem_of_fmap in Hin as (j & -> & Hj).
    simpl in Heq. apply bool_decide_eq_true in Heq.
    injection Heq as Heq. apply Nat2Z.inj in Heq. by subst.
  - intros Hin. exists (VNumber (NInt (Z.of_nat i))). split.
    + apply list_elem_of_In, list_elem_of_fmap. eauto.
    + simpl. by apply bool_decide_eq_true.
Qed.

Lemma mandatoryIndexes_elem combined mandatory r :
  r ∈ compute_mandatoryIndexes combined mandatory ↔
  ∃ a, Map_keys combined !! r = Some a ∧ a ∈ Map_keys mandatory.
Proof.
  unfold compute_mandatoryIndexes. rewrite mandatoryIndexes_fold. simpl.
  rewrite recorded_elem, Nat.sub_0_r.
  split; [intros (a & _ & ? & ?) | intros (a & ? & ?)]; exists a;
    (split; [done || lia | done]).
Qed.

Lemma statements_align {A} mandatory selective combined
    (signatures : list A) (nquads : list string) (n : nat) :
  Map_keys combined = disclosedIndexes mandatory selective n →
  length nquads = length combined →
  length signatures = length (nonMandatoryIndexes mandatory n) →
  let mandatoryIndexes :=
    index_value <$> compute_mandatoryIndexes combined mandatory in
  let disclosed :=
    filter (λ p, p.1 ∉ Map_keys mandatory) (zip (Map_keys combined) nquads) in
  (partition_statements mandatoryIndexes nquads).2 = disclosed.*2
  ∧ disclosed.*1 = disclosedNonMandatoryIndexes mandatory selective n
  ∧ length (partition_statements mandatoryIndexes nquads).2
    = length (filteredSignatures mandatory selective signatures).
Proof.
  intros Hkeys Hlen Hsigs mandatoryIndexes disclosed.
  assert (length (Map_keys combined) = length nquads) as Hlen'.
  { unfold Map_keys. by rewrite length_fmap. }
  assert ((partition_statements mandatoryIndexes nquads).2 = disclosed.*2)
    as Hnm.
  { rewrite partition_statements_where. cbn [snd].
    unfold disclosed.
    apply statements_where_keys; [done|].
    intros i a nq Hi. simpl.
    rewrite negb_true_iff, <- not_true_iff_false.
    unfold mandatoryIndexes.
    rewrite Array_includes_indexes, mandatoryIndexes_elem. split.
    - intros Hnot Ha. apply Hnot. eauto.
    - intros Hnot (a' & Hi' & Ha'). rewrite Hi in Hi'.
      injection Hi' as <-. done. }
  assert (disclosed.*1 = disclosedNonMandatoryIndexes mandatory selective n)
    as Hidx.
  { unfold disclosed.
    etransitivity;
      [apply (filter_zip_fst (λ a, a ∉ Map_keys mandatory)); [done | lia]|].
    rewrite Hkeys. unfold disclosedIndexes, disclosedNonMandatoryIndexes.
    rewrite list_filter_filter. apply list_filter_iff. intros a. tauto. }
  split; [done|]. split; [done|].
  rewrite Hnm, length_fmap, <- (length_fmap fst disclosed), Hidx.
  unfold filteredSignatures.
  rewrite (filter_from_spec mandatory selective signatures 0 n)
    by (unfold nonMandatoryIndexes in Hsigs; lia).
  rewrite length_fmap.
  rewrite <- (length_fmap fst (filter _ _)). f_equal.
  fold (nonMandatoryIndexes mandatory n). symmetry.
  etransitivity;
    [apply (filter_zip_fst (λ a, a ∈ Map_keys selective)); [done | lia]|].
  unfold nonMandatoryIndexes, disclosedNonMandatoryIndexes.
  rewrite list_filter_filter. apply list_filter_iff. intros a. tauto.
Qed.

Variable name : string.
Variable base64url_decode : value → outcome (list byte).
Variable base64url_encode : value → outcome string.
Variable cborg_decode : list byte → outcome value.
Variable Number_toString_ext : number → string.
Variable ToNumber_ext : heap → value → outcome number.
Context {hmac labelMapFunction : Type}.
Variable createHmac : value → outcome hmac.
Variable canonicalizeAndGroup :
  heap → value → hmac → value → value → value → outcome grouping.
Variable selectJsonLd : heap → value → value → outcome (option object).
Variable canonicalize : string → outcome (list (string * string)).
Variable stripBlankNodePrefixes :
  list (string * string) → list (string * string).
Variable hashCanonizedProof : heap → value → value → outcome (list byte).
Variable createLabelMapFunction : value → outcome labelMapFunction.
Variable labelReplacementCanonicalizeJsonLd :
  heap → value → labelMapFunction → outcome (list string).
Variable hashMandatory : list string → outcome (list byte).

Abbreviation createDisclosureData :=
  (_createDisclosureData name base64url_decode cborg_decode ToNumber_ext hmac
     createHmac canonicalizeAndGroup selectJsonLd canonicalize
     stripBlankNodePrefixes).
Abbreviation createVerifyData :=
  (VerifyData._createVerifyData name base64url_decode base64url_encode
     cborg_decode Number_toString_ext labelMapFunction hashCanonizedProof
     createLabelMapFunction labelReplacementCanonicalizeJsonLd hashMandatory).

Lemma createVerifyData_returns (h : heap) (cryptosuite document proof : value)
    vdata :
  createVerifyData h cryptosuite document proof = Return vdata →
  ∃ derived f nquads,
    parseDisclosureProofValue base64url_decode base64url_encode cborg_decode
      Number_toString_ext h proof = Return derived
    ∧ createLabelMapFunction (Derived.labelMap derived) = Return f
    ∧ labelReplacementCanonicalizeJsonLd h document f = Return nquads
    ∧ Verify.signatures vdata
      = bytes_of <$> array_elements (Derived.signatures derived)
    ∧ nonMandatory vdata
      = (partition_statements
           (array_elements (Derived.mandatoryIndexes derived)) nquads).2.
Proof.
  unfold VerifyData._createVerifyData. intros H.
  destruct (negb _); [discriminate|].
  apply outcome_bind_inv in H as (derived & Hp & H).
  apply outcome_bind_inv in H as (f & Hf & H).
  apply outcome_bind_inv in H as (nquads & Hn & H).
  destruct (partition_statements _ nquads) as [mandatory nonMandatory]
    eqn:Epart.
  apply outcome_bind_inv in H as (mh & Hmh & H).
  apply outcome_bind_inv in H as (ph & Hph & [= <-]).
  exists derived, f, nquads. repeat (split; [done|]).
  cbn [Verify.nonMandatory]. by rewrite Epart.
Qed.

End DiscloseThenVerify.

Section SignerFacts.
Import Sign.
Variable name : string.
Variable base64url_decode : value → outcome (list byte).
Variable base64url_encode : value → outcome string.
Variable cborg_decode : list byte → outcome value.
Variable cborg_encode : value → outcome (list byte).
Context {hmac keyPair verifyKey : Type}.
Variable hashCanonizedProof : heap → value → value → outcome (list byte).
Variable createHmac : value → outcome hmac.
Variable hmac_export : hmac → outcome (list byte).
Variable canonicalizeAndGroup :
  heap → value → hmac → value → outcome mandatoryGrouping.
Variable hashMandatory : list string → outcome (list byte).
Variable SM2Multikey_generate : outcome keyPair.
Variable keyPair_sign : keyPair → list byte → list byte.
Variable publicKeyMultibase : keyPair → string.
Variable base58_decode : string → outcome (list byte).
Variable stringToUtf8Bytes : value → list byte.
Variable signer_sign : list byte → list byte.
(** The verifying side. *)
Variable base58_encode : list byte → string.
Variable SM2Multikey_from : string → outcome verifyKey.
Variable keyPair_verify : verifyKey → list byte → list byte → bool.
Variable verifier_verify : list byte → list byte → bool.

Abbreviation createSignData :=
  (_createSignData name hmac hashCanonizedProof createHmac hmac_export
     canonicalizeAndGroup hashMandatory).
Abbreviation createBaseProofValue :=
  (_createBaseProofValue base64url_encode cborg_encode keyPair
     SM2Multikey_generate keyPair_sign publicKeyMultibase base58_decode
     stringToUtf8Bytes signer_sign).
Abbreviation params_of :=
  (signed_params keyPair_sign stringToUtf8Bytes signer_sign).

(** X20.  [_createSignData] raises a [TypeError] for a cryptosuite of
    another name, and for a [mandatoryPointers] option that is given and is
    not an array, whatever the collaborators would do.  When it returns,
    the mandatory pointers returned are the option, or the empty array when
    the option is absent; the HMAC was created with a [null] key and the
    key returned is the one it exports; the non-mandatory statements are
    the values of the statements the mandatory pointers do not match, in
    the order of the group; and the proof hash was computed. *)
Theorem createSignData_outcomes (h : heap)
    (cryptosuite document proof : value) :
  (property_opt h cryptosuite "name" ≠ VString name →
   createSignData h cryptosuite document proof
   = Throw (must_be "cryptosuite.name" (quoted name)))
  ∧ (∀ options,
       property_opt h cryptosuite "name" = VString name →
       property h cryptosuite "options" = Return options →
       truthy options && typeof_object options = true →
       is_array (mandatoryPointers_of h options) = false →
       createSignData h cryptosuite document proof
       = Throw (must_be "cryptosuite.options.mandatoryPointers" "an array"))
  ∧ (∀ data,
       createSignData h cryptosuite document proof = Return data →
       ∃ options pointers hm g,
         property h cryptosuite "options" = Return options
         ∧ mandatoryPointers_of h options = VArray pointers
         ∧ sd_mandatoryPointers data = VArray pointers
         ∧ createHmac VNull = Return hm
         ∧ hmac_export hm = Return (sd_hmacKey data)
         ∧ canonicalizeAndGroup h document hm (VArray pointers) = Return g
         ∧ sd_nonMandatory data = (sg_nonMatching g).*2
         ∧ hashMandatory (sg_matching g).*2 = Return (sd_mandatoryHash data)
         ∧ hashCanonizedProof h document proof
           = Return (sd_proofHash data)).
Proof.
  unfold _createSignData. split; [|split].
  - intros Hne. by rewrite (strict_eq_string_false _ _ Hne).
  - intros options -> Ho Hobj Harr. rewrite strict_eq_string_refl.
    cbn [negb]. rewrite Ho. step_outcome. rewrite Hobj. cbn [negb].
    fold (mandatoryPointers_of h options). by rewrite Harr.
  - intros data H.
    destruct (strict_eq _ _); [|discriminate]. cbn [negb] in H.
    apply outcome_bind_inv in H as (options & Ho & H).
    destruct (truthy options && typeof_object options); [|discriminate].
    cbn [negb] in H. fold (mandatoryPointers_of h options) in H.
    destruct (mandatoryPointers_of h options) as [| | | | | |pointers| |]
      eqn:Ep; try discriminate.
    cbn [is_array negb] in H.
    apply outcome_bind_inv in H as (hm & Hhm & H).
    apply outcome_bind_inv in H as (g & Hg & H).
    apply outcome_bind_inv in H as (mh & Hmh & H).
    apply outcome_bind_inv in H as (key & Hkey & H).
    apply outcome_bind_inv in H as (ph & Hph & [= <-]).
    exists options, pointers, hm, g. by repeat split.
Qed.

Lemma createBaseProofValue_inv data s :
  createBaseProofValue data = Return s →
  ∃ k publicKey,
    SM2Multikey_generate = Return k
    ∧ base58_decode (string_drop 1 (publicKeyMultibase k)) = Return publicKey
    ∧ length (sd_proofHash data) = 32 ∧ length publicKey = 35
    ∧ length (sd_mandatoryHash data) = 32
    ∧ serializeBaseProofValue base64url_encode cborg_encode
        (params_of data k publicKey) = Return s
    ∧ ∀ f, base_field_valid (params_of data k publicKey) f.
Proof.
  unfold _createBaseProofValue. intros H.
  apply outcome_bind_inv in H as (k & Hk & H).
  apply outcome_bind_inv in H as (pk & Hpk & H).
  apply outcome_bind_inv in H as (toSign & Hts & H).
  apply serializeBaseVerifyData_Return in Hts
    as (ph & pk' & mh & [= <- <- <-] & H1 & H2 & H3 & ->).
  exists k, pk. repeat (split; [done|]).
  unfold serializeBaseProofValue in H.
  apply outcome_bind_inv in H as ([] & Hv & _).
  by apply validateBase_accepts.
Qed.

Lemma bytes_of_VBytes (l : list (list byte)) : bytes_of <$> (VBytes <$> l) = l.
Proof. rewrite <- list_fmap_compose. apply list_fmap_id. Qed.

(** X21.  When [_createBaseProofValue] returns, a key pair was generated
    and its public key decoded to 35 bytes, the proof hash and the
    mandatory hash had 32 bytes, and what is returned is the serialization
    of parameters that pass validation: the base signature made over proof
    hash, public key and mandatory hash in this order, the public key, the
    HMAC key, one signature per non-mandatory statement in the order of the
    statements, each over the UTF-8 bytes of its statement, and the
    mandatory pointers.  Parsing the result yields these parameters,
    provided the CBOR and base64url libraries invert their own output. *)
Theorem createBaseProofValue_parses data s :
  createBaseProofValue data = Return s →
  ∃ k publicKey,
    SM2Multikey_generate = Return k
    ∧ base58_decode (string_drop 1 (publicKeyMultibase k)) = Return publicKey
    ∧ length (sd_proofHash data) = 32 ∧ length publicKey = 35
    ∧ length (sd_mandatoryHash data) = 32
    ∧ serializeBaseProofValue base64url_encode cborg_encode
        (params_of data k publicKey) = Return s
    ∧ (∀ f, base_field_valid (params_of data k publicKey) f)
    ∧ length (array_elements (Base.signatures (params_of data k publicKey)))
      = length (sd_nonMandatory data)
    ∧ (∀ h proof,
         cborg_inverts cborg_decode cborg_encode
           (base_payload (params_of data k publicKey))
           (base_payload (params_of data k publicKey)) →
         base64url_inverts base64url_decode base64url_encode cborg_encode
           CBOR_PREFIX_BASE (base_payload (params_of data k publicKey)) →
         property_opt h proof "proofValue" = VString s →
         parseBaseProofValue base64url_decode cborg_decode h proof
         = Return (params_of data k publicKey)).
Proof.
  intros H.
  destruct (createBaseProofValue_inv _ _ H)
    as (k & pk & Hk & Hpk & H1 & H2 & H3 & Hs & Hv).
  exists k, pk. repeat (split; [done|]). split.
  { simpl. unfold sign_statements. by rewrite !length_fmap. }
  intros h proof Hcbor Hb64 Hpv.
  by eapply base_roundtrip.
Qed.

(** X22.  A proof value created by the signer verifies.  Let the confirmer
    parse the proof value that [_createBaseProofValue] returned and hand
    [_multiverify] the parameters with the proof hash, the non-mandatory
    statements and the mandatory hash the signer had.  If the codecs invert
    their own output on the serialized parameters, the public key imports
    to a key that accepts every signature of the signer's local key pair,
    and the verifier accepts every signature of the signer, then the proof
    value parses and [_multiverify] returns [true], having checked every
    statement signature and then the base signature. *)
Theorem signed_proof_verifies data s k publicKey h proof k' st :
  createBaseProofValue data = Return s →
  SM2Multikey_generate = Return k →
  base58_decode (string_drop 1 (publicKeyMultibase k)) = Return publicKey →
  cborg_inverts cborg_decode cborg_encode
    (base_payload (params_of data k publicKey))
    (base_payload (params_of data k publicKey)) →
  base64url_inverts base64url_decode base64url_encode cborg_encode
    CBOR_PREFIX_BASE (base_payload (params_of data k publicKey)) →
  property_opt h proof "proofValue" = VString s →
  SM2Multikey_from ("z" +:+ base58_encode publicKey) = Return k' →
  (∀ d, keyPair_verify k' d (keyPair_sign k d) = true) →
  (∀ d, verifier_verify d (signer_sign d) = true) →
  ∃ params,
    parseBaseProofValue base64url_decode cborg_decode h proof = Return params
    ∧ _multiverify verifyKey base58_encode SM2Multikey_from keyPair_verify
        stringToUtf8Bytes verifier_verify
        (verifyData_of params (sd_proofHash data) (sd_nonMandatory data)
           (sd_mandatoryHash data)) st
      = (Return true,
         State (st_heap st)
           (st_trace st ++ statement_checks (length (sd_nonMandatory data))
            ++ [EvVerifyBase])).
Proof.
  intros H Hgen Hdec Hcbor Hb64 Hpv Hk' Hstmt Hbase.
  destruct (createBaseProofValue_inv _ _ H)
    as (k0 & pk & Hk & Hpk & H1 & H2 & H3 & Hs & Hv).
  rewrite Hgen in Hk. injection Hk as <-.
  rewrite Hdec in Hpk. injection Hpk as <-.
  exists (params_of data k publicKey).
  split; [by eapply base_roundtrip|].
  unfold verifyData_of, signed_params in *. cbn.
  rewrite bytes_of_VBytes.
  rewrite (multiverify_run _ _ _ _ _ _ _ k') by
    (cbn; first [done | unfold sign_statements; by rewrite length_fmap]).
  cbn.
  assert (forallb
            (λ p, keyPair_verify k' (stringToUtf8Bytes (VString p.2)) p.1)
            (zip (sign_statements keyPair keyPair_sign stringToUtf8Bytes k
                    (sd_nonMandatory data)) (sd_nonMandatory data)) = true)
    as ->.
  { apply forallb_forall. intros [sg nq] Hin%list_elem_of_In.
    apply list_elem_of_lookup in Hin as [i Hi].
    rewrite lookup_zip_with in Hi. unfold sign_statements in Hi.
    rewrite list_lookup_fmap in Hi.
    destruct (sd_nonMandatory data !! i) as [nq'|]; [|discriminate].
    simpl in Hi. injection Hi as <- <-. simpl. by apply Hstmt. }
  assert (serializeBaseVerifyData
            (VerifyDataParams (VBytes (sd_proofHash data)) (VBytes publicKey)
               (VBytes (sd_mandatoryHash data)))
          = Return (sd_proofHash data ++ publicKey ++ sd_mandatoryHash data))
    as ->.
  { apply serializeBaseVerifyData_Return. by eexists _, _, _. }
  rewrite Hbase. unfold sign_statements. rewrite length_fmap.
  by rewrite <- app_assoc.
Qed.
(** X23.  The signer checks only that [mandatoryPointers] is an array;
    that its elements are strings is checked when the proof value is
    serialized.  For sign data whose mandatory pointers are not all
    strings, [_createBaseProofValue] never returns, and when nothing else
    is at fault it raises the [TypeError] for [mandatoryPointers], after
    the key pair was generated and the signatures were made. *)
Theorem signer_pointers_checked_late h cryptosuite document proof data l :
  createSignData h cryptosuite document proof = Return data →
  sd_mandatoryPointers data = VArray l →
  ¬ Forall (λ x, ∃ s, x = VString s) l →
  (∀ s, createBaseProofValue data ≠ Return s)
  ∧ (∀ k publicKey,
       SM2Multikey_generate = Return k →
       base58_decode (string_drop 1 (publicKeyMultibase k))
       = Return publicKey →
       length (sd_proofHash data) = 32 →
       length (sd_mandatoryHash data) = 32 →
       (∀ f, f ≠ BMandatoryPointers →
             base_field_valid (params_of data k publicKey) f) →
       createBaseProofValue data
       = Throw (must_be "mandatoryPointers" "an array of strings")).
Proof.
  intros _ Hl Hnot. split.
  - intros s Hs.
    destruct (createBaseProofValue_inv _ _ Hs)
      as (k & pk & _ & _ & _ & _ & _ & _ & Hv).
    destruct (Hv BMandatoryPointers) as (l' & Hl' & Hall).
    simpl in Hl'. rewrite Hl in Hl'. injection Hl' as <-. done.
  - intros k pk Hk Hpk H1 H3 Hv.
    destruct (Hv BPublicKey ltac:(done)) as (pk' & [= <-] & H2).
    unfold _createBaseProofValue. rewrite Hk. step_outcome.
    rewrite Hpk. step_outcome.
    assert (serializeBaseVerifyData
              (VerifyDataParams (VBytes (sd_proofHash data)) (VBytes pk)
                 (VBytes (sd_mandatoryHash data)))
            = Return (sd_proofHash data ++ pk ++ sd_mandatoryHash data)) as ->.
    { apply serializeBaseVerifyData_Return. by eexists _, _, _. }
    fold (params_of data k pk).
    unfold serializeBaseProofValue.
    rewrite (validateBase_checks (params_of data k pk)).
    rewrite (proj2 (base_field_check_spec _ _)
               (Hv BBaseSignature ltac:(done))).
    rewrite (proj2 (base_field_check_spec _ _) (Hv BPublicKey ltac:(done))).
    rewrite (proj2 (base_field_check_spec _ _) (Hv BHmacKey ltac:(done))).
    rewrite (proj2 (base_field_check_spec _ _) (Hv BSignatures ltac:(done))).
    step_outcome.
    destruct (base_field_check (params_of data k pk) BMandatoryPointers)
      eqn:E; [|done].
    apply base_field_check_spec in E as (l' & Hl' & Hall).
    simpl in Hl'. rewrite Hl in Hl'. injection Hl' as <-. done.
Qed.
End SignerFacts.

Section ConfirmFacts.
Import Confirm.

Lemma includes_string (nq : string) (l : list string) :
  existsb (String.eqb nq) l = true ↔ nq ∈ l.
Proof.
  rewrite existsb_exists. split.
  - intros (x & Hin & ->%String.eqb_eq). by apply list_elem_of_In.
  - intros Hin. exists nq. split; [by apply list_elem_of_In|].
    apply String.eqb_refl.
Qed.

Lemma exclude_mandatory_elem mandatory nquads nq :
  nq ∈ exclude_mandatory mandatory nquads ↔ nq ∈ nquads ∧ nq ∉ mandatory.
Proof.
  unfold exclude_mandatory.
  rewrite list_elem_of_In, filter_In, <- list_elem_of_In.
  rewrite negb_true_iff, <- not_true_iff_false, includes_string. done.
Qed.

Lemma exclude_mandatory_sublist mandatory nquads :
  exclude_mandatory mandatory nquads `sublist_of` nquads.
Proof.
  unfold exclude_mandatory.
  induction nquads as [|nq rest IH]; simpl; [done|].
  destruct (negb _); [by apply sublist_skip | by apply sublist_cons].
Qed.

Lemma exclude_nothing nquads : exclude_mandatory [] nquads = nquads.
Proof.
  unfold exclude_mandatory.
  induction nquads as [|nq rest IH]; [done|].
  simpl in IH |- *. by rewrite IH.
Qed.

Lemma statements_where_elem keep n nquads nq :
  nq ∈ statements_where keep n nquads → nq ∈ nquads.
Proof.
  revert n. induction nquads as [|x rest IH]; intros n; simpl; [done|].
  rewrite elem_of_app. intros [Hin|Hin].
  - destruct (keep n); [|by apply elem_of_nil in Hin].
    apply list_elem_of_singleton in Hin as ->. left.
  - right. by eapply IH.
Qed.

Lemma exclude_mandatory_where keep n mandatory nquads :
  NoDup nquads →
  (∀ nq, nq ∈ nquads →
         nq ∈ mandatory ↔ nq ∈ statements_where keep n nquads) →
  exclude_mandatory mandatory nquads
  = statements_where (λ i, negb (keep i)) n nquads.
Proof.
  revert n. induction nquads as [|x rest IH]; intros n Hnd Hm; [done|].
  apply NoDup_cons in Hnd as [Hx Hnd].
  assert (x ∈ mandatory ↔ keep n = true) as Hkeep.
  { rewrite (Hm x) by left. simpl. rewrite elem_of_app. split.
    - intros [Hin|Hin%statements_where_elem]; [|done].
      by destruct (keep n); [|apply elem_of_nil in Hin].
    - intros ->. left. left. }
  assert (exclude_mandatory mandatory rest
          = statements_where (λ i, negb (keep i)) (S n) rest) as Hrest.
  { apply IH; [done|]. intros nq Hin.
    rewrite (Hm nq) by (by right). simpl. rewrite elem_of_app. split.
    - intros [Hin'|Hin']; [|done].
      destruct (keep n); [|by apply elem_of_nil in Hin'].
      apply list_elem_of_singleton in Hin' as ->. done.
    - intros Hin'. by right. }
  unfold exclude_mandatory in *. simpl. rewrite Hrest.
  destruct (keep n) eqn:E.
  - rewrite (proj2 (includes_string _ _) (proj2 Hkeep eq_refl)). done.
  - destruct (existsb _ mandatory) eqn:Ee; [|done].
    apply includes_string, Hkeep in Ee. congruence.
Qed.

(** X24.  The confirmer's non-mandatory statements are the canonical
    statements that are not, as text, among the mandatory ones, in the
    order of the document; without mandatory statements they are all the
    statements.  When the canonical statements are pairwise distinct and
    the mandatory statements are those at the indexes [keep] accepts, in
    any order, this is the split by index: the non-mandatory statements are
    those at the other indexes. *)
Theorem confirm_partition (mandatory nquads : list string) :
  exclude_mandatory mandatory nquads `sublist_of` nquads
  ∧ (∀ nq, nq ∈ exclude_mandatory mandatory nquads ↔
           nq ∈ nquads ∧ nq ∉ mandatory)
  ∧ exclude_mandatory [] nquads = nquads
  ∧ (∀ keep,
       NoDup nquads →
       mandatory ≡ₚ statements_where keep 0 nquads →
       exclude_mandatory mandatory nquads
       = statements_where (λ i, negb (keep i)) 0 nquads).
Proof.
  split; [apply exclude_mandatory_sublist|].
  split; [intros nq; apply exclude_mandatory_elem|].
  split; [apply exclude_nothing|].
  intros keep Hnd Hperm. apply exclude_mandatory_where; [done|].
  intros nq _. by rewrite Hperm.
Qed.

Variable name : string.
Variable base64url_decode : value → outcome (list byte).
Variable cborg_decode : list byte → outcome value.
Context {hmac labelMapFunction : Type}.
Variable hashCanonizedProof : heap → value → value → outcome (list byte).
Variable createHmac : value → outcome hmac.
Variable createHmacIdLabelMapFunction : hmac → labelMapFunction.
Variable labelReplacementCanonicalizeJsonLd :
  heap → value → labelMapFunction → outcome (list string).
Variable selectJsonLd : heap → value → value → outcome (option object).
Variable hashMandatory : list string → outcome (list byte).

Abbreviation confirmVerifyData select :=
  (Confirm._createVerifyData name base64url_decode cborg_decode hmac
     labelMapFunction hashCanonizedProof createHmac
     createHmacIdLabelMapFunction labelReplacementCanonicalizeJsonLd
     select hashMandatory).

(** X25.  The confirmer's [_createVerifyData] raises the name error for a
    cryptosuite of another name.  For a base proof without mandatory
    pointers it does not consult [selectJsonLd]: the outcome is the same
    whatever that function would do.  When it returns, the proof value
    parsed as a base proof, the HMAC was created from the proof's key, and
    the data returned are the parsed base signature of 64 bytes, public key
    of 35 bytes and signatures of 64 bytes each, together with the proof
    hash that was computed, the canonical statements that are not among
    the mandatory ones, and the hash of the mandatory ones.  The mandatory
    statements are none when there is no mandatory pointer, and otherwise
    the canonical statements, under the same label map, of the document
    that [selectJsonLd] built from the document and the mandatory
    pointers. *)
Theorem confirm_createVerifyData_outcomes (h : heap)
    (cryptosuite document proof : value) :
  (property_opt h cryptosuite "name" ≠ VString name →
   confirmVerifyData selectJsonLd h cryptosuite document proof
   = Throw (must_be "cryptosuite.name" (quoted name)))
  ∧ (∀ params select,
       parseBaseProofValue base64url_decode cborg_decode h proof
       = Return params →
       Base.mandatoryPointers params = VArray [] →
       confirmVerifyData select h cryptosuite document proof
       = confirmVerifyData selectJsonLd h cryptosuite document proof)
  ∧ (∀ data,
       confirmVerifyData selectJsonLd h cryptosuite document proof
       = Return data →
       ∃ params hm nquads mandatory,
         property_opt h cryptosuite "name" = VString name
         ∧ parseBaseProofValue base64url_decode cborg_decode h proof
           = Return params
         ∧ createHmac (Base.hmacKey params) = Return hm
         ∧ labelReplacementCanonicalizeJsonLd h document
             (createHmacIdLabelMapFunction hm) = Return nquads
         ∧ (Base.mandatoryPointers params = VArray [] →
            mandatory = [] ∧ nonMandatory data = nquads)
         ∧ (Base.mandatoryPointers params ≠ VArray [] →
            ∃ filteredDocument,
              selectJsonLd h document (Base.mandatoryPointers params)
              = Return filteredDocument
              ∧ canonicalize_selection labelMapFunction
                  labelReplacementCanonicalizeJsonLd h filteredDocument
                  (createHmacIdLabelMapFunction hm)
                = Return mandatory)
         ∧ hashMandatory mandatory = Return (mandatoryHash data)
         ∧ hashCanonizedProof h document proof = Return (proofHash data)
         ∧ data = verifyData_of params (proofHash data)
                    (exclude_mandatory mandatory nquads) (mandatoryHash data)
         ∧ length (baseSignature data) = 64
         ∧ length (publicKey data) = 35
         ∧ Forall (λ sg, length sg = 64) (signatures data)).
Proof.
  unfold Confirm._createVerifyData. split; [|split].
  - intros Hne. by rewrite (strict_eq_string_false _ _ Hne).
  - intros params select Hp Hmp.
    destruct (negb _); [done|]. rewrite Hp. step_outcome.
    by rewrite Hmp.
  - intros data H.
    destruct (strict_eq _ _) eqn:En; [|discriminate]. cbn [negb] in H.
    apply strict_eq_string in En.
    apply outcome_bind_inv in H as (params & Hp & H).
    apply outcome_bind_inv in H as (hm & Hhm & H).
    apply outcome_bind_inv in H as (nquads & Hn & H).
    apply outcome_bind_inv in H as (mandatory & Hm & H).
    apply outcome_bind_inv in H as (mh & Hmh & H).
    apply outcome_bind_inv in H as (ph & Hph & [= <-]).
    destruct (parseBase_shape _ _ _ _ _ Hp)
      as (_ & _ & _ & _ & _ & _ & _ & _ & _ & Hvalid).
    destruct (Hvalid BBaseSignature) as (bs & Hbs & Hbl).
    destruct (Hvalid BPublicKey) as (pk & Hpk & Hpl).
    destruct (Hvalid BSignatures) as (sigs & Hsigs & Hsl).
    exists params, hm, nquads, mandatory. cbn.
    repeat (split; [done|]). split.
    { intros Hmp. rewrite Hmp in Hm. injection Hm as <-.
      split; [done|]. apply exclude_nothing. }
    split.
    { intros Hmp.
      assert (is_empty_array (Base.mandatoryPointers params) = false) as Hne.
      { destruct (Base.mandatoryPointers params) as [| | | | | |[|]| |];
          done. }
      rewrite Hne in Hm.
      apply outcome_bind_inv in Hm as (filteredDocument & Hsel & Hm).
      by exists filteredDocument. }
    repeat (split; [done|]).
    rewrite Hbs, Hpk, Hsigs. cbn. repeat (split; [done|]).
    apply Forall_fmap. eapply Forall_impl; [exact Hsl|].
    intros x (b & -> & Hb). done.
Qed.
End ConfirmFacts.

Section DisclosureDataFacts.
Variable name : string.
Variable base64url_decode : value → outcome (list byte).
Variable base64url_encode : value → outcome string.
Variable cborg_decode : list byte → outcome value.
Variable cborg_encode : value → outcome (list byte).
Variable Number_toString_ext : number → string.
Variable ToNumber_ext : heap → value → outcome number.
Context {hmac : Type}.
Variable createHmac : value → outcome hmac.
Variable canonicalizeAndGroup :
  heap → value → hmac → value → value → value → outcome grouping.
Variable selectJsonLd : heap → value → value → outcome (option object).
Variable canonicalize : string → outcome (list (string * string)).
Variable stripBlankNodePrefixes :
  list (string * string) → list (string * string).

Abbreviation createDisclosureData :=
  (_createDisclosureData name base64url_decode cborg_decode ToNumber_ext hmac
     createHmac canonicalizeAndGroup selectJsonLd canonicalize
     stripBlankNodePrefixes).

Lemma createDisclosureData_data cryptosuite document proof s data s' :
  createDisclosureData cryptosuite document proof s = (Return data, s') →
  ∃ params mandatory selective,
    parseBaseProofValue base64url_decode cborg_decode (st_heap s) proof
    = Return params
    ∧ dd_baseSignature data = Base.baseSignature params
    ∧ dd_publicKey data = Base.publicKey params
    ∧ dd_signatures data
      = filteredSignatures mandatory selective
          (array_elements (Base.signatures params)).
Proof.
  unfold _createDisclosureData. intros H.
  walk H. walk H; [discriminate H|].
  call H options Eo; [|discriminate H].
  walk H; [discriminate H|].
  call H params Ep; [|discriminate H].
  call H chosen Esel; [|discriminate H].
  walk H; [discriminate H|].
  walk H. call H hm Eh; [|discriminate H].
  walk H. call H g Eg; [|discriminate H].
  walk H. call H selection Es; [|discriminate H].
  apply bind_Return_inv in H as (r & s2 & _ & H).
  walk H. call H idMap Ei; [|discriminate H]. stopped H.
  exists params. eexists _, _. by repeat split.
Qed.

Lemma labelMap_value_strings (m : list (string * option string)) :
  is_string_Map (labelMap_value m) = true ↔ Forall (λ kv, is_Some kv.2) m.
Proof.
  unfold labelMap_value. simpl. rewrite forallb_fmap.
  rewrite forallb_forall, Forall_forall. split.
  - intros Hall [k v] Hin%list_elem_of_In. apply Hall in Hin.
    simpl in *. by destruct v.
  - intros Hall [k v] Hin%list_elem_of_In. apply Hall in Hin.
    simpl in *. by destruct Hin as [x ->].
Qed.

Lemma disclosed_params_validation cryptosuite document proof s data s' :
  createDisclosureData cryptosuite document proof s = (Return data, s') →
  _validateDerivedProofParams (disclosed_params data)
  = throw_unless (is_string_Map (labelMap_value (dd_labelMap data)))
      (must_be "labelMap" "a Map of strings to strings").
Proof.
  intros H.
  destruct (createDisclosureData_data _ _ _ _ _ _ H)
    as (params & mandatory & selective & Hp & Hbs & Hpk & Hsigs).
  destruct (parseBase_shape _ _ _ _ _ Hp)
    as (_ & _ & _ & _ & _ & _ & _ & _ & _ & Hvalid).
  destruct (Hvalid BBaseSignature) as (bs & Hbs' & Hbl).
  destruct (Hvalid BPublicKey) as (pk & Hpk' & Hpl).
  destruct (Hvalid BSignatures) as (sigs & Hsigs' & Hsl).
  assert (is_array_every is_Uint8Array (VArray (dd_signatures data)) = true)
    as Hs.
  { apply (is_array_every_spec _ _ _ is_Uint8Array_spec).
    eexists. split; [done|]. rewrite Hsigs, Hsigs'. simpl.
    apply Forall_forall. intros x Hx.
    apply (elem_of_sublist _ sigs) in Hx; [|apply filter_from_sublist].
    rewrite Forall_forall in Hsl. destruct (Hsl x Hx) as (b & -> & _). eauto. }
  assert (is_array_every Number_isInteger
            (VArray (index_value <$> dd_mandatoryIndexes data)) = true) as Hi.
  { simpl. rewrite forallb_fmap. by apply forallb_forall. }
  unfold _validateDerivedProofParams, disclosed_params.
  cbn [Derived.baseSignature Derived.publicKey Derived.signatures
       Derived.labelMap Derived.mandatoryIndexes].
  rewrite Hbs, Hbs', Hpk, Hpk', Hs, Hi.
  cbn [is_Uint8Array_of_length].
  rewrite !bool_decide_eq_true_2 by done. step_outcome.
  by destruct (is_string_Map _).
Qed.


Variable matchProof : heap → loc → bool.

Abbreviation derive :=
  (_derive name base64url_decode base64url_encode cborg_decode cborg_encode
     Number_toString_ext ToNumber_ext hmac createHmac canonicalizeAndGroup
     selectJsonLd canonicalize stripBlankNodePrefixes matchProof).

(** X27.  When [_derive] returns, what it returns is the revealed document
    of the disclosure data computed from a proof of the proof set, on the
    heap as it was before the call.  The [proof] of that document is a new
    proof object whose [proofValue] is the serialization of these
    disclosure data, in which every verifier label has a label. *)
Theorem derive_attaches_derived_proof cryptosuite document purpose proofSet
    s r s' :
  derive cryptosuite document purpose proofSet s = (Return r, s') →
  ∃ baseProof s1 data s2 newProof proofValue,
    baseProof ∈ proofSet
    ∧ st_heap s1 = st_heap s
    ∧ createDisclosureData cryptosuite document (VRef baseProof) s1
      = (Return data, s2)
    ∧ r = dd_revealDoc data
    ∧ serializeDisclosureProofValue base64url_decode base64url_encode
        cborg_encode Number_toString_ext (disclosed_params data)
      = Return proofValue
    ∧ Forall (λ kv, is_Some kv.2) (dd_labelMap data)
    ∧ st_heap s !! newProof = None
    ∧ property_opt (st_heap s') r "proof" = VRef newProof
    ∧ property_opt (st_heap s') (VRef newProof) "proofValue"
      = VString proofValue.
Proof.
  unfold _derive. intros H.
  walk H. call H options Eo; [|discriminate H].
  call H proofId Ei; [|discriminate H].
  apply bind_Return_inv in H as (baseProof & s1 & Hfind & H).
  apply findProof_run in Hfind as [Hheap Hfound].
  destruct (Hfound _ eq_refl) as [Hin _].
  call H term Et; [|discriminate H].
  walk H; [discriminate H|].
  apply bind_Return_inv in H as (data & s2 & Hdata & H).
  pose proof (createDisclosureData_heap _ _ _ _ _ _ _ _ _ _ _ _ _ _ _ Hdata)
    as [_ Hreveal].
  walk H. walk H.
  fold (disclosed_params data) in H.
  call H proofValue Ev; [|discriminate H].
  walk H. walk H. walk H.
  destruct Hreveal as [[Hnull _] | (selection & pointers & _ & Href & Hheap2)].
  { rewrite Hnull in H. discriminate H. }
  rewrite Href in H. walk H. stopped H.
  set (newProof := fresh (dom (st_heap s2))).
  set (revealDoc := fresh (dom (st_heap s1))) in *.
  assert (st_heap s2 !! newProof = None) as Hnew
    by apply not_elem_of_dom, is_fresh.
  assert (newProof ≠ revealDoc) as Hne.
  { intros Heq. rewrite Hheap2, Heq, lookup_insert_eq in Hnew. discriminate. }
  exists baseProof, s1, data, s2, newProof, proofValue.
  split; [done|]. split; [done|]. split; [done|]. split; [done|].
  split; [done|]. split.
  { apply labelMap_value_strings.
    unfold serializeDisclosureProofValue in Ev.
    apply outcome_bind_inv in Ev as ([] & Hv & _).
    rewrite (disclosed_params_validation _ _ _ _ _ _ Hdata) in Hv.
    by destruct (is_string_Map _). }
  split.
  { rewrite Hheap2, lookup_insert_ne in Hnew by done. by rewrite <- Hheap. }
  split.
  - unfold property_opt. rewrite lookup_alter_eq, lookup_alter_ne by done.
    rewrite lookup_insert_ne by done.
    rewrite Hheap2, lookup_insert_eq. simpl. by rewrite lookup_insert_eq.
  - unfold property_opt. rewrite lookup_alter_ne by done.
    rewrite lookup_alter_eq, lookup_insert_eq. simpl.
    rewrite lookup_delete_ne by done. by rewrite lookup_insert_eq.
Qed.
End DisclosureDataFacts.

(** ** More concrete runs *)

Section SuiteRuns.
Import Reference Sample.

Abbreviation multiverify :=
  (Verify._multiverify string base58_encode SM2Multikey_from keyPair_verify
     stringToUtf8Bytes verify).
Abbreviation parseBase := (parseBaseProofValue base64url_decode cborg_decode).
Abbreviation parseDerived :=
  (parseDisclosureProofValue base64url_decode base64url_encode cborg_decode
     Number_toString_ext).
Abbreviation createDisclosureData :=
  (_createDisclosureData name base64url_decode cborg_decode ToNumber_ext value
     createHmac canonicalizeAndGroup selectJsonLd canonicalize
     stripBlankNodePrefixes).
Abbreviation derive :=
  (_derive name base64url_decode base64url_encode cborg_decode cborg_encode
     Number_toString_ext ToNumber_ext value createHmac canonicalizeAndGroup
     selectJsonLd canonicalize stripBlankNodePrefixes matchProof).

Lemma base_validation_checks_witness :
  serializeBaseProofValue base64url_encode cborg_encode
    (Base.Params (VBytes (replicate 64 x01)) (VBytes (replicate 34 x02))
       (VBytes []) (VArray []) (VArray []))
  = Throw (must_be "publicKey" "a Uint8Array of length 35").
Proof.
  apply (base_validation_checks base64url_encode cborg_encode).
  reflexivity.
Defined.

Lemma compressLabelMap_keys_witness :
  ∃ m, NoDup m.*1 ∧ length m ≤ 2
       ∧ Map_get (NInt 1) m = Some [xff; x01].
Proof.
  destruct (compressLabelMap_keys base64url_decode Number_toString_ext
              (VMap [(VString "c14n1", VString "uAA");
                     (VString "c14n01", VString "u_wE")])
              (VMap [(VNumber (NInt 1), VBytes [xff; x01])]))
    as (es & ces & m & Hes & Hces & _ & Hnd & Hlen & _ & Hlast).
  - vm_compute. reflexivity.
  - injection Hes as <-. exists m. split; [exact Hnd|].
    split; [exact Hlen|]. apply Hlast.
    apply Forall2_cons_inv_l in Hces as (e1 & ces1 & H1 & Hces & ->).
    apply Forall2_cons_inv_l in Hces as (e2 & ces2 & H2 & Hces & ->).
    apply Forall2_nil_inv_l in Hces as ->.
    vm_compute in H1. injection H1 as <-.
    vm_compute in H2. injection H2 as <-.
    exists [(NInt 1, [x00])], []. split; [reflexivity|]. apply not_elem_of_nil.
Defined.

Lemma decompressLabelMap_shape_witness :
  is_string_Map (expanded_labelMap labels) = true.
Proof.
  destruct (decompressLabelMap_shape base64url_encode Number_toString_ext
              (compressed_labelMap labels) (expanded_labelMap labels))
    as (es & des & l & _ & _ & _ & _ & _ & H).
  - vm_compute. reflexivity.
  - exact H.
Defined.

Lemma serializeBaseVerifyData_layout_witness :
  length (replicate 32 x0a ++ replicate 35 x02 ++ replicate 32 x0b) = 99.
Proof.
  destruct (serializeBaseVerifyData_layout
              (VerifyDataParams (VBytes (replicate 32 x0a))
                 (VBytes (replicate 35 x02)) (VBytes (replicate 32 x0b))))
    as (_ & H & _).
  apply H. vm_compute. reflexivity.
Defined.

Lemma parsed_params_validated_witness :
  base_field_valid base_params BSignatures
  ∧ base_field_valid base_params BMandatoryPointers.
Proof.
  destruct (parsed_params_validated base64url_decode base64url_encode
              cborg_decode Number_toString_ext store (VRef baseProof))
    as [H _].
  destruct (H base_params) as (_ & _ & _ & _ & _ & _ & _ & _ & _ & Hvalid).
  - vm_compute. reflexivity.
  - split; apply Hvalid.
Defined.

Lemma proof_value_kinds_exclusive_witness :
  parseDerived store (VRef baseProof)
  = Throw (TypeError parse_error_message
             (Some (must_be "proof.proofValue" "a derived proof"))).
Proof.
  destruct (proof_value_kinds_exclusive base64url_decode base64url_encode
              cborg_decode cborg_encode Number_toString_ext store
              (VRef baseProof)) as (_ & H & _).
  apply (H base_params base_proofValue).
  - vm_compute. reflexivity.
  - intros body enc Hb He. vm_compute in Hb. injection Hb as <-.
    vm_compute in He. injection He as <-. vm_compute. reflexivity.
  - vm_compute. reflexivity.
Defined.

Lemma multiverify_statement_failure_witness :
  multiverify (verify_data_with [sign "_:b0 <q> <b> ."; []]) start
  = (Return false,
     State store [EvImportKey; EvVerifyStatement 0; EvVerifyStatement 1]).
Proof.
  apply (multiverify_statement_failure base58_encode SM2Multikey_from
           keyPair_verify stringToUtf8Bytes verify
           (verify_data_with [sign "_:b0 <q> <b> ."; []]) start
           ("z" +:+ base58_encode (replicate 35 x02)) 1 []
           "_:b0 <r> <c> .").
  - vm_compute. reflexivity.
  - reflexivity.
  - reflexivity.
  - reflexivity.
  - vm_compute. reflexivity.
Defined.

Lemma multiverify_base_check_witness :
  multiverify (verify_data_with (sign <$> statements)) start
  = (Return true,
     State store [EvImportKey; EvVerifyStatement 0; EvVerifyStatement 1;
                  EvVerifyBase]).
Proof.
  destruct (multiverify_base_check base58_encode SM2Multikey_from
              keyPair_verify stringToUtf8Bytes verify
              (verify_data_with (sign <$> statements)) start
              ("z" +:+ base58_encode (replicate 35 x02))) as [H _].
  - vm_compute. reflexivity.
  - reflexivity.
  - vm_compute. reflexivity.
  - rewrite H by (repeat split). vm_compute. reflexivity.
Defined.

Lemma filteredSignatures_subsequence_witness :
  ∃ data s',
    createDisclosureData (VRef cryptosuite) (VRef document) (VRef baseProof)
      start = (Return data, s')
    ∧ dd_signatures data
        `sublist_of` [VBytes (replicate 64 x04); VBytes (replicate 64 x05)].
Proof.
  destruct (createDisclosureData (VRef cryptosuite) (VRef document)
              (VRef baseProof) start) as [o s'] eqn:Hrun.
  assert (Hok : ∃ data, o = Return data).
  { vm_compute in Hrun. injection Hrun as <- _. eauto. }
  destruct Hok as [data ->]. exists data, s'. split; [reflexivity|].
  destruct (filteredSignatures_subsequence name base64url_decode cborg_decode
              ToNumber_ext createHmac canonicalizeAndGroup selectJsonLd
              canonicalize stripBlankNodePrefixes _ _ _ _ _ _ Hrun)
    as (options & params & g & Hin & Hsub & _).
  destruct Hin as [(_ & _ & _ & Hparse) _].
  vm_compute in Hparse. injection Hparse as <-. exact Hsub.
Defined.

Lemma mandatoryIndexes_edges_witness :
  ∃ data s',
    createDisclosureData (VRef cryptosuite) (VRef document) (VRef baseProof)
      start = (Return data, s')
    ∧ length (dd_mandatoryIndexes data) = 1.
Proof.
  destruct (createDisclosureData (VRef cryptosuite) (VRef document)
              (VRef baseProof) start) as [o s'] eqn:Hrun.
  assert (Hok : ∃ data, o = Return data).
  { vm_compute in Hrun. injection Hrun as <- _. eauto. }
  destruct Hok as [data ->]. exists data, s'. split; [reflexivity|].
  destruct (mandatoryIndexes_edges name base64url_decode cborg_decode
              ToNumber_ext createHmac canonicalizeAndGroup selectJsonLd
              canonicalize stripBlankNodePrefixes _ _ _ _ _ _ Hrun)
    as (options & params & g & Hin & Hlen & _).
  destruct Hin as [_ (hm & _ & Hg)].
  unfold canonicalizeAndGroup in Hg. injection Hg as <-.
  rewrite Hlen. vm_compute. reflexivity.
Defined.

Lemma findProof_by_id_witness :
  _findProof matchProof (VString "urn:proof:1") [baseProof] start
  = (Return baseProof, start).
Proof.
  destruct (findProof_by_id matchProof (VString "urn:proof:1") [baseProof]
              start) as [H _].
  - reflexivity.
  - apply (H [] baseProof []).
    + reflexivity.
    + apply Forall_nil_2.
    + vm_compute. reflexivity.
Defined.

Lemma findProof_by_match_witness :
  _findProof matchProof VUndefined [baseProof] start
  = (Return baseProof, State store [EvMatchProof baseProof]).
Proof.
  exact (findProof_by_match matchProof VUndefined [baseProof] start eq_refl).
Defined.

Lemma disclosure_guards_first_witness :
  ∃ o s', createDisclosureData (VRef cryptosuite) (VRef document)
            (VRef baseProof) start = (o, s')
          ∧ [EvCreateHmac] `prefix_of` st_trace s'.
Proof.
  destruct (createDisclosureData (VRef cryptosuite) (VRef document)
              (VRef baseProof) start) as [o s'] eqn:Hrun.
  exists o, s'. split; [reflexivity|].
  destruct (disclosure_guards_first name base64url_decode cborg_decode
              ToNumber_ext createHmac canonicalizeAndGroup selectJsonLd
              canonicalize stripBlankNodePrefixes _ _ _ _ _ _ Hrun)
    as [[-> [e ->]] | (options & params & _ & _ & _ & Hpre)].
  - vm_compute in Hrun. discriminate Hrun.
  - exact Hpre.
Defined.

Lemma derive_keeps_objects_witness :
  ∃ o s', derive (VRef cryptosuite) (VRef document) (VRef purpose)
            [baseProof] start = (o, s')
          ∧ objects_kept store (st_heap s').
Proof.
  destruct (derive (VRef cryptosuite) (VRef document) (VRef purpose)
              [baseProof] start) as [o s'] eqn:Hrun.
  exists o, s'. split; [reflexivity|].
  exact (derive_keeps_objects name base64url_decode base64url_encode
           cborg_decode cborg_encode Number_toString_ext ToNumber_ext
           createHmac canonicalizeAndGroup selectJsonLd canonicalize
           stripBlankNodePrefixes matchProof _ _ _ _ _ _ _ Hrun).
Defined.


Lemma derive_attaches_derived_proof_witness :
  ∃ r s' newProof proofValue,
    derive (VRef cryptosuite) (VRef document) (VRef purpose) [baseProof] start
    = (Return r, s')
    ∧ property_opt (st_heap s') r "proof" = VRef newProof
    ∧ property_opt (st_heap s') (VRef newProof) "proofValue"
      = VString proofValue.
Proof.
  destruct (derive (VRef cryptosuite) (VRef document) (VRef purpose)
              [baseProof] start) as [o s'] eqn:Hrun.
  assert (Hok : ∃ r, o = Return r).
  { vm_compute in Hrun. injection Hrun as <- _. eauto. }
  destruct Hok as [r ->].
  destruct (derive_attaches_derived_proof name base64url_decode
              base64url_encode cborg_decode cborg_encode Number_toString_ext
              ToNumber_ext createHmac canonicalizeAndGroup selectJsonLd
              canonicalize stripBlankNodePrefixes matchProof _ _ _ _ _ _ _
              Hrun)
    as (b & s1 & data & s2 & newProof & proofValue & _ & _ & _ & _ & _ & _ & _
        & Hproof & Hvalue).
  exists r, s', newProof, proofValue. split; [reflexivity|]. by split.
Defined.


Lemma confirm_partition_witness :
  Confirm.exclude_mandatory ["_:b0 <r> <c> ."; "_:b0 <p> <a> ."]%string
    SampleSuite.nquads
  = ["_:b0 <q> <b> ."]%string.
Proof.
  destruct (confirm_partition ["_:b0 <r> <c> ."; "_:b0 <p> <a> ."]%string
              SampleSuite.nquads) as (_ & _ & _ & H).
  rewrite (H (λ i, bool_decide (i ≠ 1))).
  - reflexivity.
  - apply (bool_decide_unpack _). vm_compute. exact I.
  - apply perm_swap.
Defined.
End SuiteRuns.

Section SignerRuns.
Import Reference ReferenceSuite Sample SampleSuite.

Abbreviation createVerifyData :=
  (VerifyData._createVerifyData name base64url_decode base64url_encode
     cborg_decode Number_toString_ext value hashCanonizedProof
     createLabelMapFunction labelReplacementCanonicalizeJsonLd hashMandatory).
Abbreviation createSignData :=
  (Sign._createSignData name value hashCanonizedProof Reference.createHmac
     hmac_export ReferenceSuite.canonicalizeAndGroup hashMandatory).
Abbreviation confirmVerifyData :=
  (Confirm._createVerifyData name base64url_decode cborg_decode value value
     hashCanonizedProof Reference.createHmac createHmacIdLabelMapFunction
     labelReplacementCanonicalizeJsonLd ReferenceSuite.selectJsonLd
     hashMandatory).

Lemma createVerifyData_outcomes_witness :
  createVerifyData suite (VRef foreignCryptosuite) (VRef revealedDocument)
    (VRef derivedProof)
  = Throw (must_be "cryptosuite.name" (quoted name))
  ∧ ∃ data, createVerifyData suite (VRef signCryptosuite)
              (VRef revealedDocument) (VRef derivedProof) = Return data
            ∧ nonMandatory data = ["_:b0 <r> <c> ."]%string.
Proof.
  destruct (createVerifyData_outcomes name base64url_decode base64url_encode
              cborg_decode Number_toString_ext hashCanonizedProof
              createLabelMapFunction labelReplacementCanonicalizeJsonLd
              hashMandatory suite (VRef foreignCryptosuite)
              (VRef revealedDocument) (VRef derivedProof)) as (Hname & _).
  split.
  - apply Hname. vm_compute. discriminate.
  - destruct (createVerifyData suite (VRef signCryptosuite)
                (VRef revealedDocument) (VRef derivedProof))
      as [data|e] eqn:Hrun; [|vm_compute in Hrun; discriminate Hrun].
    exists data. split; [reflexivity|].
    destruct (createVerifyData_outcomes name base64url_decode base64url_encode
                cborg_decode Number_toString_ext hashCanonizedProof
                createLabelMapFunction labelReplacementCanonicalizeJsonLd
                hashMandatory suite (VRef signCryptosuite)
                (VRef revealedDocument) (VRef derivedProof)) as (_ & _ & H).
    destruct (H data Hrun)
      as (params & sigs & zs & f & nq & _ & Hp & _ & Hi & Hf & Hn & _ & _ & _
          & _ & Hnm & _).
    vm_compute in Hp. injection Hp as <-.
    vm_compute in Hf. injection Hf as <-.
    vm_compute in Hn. injection Hn as <-.
    injection Hi as Hi.
    assert (zs = [0%Z]) as ->.
    { destruct zs as [|z [|z' zs]]; try discriminate Hi.
      by injection Hi as <-. }
    rewrite Hnm. vm_compute. reflexivity.
Defined.

Lemma createSignData_outcomes_witness :
  createSignData suite (VRef looseCryptosuite) (VRef signedDocument) VNull
  = Throw (must_be "cryptosuite.options.mandatoryPointers" "an array")
  ∧ ∃ data, createSignData suite (VRef signCryptosuite) (VRef signedDocument)
              VNull = Return data
            ∧ Sign.sd_nonMandatory data
              = ["_:b0 <q> <b> ."; "_:b0 <r> <c> ."]%string.
Proof.
  split.
  - apply (createSignData_outcomes name hashCanonizedProof
             Reference.createHmac hmac_export
             ReferenceSuite.canonicalizeAndGroup hashMandatory suite
             (VRef looseCryptosuite) (VRef signedDocument) VNull)
      with (options := VRef 18%positive);
      vm_compute; reflexivity.
  - destruct (createSignData suite (VRef signCryptosuite)
                (VRef signedDocument) VNull)
      as [data|e] eqn:Hrun; [|vm_compute in Hrun; discriminate Hrun].
    exists data. split; [reflexivity|].
    destruct (createSignData_outcomes name hashCanonizedProof
                Reference.createHmac hmac_export
                ReferenceSuite.canonicalizeAndGroup hashMandatory suite
                (VRef signCryptosuite) (VRef signedDocument) VNull)
      as (_ & _ & H).
    destruct (H data Hrun)
      as (options & pointers & hm & g & Ho & Hp & _ & Hhm & _ & Hg & Hnm & _).
    vm_compute in Ho. injection Ho as <-.
    vm_compute in Hp. injection Hp as <-.
    vm_compute in Hhm. injection Hhm as <-.
    vm_compute in Hg. injection Hg as <-.
    exact Hnm.
Defined.

Lemma createBaseProofValue_parses_witness :
  ∃ params,
    parseBaseProofValue base64url_decode cborg_decode suite (VRef signedProof)
    = Return params
    ∧ length (array_elements (Base.signatures params)) = 2.
Proof.
  destruct (createBaseProofValue_parses base64url_decode base64url_encode
              cborg_decode cborg_encode SM2Multikey_generate keyPair_sign
              publicKeyMultibase base58_decode stringToUtf8Bytes signer_sign
              sign_data signed_proofValue)
    as (k & pk & Hk & Hpk & _ & _ & _ & _ & _ & Hlen & Hparse).
  - vm_compute. reflexivity.
  - injection Hk as <-. vm_compute in Hpk. injection Hpk as <-.
    eexists. split; [|exact Hlen].
    apply Hparse.
    + intros body H. vm_compute in H. injection H as <-.
      vm_compute. reflexivity.
    + intros body enc H H'. vm_compute in H. injection H as <-.
      vm_compute in H'. injection H' as <-. vm_compute. reflexivity.
    + vm_compute. reflexivity.
Defined.

Lemma signed_proof_verifies_witness :
  ∃ params,
    parseBaseProofValue base64url_decode cborg_decode suite (VRef signedProof)
    = Return params
    ∧ Verify._multiverify string base58_encode SM2Multikey_from
        ReferenceSuite.keyPair_verify stringToUtf8Bytes ReferenceSuite.verify
        (verifyData_of params (Sign.sd_proofHash sign_data)
           (Sign.sd_nonMandatory sign_data) (Sign.sd_mandatoryHash sign_data))
        (State suite [])
      = (Return true,
         State suite [EvImportKey; EvVerifyStatement 0; EvVerifyStatement 1;
                      EvVerifyBase]).
Proof.
  apply (signed_proof_verifies base64url_decode base64url_encode
           cborg_decode cborg_encode SM2Multikey_generate keyPair_sign
           publicKeyMultibase base58_decode stringToUtf8Bytes signer_sign
           base58_encode SM2Multikey_from ReferenceSuite.keyPair_verify
           ReferenceSuite.verify sign_data signed_proofValue
           "z22222222222222222222222222222222222" publicKey suite
           (VRef signedProof) ("z" +:+ base58_encode publicKey) (State suite [])).
  - vm_compute. reflexivity.
  - reflexivity.
  - vm_compute. reflexivity.
  - intros body H. vm_compute in H. injection H as <-.
    vm_compute. reflexivity.
  - intros body enc H H'. vm_compute in H. injection H as <-.
    vm_compute in H'. injection H' as <-. vm_compute. reflexivity.
  - vm_compute. reflexivity.
  - vm_compute. reflexivity.
  - intros d. by apply bool_decide_eq_true.
  - intros d. by apply bool_decide_eq_true.
Defined.


Lemma confirm_createVerifyData_outcomes_witness :
  ∃ data, confirmVerifyData suite (VRef signCryptosuite) (VRef signedDocument)
            (VRef signedProof) = Return data
          ∧ length (baseSignature data) = 64
          ∧ nonMandatory data = ["_:b0 <q> <b> ."; "_:b0 <r> <c> ."]%string.
Proof.
  destruct (confirmVerifyData suite (VRef signCryptosuite)
              (VRef signedDocument) (VRef signedProof))
    as [data|e] eqn:Hrun; [|vm_compute in Hrun; discriminate Hrun].
  exists data. split; [reflexivity|].
  destruct (confirm_createVerifyData_outcomes name base64url_decode
              cborg_decode hashCanonizedProof Reference.createHmac
              createHmacIdLabelMapFunction labelReplacementCanonicalizeJsonLd
              ReferenceSuite.selectJsonLd hashMandatory suite
              (VRef signCryptosuite) (VRef signedDocument) (VRef signedProof))
    as (_ & _ & H).
  destruct (H data Hrun)
    as (params & hm & nq & mandatory & _ & _ & _ & _ & _ & _ & _ & _ & _
        & Hlen & _).
  split; [exact Hlen|].
  vm_compute in Hrun. injection Hrun as <-. reflexivity.
Defined.
Lemma signer_pointers_checked_late_witness :
  ∃ data, createSignData suite (VRef oddCryptosuite) (VRef signedDocument)
            VNull = Return data
          ∧ createBaseProofValue data
            = Throw (must_be "mandatoryPointers" "an array of strings").
Proof.
  destruct (createSignData suite (VRef oddCryptosuite) (VRef signedDocument)
              VNull) as [data|e] eqn:Hrun;
    [|vm_compute in Hrun; discriminate Hrun].
  exists data. split; [reflexivity|].
  destruct (signer_pointers_checked_late name base64url_encode cborg_encode
              hashCanonizedProof Reference.createHmac hmac_export
              ReferenceSuite.canonicalizeAndGroup hashMandatory
              SM2Multikey_generate keyPair_sign publicKeyMultibase
              base58_decode stringToUtf8Bytes signer_sign suite
              (VRef oddCryptosuite) (VRef signedDocument) VNull data
              [VNumber (NInt 7)] Hrun) as [_ H].
  - vm_compute in Hrun. injection Hrun as <-. reflexivity.
  - intros Hall. apply Forall_cons in Hall as [[s Hs] _]. discriminate Hs.
  - apply (H "z22222222222222222222222222222222222" publicKey).
    + reflexivity.
    + vm_compute. reflexivity.
    + vm_compute in Hrun. injection Hrun as <-. reflexivity.
    + vm_compute in Hrun. injection Hrun as <-. reflexivity.
    + vm_compute in Hrun. injection Hrun as <-.
      intros f Hf. apply base_field_check_spec.
      destruct f; try (vm_compute; reflexivity). by destruct Hf.
Defined.
End SignerRuns.
